(** * web2py-json-sync: the schema-discovery-and-sync engine of [json_sync.py]

    A shallow embedding of [JSONRegistry], [Context], [JSONType] and
    [JSONField], and the properties of the sync engine stated over it.

    Python values are an inductive type, dictionaries are association lists
    in insertion order, the DAL is an explicit state that every storage
    operation threads, and Python exceptions are an outcome next to the
    returned value (the state reached when the exception is raised is kept:
    the engine never rolls back). *)

From Stdlib Require Import ZArith List String Ascii Bool Lia PeanoNat.
Import ListNotations.
Local Open Scope string_scope.
Local Open Scope Z_scope.
Local Open Scope list_scope.

Set Implicit Arguments.

(** ** Python values *)

(** A [datetime.datetime]: the wall-clock reading in seconds since an epoch
    and, for an aware value, the UTC offset of its [tzinfo] in seconds. *)
Record datetime := mkDatetime {
  wall : Z;
  tzinfo : option Z
}.

(** The concrete Python 2 values a decoded JSON document or a row can hold.
    A float is only ever stored and inspected for its type, so it is kept
    as mantissa and exponent. *)
#[warnings="-register-all"]
Inductive value : Type :=
| VNone
| VBool (b : bool)
| VInt (n : Z)
| VLong (n : Z)
| VFloat (m e : Z)
| VStr (s : string)
| VUnicode (s : string)
| VList (l : list value)
| VTuple (l : list value)
| VDict (d : list (string * value))
| VDatetime (d : datetime)
| VDate (days : Z)
| VTime (secs : Z).

(** [type(value)] *)
Inductive pytype : Type :=
| NoneType | bool_ | int_ | long_ | float_ | str_ | unicode_
| list_ | tuple_ | dict_ | datetime_ | date_ | time_.

Definition pytype_eq_dec (a b : pytype) : {a = b} + {a <> b}.
Proof. decide equality. Defined.

Definition pytype_eqb (a b : pytype) : bool :=
  if pytype_eq_dec a b then true else false.

Definition type_of (v : value) : pytype :=
  match v with
  | VNone => NoneType
  | VBool _ => bool_
  | VInt _ => int_
  | VLong _ => long_
  | VFloat _ _ => float_
  | VStr _ => str_
  | VUnicode _ => unicode_
  | VList _ => list_
  | VTuple _ => tuple_
  | VDict _ => dict_
  | VDatetime _ => datetime_
  | VDate _ => date_
  | VTime _ => time_
  end.

(** [value is None] *)
Definition is_None (v : value) : bool :=
  match v with VNone => true | _ => false end.

(** ** Dictionaries

    A [dict] with string keys, as the list of its items in insertion order.
    [dset] is [d[k] = v]: it overwrites in place or appends. *)
Section Dict.
Variable V : Type.

Definition dict := list (string * V).

Fixpoint dget (k : string) (d : dict) : option V :=
  match d with
  | [] => None
  | (k', v) :: d' => if String.eqb k k' then Some v else dget k d'
  end.

Definition dmem (k : string) (d : dict) : bool :=
  match dget k d with Some _ => true | None => false end.

Fixpoint dset (k : string) (v : V) (d : dict) : dict :=
  match d with
  | [] => [(k, v)]
  | (k', v') :: d' =>
      if String.eqb k k' then (k, v) :: d' else (k', v') :: dset k v d'
  end.

Definition dkeys (d : dict) : list string := map fst d.

Definition dvalues (d : dict) : list V := map snd d.

(** [dict(items)]: a later item overwrites an earlier one of the same key. *)
Definition dict_of (items : list (string * V)) : dict :=
  fold_left (fun d kv => dset (fst kv) (snd kv) d) items [].

End Dict.

Arguments dget {V} k d.
Arguments dmem {V} k d.
Arguments dset {V} k v d.
Arguments dkeys {V} d.
Arguments dvalues {V} d.
Arguments dict_of {V} items.

(** A document (decoded JSON object) and a row are both dictionaries of
    values; constructing an [AttrDict] from a mapping copies its items into
    a new dictionary. *)
Definition AttrDict := dict value.

Definition AttrDict_new (obj : list (string * value)) : AttrDict := dict_of obj.

(** [k in l] on a list of strings *)
Definition str_in (k : string) (l : list string) : bool :=
  existsb (String.eqb k) l.

(** A Python [set] of types: a duplicate-free list; [add] ignores a member. *)
Definition set_add (t : pytype) (s : list pytype) : list pytype :=
  if existsb (pytype_eqb t) s then s else s ++ [t].

Definition type_in (t : pytype) (s : list pytype) : bool :=
  existsb (pytype_eqb t) s.

(** [l[i] = v] on a list; [None] is Python's IndexError. *)
Fixpoint list_set {A : Type} (i : nat) (v : A) (l : list A) {struct l} : option (list A) :=
  match l, i with
  | [], _ => None
  | _ :: l', O => Some (v :: l')
  | x :: l', S i' => option_map (cons x) (list_set i' v l')
  end.

(** ** [Context] *)

#[warnings="-register-all"]
Inductive Context : Type := mkContext {
  parent_context : option Context;
  ctx_type : string;
  data : option AttrDict;
  seq : option (list value);
  partial : bool;
  index : Z
}.

(** [Context.__init__]: a new context starts at index -1. *)
Definition Context_new (parent : option Context) (ty : string)
    (data : option AttrDict) (seq : option (list value)) (partial : bool) : Context :=
  mkContext parent ty data seq partial (-1).

(** [context.parents]: the data of every enclosing context, nearest first. *)
Fixpoint parents (c : Context) : list (option AttrDict) :=
  match c with
  | mkContext (Some p) _ _ _ _ _ => data p :: parents p
  | mkContext None _ _ _ _ _ => []
  end.

(** [context.root_context] and [context.root] *)
Fixpoint root_context (c : Context) : Context :=
  match c with
  | mkContext (Some p) _ _ _ _ _ => root_context p
  | mkContext None _ _ _ _ _ => c
  end.

Definition root (c : Context) : option AttrDict := data (root_context c).

(** The two assignments [_bulk_sync] makes on its context for each item. *)
Definition set_item (c : Context) (i : Z) (d : AttrDict) : Context :=
  mkContext (parent_context c) (ctx_type c) (Some d) (seq c) (partial c) i.

(** ** [JSONField], [JSONType], [JSONRegistry]

    The options a field hands on to the DAL's [Field] ([field_args],
    [field_kwargs]) have no part in the engine and are left out. A [compute]
    function always receives the row and the context; one of arity 1 ignores
    the context. *)

Record JSONField := mkJSONField {
  fieldname : string;
  column_name : string;
  type : string;
  compute : option (AttrDict -> Context -> value);
  date_format : option string;
  dateutil_kwargs : option (dict value)
}.

(** [JSONField(fieldname, type)] with no keyword. The constructor ends by
    building the DAL's [Field] once, as a check; the rules of the DAL for
    the name and the type of a field are not part of the repository, and the
    check is taken to pass. *)
Definition JSONField_new (fieldname type : string) : JSONField :=
  mkJSONField fieldname fieldname type None None None.

Record JSONType := mkJSONType {
  name : string;
  table_name : string;
  remove_missing_fields : bool;
  fields : list JSONField
}.

(** [type.fields_by_name], the dict comprehension of [JSONType.__init__] *)
Definition fields_by_name (ty : JSONType) : dict JSONField :=
  dict_of (map (fun field => (fieldname field, field)) (fields ty)).

Record JSONRegistry := mkJSONRegistry {
  types : list JSONType
}.

(** ** Exceptions and the state monad of the engine *)

Inductive exn : Type :=
| KeyError (k : string)
| AttributeError (n : string)
| IndexError
| TypeError
| ValueError
| SyntaxError (n : string)
| IntegrityError.

(** What a call comes to: it returns, it raises, or it leaves what is
    modelled ([Beyond]: the fuel of the recursion is spent, or a value is of
    a kind whose treatment by Python or the DAL is not modelled). *)
Inductive outcome (A : Type) : Type :=
| Return (a : A)
| Raise (e : exn)
| Beyond.

Arguments Return {A} a.
Arguments Raise {A} e.
Arguments Beyond {A}.

Definition obind {A B : Type} (o : outcome A) (k : A -> outcome B) : outcome B :=
  match o with
  | Return a => k a
  | Raise e => Raise e
  | Beyond => Beyond
  end.

(** *** The DAL

    The storage engine is not part of the repository; this is the contract
    the engine relies on. A table has its fields (name and type, [id] first)
    and its records by integer id; a record keeps the values it was written
    with and reads [None] for a field it has no value for. The catalog of
    discovered fields is the table [json_type_registry]; it is taken to
    exist: [type_registry] defines it on the first use, and that one
    [define_table] call on a fresh database is left out. Every write is also
    appended to [calls]. *)

Record Table := mkTable {
  tfields : list (string * string);
  records : list (Z * AttrDict)
}.

Record registry_row := mkRegistryRow {
  r_type : string;
  r_fieldname : string;
  r_column_name : option string;
  r_db_type : string
}.

Inductive dal_call : Type :=
| Cdefine_table (tablename : string) (fields : list (string * string))
| Cregistry_bulk_insert (rows : list registry_row)
| Cupdate_record (tablename : string) (id : Z) (fields : AttrDict)
| Cinsert (tablename : string) (fields : AttrDict)
| Cbulk_insert (tablename : string) (rows : list AttrDict).

Record DAL := mkDAL {
  tables : dict Table;
  json_type_registry : list registry_row;
  calls : list dal_call
}.

Definition M (A : Type) : Type := DAL -> outcome A * DAL.

Definition ret {A : Type} (a : A) : M A := fun db => (Return a, db).

Definition raise {A : Type} (e : exn) : M A := fun db => (Raise e, db).

Definition beyond {A : Type} : M A := fun db => (Beyond, db).

Definition lift {A : Type} (o : outcome A) : M A := fun db => (o, db).

Definition bind {A B : Type} (m : M A) (k : A -> M B) : M B :=
  fun db =>
    match m db with
    | (Return a, db') => k a db'
    | (Raise e, db') => (Raise e, db')
    | (Beyond, db') => (Beyond, db')
    end.

Declare Scope dal_scope.
Delimit Scope dal_scope with dal.
Notation "x <- m ;; k" := (bind m (fun x => k))
  (at level 100, m at next level, right associativity) : dal_scope.
Notation "m ;;; k" := (bind m (fun _ => k))
  (at level 100, right associativity) : dal_scope.
Local Open Scope dal_scope.

(** A loop whose body can raise: [for x in l: acc = body(acc, x)]. *)
Fixpoint for_each {A B : Type} (body : B -> A -> M B) (l : list A) (acc : B) : M B :=
  match l with
  | [] => ret acc
  | x :: l' => acc' <- body acc x ;; for_each body l' acc'
  end.

Definition log (c : dal_call) : M unit :=
  fun db => (Return tt, mkDAL (tables db) (json_type_registry db) (calls db ++ [c])).

(** [db[tablename]] *)
Definition get_table (tablename : string) : M Table :=
  fun db =>
    match dget tablename (tables db) with
    | Some t => (Return t, db)
    | None => (Raise (KeyError tablename), db)
    end.

Definition put_table (tablename : string) (t : Table) : M unit :=
  fun db => (Return tt, mkDAL (dset tablename t (tables db)) (json_type_registry db) (calls db)).

(** [db.define_table(tablename, *fields, migrate=True, redefine=True)]: the
    table gets [id] and the given fields; the migration keeps the records. *)
Definition define_table (tablename : string) (fs : list (string * string)) : M unit :=
  fun db =>
    let recs := match dget tablename (tables db) with
                | Some t => records t
                | None => []
                end in
    (Return tt,
     mkDAL (dset tablename (mkTable (("id", "id") :: fs) recs) (tables db))
           (json_type_registry db)
           (calls db ++ [Cdefine_table tablename fs])).

(** The keys the model covers: an [int] or [long] that is not negative. *)
Definition key_of (v : value) : option Z :=
  match v with
  | VInt n | VLong n => if 0 <=? n then Some n else None
  | _ => None
  end.

Fixpoint find_record (k : Z) (recs : list (Z * AttrDict)) : option AttrDict :=
  match recs with
  | [] => None
  | (k', r) :: recs' => if k =? k' then Some r else find_record k recs'
  end.

(** [table(key)]: the record of that id, or [None]. [table(None)] is [None]
    too; keys of any other kind are outside the model. *)
Definition table_call (t : Table) (key : value) : outcome (option Z) :=
  match key with
  | VNone => Return None
  | _ =>
      match key_of key with
      | Some k =>
          match find_record k (records t) with
          | Some _ => Return (Some k)
          | None => Return None
          end
      | None => Beyond
      end
  end.

(** The keys of a [Row] read from table [t]: the names of its fields. *)
Definition row_columns (t : Table) : list string := map fst (tfields t).

(** The value a record reads for a field. *)
Definition read_field (k : Z) (r : AttrDict) (f : string * string) : value :=
  if String.eqb (snd f) "id" then VInt k
  else match dget (fst f) r with
       | Some v => v
       | None => VNone
       end.

(** The [Row] read from table [t] for id [k]. *)
Definition read_record (t : Table) (k : Z) : option AttrDict :=
  match find_record k (records t) with
  | Some r => Some (map (fun f => (fst f, read_field k r f)) (tfields t))
  | None => None
  end.

Definition is_id_field (t : Table) (c : string) : bool :=
  match dget c (tfields t) with
  | Some ty => String.eqb ty "id"
  | None => false
  end.

Fixpoint set_record (k : Z) (f : AttrDict -> AttrDict) (recs : list (Z * AttrDict))
    : list (Z * AttrDict) :=
  match recs with
  | [] => []
  | (k', r) :: recs' =>
      if k =? k' then (k', f r) :: recs' else (k', r) :: set_record k f recs'
  end.

(** [db_row.update_record] with the given fields: entries that name no field of the
    table, or the id field, are dropped; the others are written. *)
Definition write_fields (fs : AttrDict) (r : AttrDict) : AttrDict :=
  fold_left (fun r kv => dset (fst kv) (snd kv) r) fs r.

Definition updated_table (t : Table) (k : Z) (fs : AttrDict) : Table :=
  let newfields :=
    filter (fun kv => str_in (fst kv) (row_columns t) && negb (is_id_field t (fst kv))) fs in
  mkTable (tfields t) (set_record k (write_fields newfields) (records t)).

Definition update_record (tablename : string) (k : Z) (fs : AttrDict) : M unit :=
  log (Cupdate_record tablename k fs) ;;;
  t <- get_table tablename ;;
  put_table tablename (updated_table t k fs).

Definition next_id (recs : list (Z * AttrDict)) : Z :=
  1 + fold_right (fun kr m => Z.max (fst kr) m) 0 recs.

(** One [INSERT]: every key must name a field of the table (the DAL raises
    SyntaxError otherwise); a given [id] is inserted as it is and must be
    new, a missing or [None] id is generated. *)
Definition insert_into (t : Table) (fs : AttrDict) : outcome Table :=
  match find (fun c => negb (str_in c (row_columns t))) (dkeys fs) with
  | Some c => Raise (SyntaxError c)
  | None =>
      match dget "id" fs with
      | None | Some VNone =>
          Return (mkTable (tfields t) (records t ++ [(next_id (records t), fs)]))
      | Some v =>
          match key_of v with
          | Some k =>
              match find_record k (records t) with
              | Some _ => Raise IntegrityError
              | None => Return (mkTable (tfields t) (records t ++ [(k, fs)]))
              end
          | None => Beyond
          end
      end
  end.

(** [db[tablename].insert] with the given fields *)
Definition insert (tablename : string) (fs : AttrDict) : M unit :=
  log (Cinsert tablename fs) ;;;
  t <- get_table tablename ;;
  t' <- lift (insert_into t fs) ;;
  put_table tablename t'.

(** [db[tablename].bulk_insert(rows)]: one call, the rows inserted in order. *)
Definition insert_one (tablename : string) (_ : unit) (fs : AttrDict) : M unit :=
  t <- get_table tablename ;;
  t' <- lift (insert_into t fs) ;;
  put_table tablename t'.

Definition bulk_insert (tablename : string) (rows : list AttrDict) : M unit :=
  log (Cbulk_insert tablename rows) ;;;
  for_each (insert_one tablename) rows tt.

(** [registry.type_registry(db).bulk_insert(rows)] *)
Definition registry_bulk_insert (rows : list registry_row) : M unit :=
  fun db =>
    (Return tt,
     mkDAL (tables db) (json_type_registry db ++ rows)
           (calls db ++ [Cregistry_bulk_insert rows])).

(** [db(registry.type_registry(db).type == name).select()] *)
Definition registry_select (name : string) : M (list registry_row) :=
  fun db => (Return (filter (fun r => String.eqb (r_type r) name) (json_type_registry db)), db).

(** ** The regular expression of reference types

    [re.match(r'^(reference|list:reference) (\w+)$', type)]: the two groups
    of the match. [$] also matches before one final newline. *)

Fixpoint strip_prefix (p s : string) : option string :=
  match p with
  | EmptyString => Some s
  | String c p' =>
      match s with
      | String c' s' => if Ascii.eqb c c' then strip_prefix p' s' else None
      | EmptyString => None
      end
  end.

Definition is_word_char (c : ascii) : bool :=
  let n := nat_of_ascii c in
  ((48 <=? n) && (n <=? 57) || (65 <=? n) && (n <=? 90)
   || (97 <=? n) && (n <=? 122) || (n =? 95))%nat.

Fixpoint word_to_end (s : string) : option string :=
  match s with
  | EmptyString => None
  | String c s' =>
      if is_word_char c then
        match s' with
        | EmptyString => Some (String c EmptyString)
        | String "010"%char EmptyString => Some (String c EmptyString)
        | _ => option_map (String c) (word_to_end s')
        end
      else None
  end.

Definition ref_match (ty : string) : option (string * string) :=
  match strip_prefix "reference " ty with
  | Some rest => option_map (fun w => ("reference", w)) (word_to_end rest)
  | None =>
      match strip_prefix "list:reference " ty with
      | Some rest => option_map (fun w => ("list:reference", w)) (word_to_end rest)
      | None => None
      end
  end.

(** ** [JSONRegistry] *)

(** [JSONRegistry.__getattr__]: the first type of that name. *)
Definition JSONRegistry_getattr (registry : JSONRegistry) (n : string) : outcome JSONType :=
  match find (fun ty => String.eqb (name ty) n) (types registry) with
  | Some ty => Return ty
  | None => Raise (AttributeError n)
  end.

(** [registry[name]] is [getattr(registry, name)] ([__getitem__ = _ga]):
    an attribute of the registry object is found first, and only a name
    that is none goes to [__getattr__]. The attributes the class gives its
    instances are these; the names Python itself gives an object begin with
    two underscores, and such a name is outside the model. *)
Definition registry_attributes : list string :=
  ["types"; "define_type"; "type_registry"; "fields_by_name"; "redefine_table";
   "redefine_tables"; "define_tables"; "add_fields_to_type"].

Inductive registry_item : Type :=
| ItemType (ty : JSONType)
| ItemAttribute (n : string).

Definition JSONRegistry_getitem (registry : JSONRegistry) (n : string)
    : outcome registry_item :=
  if str_in n registry_attributes then Return (ItemAttribute n)
  else if String.prefix "__" n then Beyond
  else obind (JSONRegistry_getattr registry n) (fun ty => Return (ItemType ty)).

(** [item.attr] for an attribute that only a type has ([table_name],
    [_sync], [_bulk_sync]): the list of types and the bound methods of the
    registry have none of them. *)
Definition type_attribute (item : registry_item) (attr : string) : outcome JSONType :=
  match item with
  | ItemType ty => Return ty
  | ItemAttribute _ => Raise (AttributeError attr)
  end.

(** [JSONField.field]: the name and the type of the DAL field; a reference
    names the table of the type it refers to. *)
Definition JSONField_field (registry : option JSONRegistry) (f : JSONField)
    : outcome (string * string) :=
  match registry with
  | Some reg =>
      match ref_match (type f) with
      | Some (kind, n) =>
          obind (JSONRegistry_getitem reg n) (fun item =>
          obind (type_attribute item "table_name") (fun ref_type =>
          Return (column_name f, (kind ++ " " ++ table_name ref_type)%string)))
      | None => Return (column_name f, type f)
      end
  | None => Return (column_name f, type f)
  end.

(** [JSONRegistry.fields_by_name]: the declared fields, then a field for
    every catalog entry of the type that names none yet. *)
Definition JSONRegistry_fields_by_name (ty : JSONType) : M (dict JSONField) :=
  extra_fields <- registry_select (name ty) ;;
  ret (fold_left
         (fun fbn extra_field =>
            if dmem (r_fieldname extra_field) fbn then fbn
            else dset (r_fieldname extra_field)
                      (JSONField_new (r_fieldname extra_field) (r_db_type extra_field)) fbn)
         extra_fields (fields_by_name ty)).

(** [JSONRegistry.redefine_table] *)
Definition JSONRegistry_redefine_table (registry : JSONRegistry) (ty : JSONType) : M unit :=
  fbn <- JSONRegistry_fields_by_name ty ;;
  fs <- for_each (fun fs field =>
                    f <- lift (JSONField_field (Some registry) field) ;;
                    ret (fs ++ [f]))
                 (dvalues fbn) [] ;;
  define_table (table_name ty) fs.

(** [JSONRegistry.redefine_tables], also bound to [define_tables] *)
Definition JSONRegistry_redefine_tables (registry : JSONRegistry) : M unit :=
  for_each (fun (_ : unit) ty => JSONRegistry_redefine_table registry ty) (types registry) tt.

(** [JSONRegistry.add_fields_to_type] *)
Definition JSONRegistry_add_fields_to_type (registry : JSONRegistry) (ty : JSONType)
    (fs : dict string) : M unit :=
  match fs with
  | [] => ret tt
  | _ =>
      let rows := map (fun kv => mkRegistryRow (name ty) (fst kv) None (snd kv)) fs in
      registry_bulk_insert rows ;;;
      JSONRegistry_redefine_table registry ty
  end.

(** ** [JSONType]: schema discovery *)

(** [JSONType._find_extra_types]; the updated [missing_fields] is returned. *)
Definition _find_extra_types (current_fields : dict JSONField)
    (missing_fields : dict (list pytype)) (obj : AttrDict) : dict (list pytype) :=
  fold_left
    (fun missing_fields fieldname =>
       if dmem fieldname current_fields then missing_fields
       else if String.eqb fieldname "id" then missing_fields
       else
         match dget fieldname obj with
         | None => missing_fields
         | Some value =>
             if is_None value then missing_fields
             else
               let types := match dget fieldname missing_fields with
                            | Some types => types
                            | None => []
                            end in
               dset fieldname (set_add (type_of value) types) missing_fields
         end)
    (dkeys obj) missing_fields.

(** The body of the loop of [_redefine_with_missing_fields]: the column type
    inferred from the set of observed types. *)
Definition infer_db_type (types : list pytype) : string :=
  let db_type :=
    if (List.length types =? 1)%nat then
      match types with
      | _type :: _ =>
          if type_in _type [int_; long_] then Some "integer"
          else if type_in _type [dict_; list_; tuple_] then Some "json"
          else if pytype_eqb _type bool_ then Some "boolean"
          else if pytype_eqb _type float_ then Some "double"
          else None
      | [] => None
      end
    else None in
  match db_type with
  | Some t => t
  | None => "string"
  end.

Definition infer_db_types (missing_fields : dict (list pytype)) : dict string :=
  fold_left (fun db_types kv => dset (fst kv) (infer_db_type (snd kv)) db_types)
            missing_fields [].

(** [JSONType._redefine_with_missing_fields] *)
Definition _redefine_with_missing_fields (registry : JSONRegistry) (ty : JSONType)
    (missing_fields : dict (list pytype)) : M unit :=
  JSONRegistry_add_fields_to_type registry ty (infer_db_types missing_fields).

(** ** Dates and times

    Parsing is done by [datetime.strptime] and [dateutil.parser.parse], and
    the local zone is the machine's: the engine is given them. *)
Record DateLib := mkDateLib {
  strptime : string -> string -> option datetime;
  parse : dict value -> string -> option datetime;
  tzlocal : Z
}.

(** [d.astimezone(tz)]: the same instant read in the zone of offset [tz]. *)
Definition astimezone (d : datetime) (tz : Z) : datetime :=
  match tzinfo d with
  | Some off => mkDatetime (wall d - off + tz) (Some tz)
  | None => d
  end.

Definition date (d : datetime) : value := VDate (wall d / 86400).

Definition time (d : datetime) : value := VTime (wall d mod 86400).

(** An expression statement: the value is computed and dropped. *)
Definition expr_stmt {A B : Type} (dropped : A) (next : B) : B := next.

(** [long(v)] for the kinds of value an [id] is given as. *)
Definition long (v : value) : outcome value :=
  match v with
  | VInt n | VLong n => Return (VLong n)
  | VBool b => Return (VLong (if b then 1 else 0))
  | VFloat _ _ | VStr _ | VUnicode _ => Beyond
  | _ => Raise TypeError
  end.

(** [row[k]] *)
Definition getitem (row : AttrDict) (k : string) : outcome value :=
  match dget k row with
  | Some v => Return v
  | None => Raise (KeyError k)
  end.

(** [AttrDict(value)] for the value of a nested document; only mappings
    are modelled. *)
Definition AttrDict_of_value (v : value) : outcome AttrDict :=
  match v with
  | VDict d => Return (AttrDict_new d)
  | _ => Beyond
  end.

(** A loop over pure steps that can raise. *)
Fixpoint ofold {A B : Type} (body : B -> A -> outcome B) (l : list A) (acc : B) : outcome B :=
  match l with
  | [] => Return acc
  | x :: l' => obind (body acc x) (fun acc' => ofold body l' acc')
  end.

(** [enumerate(l)] *)
Definition enumerate {A : Type} (l : list A) : list (nat * A) :=
  combine (List.seq 0 (List.length l)) l.

(** [l[i] = v] *)
Definition setitem_list (i : nat) (v : value) (l : list value) : outcome (list value) :=
  match list_set i v l with
  | Some l' => Return l'
  | None => Raise IndexError
  end.

(** The nesting depth of a value: the recursion of a sync follows it. *)
Fixpoint depth (v : value) : nat :=
  match v with
  | VList l | VTuple l => S (fold_right (fun x n => Nat.max (depth x) n) O l)
  | VDict d =>
      S ((fix go (d : list (string * value)) : nat :=
            match d with
            | [] => O
            | (_, x) :: d' => Nat.max (depth x) (go d')
            end) d)
  | _ => O
  end.

(** ** [JSONType]: row construction, upsert, sync *)

Section Engine.
Variable lib : DateLib.
Variable registry : JSONRegistry.

(** The body of the first loop of [_create_row_dict]: a key of the document
    that is no declared field is copied when its value is not [None] or the
    table has a field of that name. *)
Definition passthrough (ty : JSONType) (d : AttrDict) (row : AttrDict)
    (fieldname : string) : M AttrDict :=
  if dmem fieldname (fields_by_name ty) then ret row
  else
    match dget fieldname d with
    | None => raise (KeyError fieldname)
    | Some v =>
        if negb (is_None v) then ret (dset fieldname v row)
        else
          table <- get_table (table_name ty) ;;
          if str_in fieldname (row_columns table) then ret (dset fieldname v row)
          else ret row
    end.

(** The parse of a date string: [strptime] with the field's [date_format]
    when it has one, [dateutil.parser.parse] otherwise. *)
Definition parse_date (field : JSONField) (v : value) : outcome datetime :=
  match v with
  | VStr s | VUnicode s =>
      let parsed :=
        match date_format field with
        | Some (String c fmt) => strptime lib s (String c fmt)
        | _ =>
            let dateutil_kwargs := match dateutil_kwargs field with
                                   | Some kw => kw
                                   | None => []
                                   end in
            parse lib dateutil_kwargs s
        end in
      match parsed with
      | Some d => Return d
      | None => Raise ValueError
      end
  | _ => Raise TypeError
  end.

(** The treatment of a [datetime], [date] or [time] field. The call of
    [astimezone] is an expression statement. *)
Definition convert_temporal (field : JSONField) (v : value) : outcome value :=
  if str_in (type field) ["datetime"; "date"; "time"] then
    obind (parse_date field v) (fun d =>
      expr_stmt
        (match tzinfo d with
         | Some _ => Some (astimezone d (tzlocal lib))
         | None => None
         end)
        (let v1 := if String.eqb (type field) "date" then date d else VDatetime d in
         let v2 := if String.eqb (type field) "time" then time d else v1 in
         Return v2))
  else Return v.

(** A field of type [reference <name>] *)
Definition resolve_reference (sync_ : JSONType -> Context -> M AttrDict)
    (context : Context) (n : string) (v : value) : M value :=
  item <- lift (JSONRegistry_getitem registry n) ;;
  if negb (type_in (type_of v) [int_; long_]) then
    d <- lift (AttrDict_of_value v) ;;
    ref_type <- lift (type_attribute item "_sync") ;;
    let new_context :=
      Context_new (Some context) (name ref_type) (Some d) None (partial context) in
    child <- sync_ ref_type new_context ;;
    id <- lift (getitem child "id") ;;
    lift (long id)
  else ret v.

(** [value] as a sequence: a value that is no list or tuple becomes [[value]]. *)
Definition as_sequence (v : value) : list value :=
  match v with
  | VList l | VTuple l => l
  | _ => [v]
  end.

(** The loop that sorts the items of a [list:reference] value: integers into
    their slot of [ids], the others into [seq] with their index. *)
Definition split_items (items : list value)
    : outcome (list value * list value * list nat) :=
  ofold (fun st ix =>
           let '(ids, sq, indexes) := st in
           if type_in (type_of (snd ix)) [int_; long_] then
             obind (setitem_list (fst ix) (snd ix) ids)
                   (fun ids' => Return (ids', sq, indexes))
           else Return (ids, sq ++ [snd ix], indexes ++ [fst ix]))
        (enumerate items)
        (repeat VNone (List.length items), [], []).

(** The loop that writes the id of each child at the index of its item. *)
Definition splice_ids (indexes : list nat) (children : list AttrDict)
    (ids : list value) : outcome (list value) :=
  ofold (fun ids ic =>
           obind (getitem (snd ic) "id") (fun id =>
           obind (long id) (fun id' =>
           match nth_error indexes (fst ic) with
           | Some j => setitem_list j id' ids
           | None => Raise IndexError
           end)))
        (enumerate children) ids.

(** A field of type [list:reference <name>] *)
Definition resolve_list_reference (bulk_sync_ : JSONType -> Context -> M (list AttrDict))
    (context : Context) (n : string) (v : value) : M value :=
  item <- lift (JSONRegistry_getitem registry n) ;;
  st <- lift (split_items (as_sequence v)) ;;
  let '(ids, sq, indexes) := st in
  match sq with
  | [] => ret (VList ids)
  | _ =>
      ref_type <- lift (type_attribute item "_bulk_sync") ;;
      let new_context :=
        Context_new (Some context) (name ref_type) None (Some sq) (partial context) in
      children <- bulk_sync_ ref_type new_context ;;
      ids' <- lift (splice_ids indexes children ids) ;;
      ret (VList ids')
  end.

(** The body of the second loop of [_create_row_dict], for one field. *)
Definition set_field (sync_ : JSONType -> Context -> M AttrDict)
    (bulk_sync_ : JSONType -> Context -> M (list AttrDict))
    (context : Context) (d : AttrDict) (row : AttrDict) (field : JSONField) : M AttrDict :=
  match compute field with
  | Some f => ret (dset (column_name field) (f row context) row)
  | None =>
      if partial context && negb (dmem (fieldname field) d) then ret row
      else
        let v := match dget (fieldname field) d with
                 | Some v => v
                 | None => VNone
                 end in
        if is_None v then ret (dset (column_name field) VNone row)
        else
          v1 <- lift (convert_temporal field v) ;;
          v2 <- match ref_match (type field) with
                | Some (kind, n) =>
                    if String.eqb kind "reference" then
                      resolve_reference sync_ context n v1
                    else if String.eqb kind "list:reference" then
                      resolve_list_reference bulk_sync_ context n v1
                    else ret v1
                | None => ret v1
                end ;;
          ret (dset (column_name field) v2 row)
  end.

(** [JSONType._create_row_dict] *)
Definition _create_row_dict (sync_ : JSONType -> Context -> M AttrDict)
    (bulk_sync_ : JSONType -> Context -> M (list AttrDict))
    (ty : JSONType) (context : Context) : M AttrDict :=
  match data context with
  | None => raise TypeError
  | Some d =>
      row <- for_each (passthrough ty d) (dkeys d) [] ;;
      for_each (set_field sync_ bulk_sync_ context d) (fields ty) row
  end.

(** The loop of [_update_row] over the columns of the stored row: the first
    column the row lacks makes the copy, which then takes a [None] for each
    such column; [row_dict] itself is never written. *)
Definition null_fill (columns : list string) (row_dict : AttrDict) : AttrDict :=
  let new_row_dict :=
    fold_left
      (fun (new_row_dict : option AttrDict) column =>
         if negb (dmem column row_dict) then
           let copy := match new_row_dict with
                       | None => AttrDict_new row_dict
                       | Some nrd => nrd
                       end in
           Some (dset column VNone copy)
         else new_row_dict)
      columns None in
  match new_row_dict with
  | Some nrd => nrd
  | None => row_dict
  end.

(** [JSONType._update_row] *)
Definition _update_row (ty : JSONType) (row_dict : AttrDict) : M bool :=
  table <- get_table (table_name ty) ;;
  id <- lift (getitem row_dict "id") ;;
  db_row <- lift (table_call table id) ;;
  match db_row with
  | Some k =>
      let row_dict' :=
        if remove_missing_fields ty then null_fill (row_columns table) row_dict
        else row_dict in
      update_record (table_name ty) k row_dict' ;;;
      ret true
  | None => ret false
  end.

(** The schema discovery of [_bulk_sync] over the whole sequence. *)
Definition find_extra_types_seq (current_fields : dict JSONField) (sq : list value)
    : outcome (dict (list pytype)) :=
  ofold (fun missing_fields obj =>
           obind (AttrDict_of_value obj)
                 (fun d => Return (_find_extra_types current_fields missing_fields d)))
        sq [].

(** [JSONType._sync] and [JSONType._bulk_sync]; [fuel] bounds the depth of
    the nested syncs. *)
Fixpoint _sync (fuel : nat) (ty : JSONType) (context : Context) {struct fuel} : M AttrDict :=
  match fuel with
  | O => beyond
  | S fuel' =>
      current_fields <- JSONRegistry_fields_by_name ty ;;
      match data context with
      | None => raise TypeError
      | Some d =>
          let missing_fields := _find_extra_types current_fields [] d in
          _redefine_with_missing_fields registry ty missing_fields ;;;
          row_dict <- _create_row_dict (_sync fuel') (_bulk_sync fuel') ty context ;;
          updated <- _update_row ty row_dict ;;
          (if updated then ret tt else insert (table_name ty) row_dict) ;;;
          ret row_dict
      end
  end
with _bulk_sync (fuel : nat) (ty : JSONType) (context : Context) {struct fuel}
    : M (list AttrDict) :=
  match fuel with
  | O => beyond
  | S fuel' =>
      current_fields <- JSONRegistry_fields_by_name ty ;;
      match seq context with
      | None => raise TypeError
      | Some sq =>
          missing_fields <- lift (find_extra_types_seq current_fields sq) ;;
          _redefine_with_missing_fields registry ty missing_fields ;;;
          st <- for_each
                  (fun st io =>
                     d <- lift (AttrDict_of_value (snd io)) ;;
                     let context' := set_item context (Z.of_nat (fst io)) d in
                     row_dict <- _create_row_dict (_sync fuel') (_bulk_sync fuel') ty context' ;;
                     updated <- _update_row ty row_dict ;;
                     ret (if updated then fst st else fst st ++ [row_dict],
                          snd st ++ [row_dict]))
                  (enumerate sq) ([], []) ;;
          match fst st with
          | [] => ret tt
          | bulk_insert_row_dicts => bulk_insert (table_name ty) bulk_insert_row_dicts
          end ;;;
          ret (snd st)
      end
  end.

(** [JSONType.sync]: the recursion is given the nesting depth of the
    document. *)
Definition sync (ty : JSONType) (obj : list (string * value)) (partial : bool) : M AttrDict :=
  let context := Context_new None (name ty) (Some (AttrDict_new obj)) None partial in
  _sync (S (depth (VDict obj))) ty context.

(** [JSONType.bulk_sync] *)
Definition bulk_sync (ty : JSONType) (sq : list value) (partial : bool) : M (list AttrDict) :=
  let context := Context_new None (name ty) None (Some sq) partial in
  _bulk_sync (S (depth (VList sq))) ty context.

End Engine.

(** * Specification-side definitions *)

(** ** The type-inference table

    The table over the set of Python types observed for a field, a kind
    being a Python type here: one type decides the column type; no type,
    several types, or a type without a column type of its own give a string
    column. The rule over the specification's kinds of value is
    [spec_storage_type], further down. *)
Definition storage_type_of_kinds (kinds : list pytype) : string :=
  match kinds with
  | [int_] | [long_] => "integer"
  | [dict_] | [list_] | [tuple_] => "json"
  | [bool_] => "boolean"
  | [float_] => "double"
  | _ => "string"
  end.

(** The kinds observed for field [f]: the types of its values that are not
    [None], over the documents of a call. *)
Definition observe (f : string) (kinds : list pytype) (d : AttrDict) : list pytype :=
  match dget f d with
  | Some v => if is_None v then kinds else set_add (type_of v) kinds
  | None => kinds
  end.

Definition observed_kinds (f : string) (docs : list AttrDict) : list pytype :=
  fold_left (observe f) docs [].

(** The discovery of a call over its documents: [_sync] has one document,
    [_bulk_sync] the documents of its sequence. *)
Definition discover (current_fields : dict JSONField) (docs : list AttrDict)
    : dict (list pytype) :=
  fold_left (_find_extra_types current_fields) docs [].

(** What one document adds to the set recorded for a field. *)
Definition record_kinds (f : string) (d : AttrDict) (old : option (list pytype))
    : option (list pytype) :=
  match dget f d with
  | Some v =>
      if is_None v then old
      else Some (set_add (type_of v) (match old with Some s => s | None => [] end))
  | None => old
  end.

(** The entry of [missing_fields] for a set of observed kinds: none for the
    empty set. *)
Definition recorded (kinds : list pytype) : option (list pytype) :=
  match kinds with
  | [] => None
  | _ :: _ => Some kinds
  end.

(** ** The steps of a sync *)

(** What [JSONRegistry.fields_by_name] returns in state [db]. *)
Definition known_fields (ty : JSONType) (db : DAL) : dict JSONField :=
  fold_left
    (fun fbn extra_field =>
       if dmem (r_fieldname extra_field) fbn then fbn
       else dset (r_fieldname extra_field)
                 (JSONField_new (r_fieldname extra_field) (r_db_type extra_field)) fbn)
    (filter (fun r => String.eqb (r_type r) (name ty)) (json_type_registry db))
    (fields_by_name ty).

(** Discovery and schema extension, the first step of [_sync] and of
    [_bulk_sync]: [discovery] is what the call finds in its documents given
    the fields known so far. *)
Definition extend_schema (registry : JSONRegistry) (ty : JSONType)
    (discovery : dict JSONField -> outcome (dict (list pytype))) : M unit :=
  current_fields <- JSONRegistry_fields_by_name ty ;;
  missing_fields <- lift (discovery current_fields) ;;
  _redefine_with_missing_fields registry ty missing_fields.

(** The last step of [_sync]: update, or insert when no row was found. *)
Definition write_row (ty : JSONType) (row_dict : AttrDict) : M unit :=
  updated <- _update_row ty row_dict ;;
  if updated then ret tt else insert (table_name ty) row_dict.

(** The body of the loop of [_bulk_sync] and the insert that follows it. *)
Definition bulk_item (lib : DateLib) (registry : JSONRegistry)
    (sync_ : JSONType -> Context -> M AttrDict)
    (bulk_sync_ : JSONType -> Context -> M (list AttrDict))
    (ty : JSONType) (context : Context)
    (st : list AttrDict * list AttrDict) (io : nat * value)
    : M (list AttrDict * list AttrDict) :=
  d <- lift (AttrDict_of_value (snd io)) ;;
  let context' := set_item context (Z.of_nat (fst io)) d in
  row_dict <- _create_row_dict lib registry sync_ bulk_sync_ ty context' ;;
  updated <- _update_row ty row_dict ;;
  ret (if updated then fst st else fst st ++ [row_dict], snd st ++ [row_dict]).

Definition flush (ty : JSONType) (bulk_insert_row_dicts : list AttrDict) : M unit :=
  match bulk_insert_row_dicts with
  | [] => ret tt
  | row :: rows => bulk_insert (table_name ty) (row :: rows)
  end.

(** The discovery of [_sync] and the discovery of [_bulk_sync]. *)
Definition discovery_of_doc (d : AttrDict) (current_fields : dict JSONField)
    : outcome (dict (list pytype)) :=
  Return (_find_extra_types current_fields [] d).

Definition discovery_of_seq (sq : list value) (current_fields : dict JSONField)
    : outcome (dict (list pytype)) :=
  find_extra_types_seq current_fields sq.

(** A computation keeps a relation between the state it starts from and the
    state it ends in, whatever its outcome. *)
Definition keeps (R : DAL -> DAL -> Prop) {A : Type} (m : M A) : Prop :=
  forall db, R db (snd (m db)).

(** A discovery finds only fields that are not known, each once. *)
Definition finds_new (discovery : dict JSONField -> outcome (dict (list pytype))) : Prop :=
  forall current_fields missing,
    discovery current_fields = Return missing ->
    NoDup (dkeys missing) /\
    forall f, In f (dkeys missing) -> dmem f current_fields = false.

(** ** Rows as Python objects

    [_update_row] receives a reference to the caller's row. To see what it
    does to that object, rows are placed in a store of dictionaries and
    named by their address. *)
Definition store := list AttrDict.

Definition deref (s : store) (r : nat) : AttrDict := nth r s [].

Definition alloc (d : AttrDict) (s : store) : nat * store :=
  (List.length s, s ++ [d]).

(** [obj[k] = v] on the object at address [r] *)
Fixpoint store_setitem (r : nat) (k : string) (v : value) (s : store) {struct s} : store :=
  match s, r with
  | [], _ => []
  | d :: s', O => dset k v d :: s'
  | d :: s', S r' => d :: store_setitem r' k v s'
  end.

(** The loop of [_update_row] on references: [new_row_dict] starts as
    [None], is bound to a new [AttrDict] copy of the row at the first column
    the row lacks, and every such column is written into that copy. The
    result is the reference [row_dict] is bound to after the loop. *)
Definition null_fill_ref (columns : list string) (row_dict : nat) (s : store)
    : nat * store :=
  let loop :=
    fold_left
      (fun (st : option nat * store) column =>
         let (new_row_dict, s) := st in
         if negb (dmem column (deref s row_dict)) then
           let (r, s1) := match new_row_dict with
                          | None => alloc (AttrDict_new (deref s row_dict)) s
                          | Some r => (r, s)
                          end in
           (Some r, store_setitem r column VNone s1)
         else (new_row_dict, s))
      columns (None, s) in
  match fst loop with
  | Some r => (r, snd loop)
  | None => (row_dict, snd loop)
  end.

(** [JSONType._update_row] on references *)
Definition _update_row_ref (ty : JSONType) (row_dict : nat) (s : store)
    : M (bool * store) :=
  table <- get_table (table_name ty) ;;
  id <- lift (getitem (deref s row_dict) "id") ;;
  db_row <- lift (table_call table id) ;;
  match db_row with
  | Some k =>
      let (row_dict', s') :=
        if remove_missing_fields ty then null_fill_ref (row_columns table) row_dict s
        else (row_dict, s) in
      update_record (table_name ty) k (deref s' row_dict') ;;;
      ret (true, s')
  | None => ret (false, s)
  end.

(** The end of [_sync] on references: the row just built is the object at
    [row_dict]; the reference that is returned is [row_dict] itself. *)
Definition _sync_end_ref (ty : JSONType) (row_dict : nat) (s : store)
    : M (nat * store) :=
  us <- _update_row_ref ty row_dict s ;;
  (if fst us then ret tt else insert (table_name ty) (deref (snd us) row_dict)) ;;;
  ret (row_dict, snd us).

(** ** Dates as the specification words them *)

(** The specification's treatment of a parsed date: an aware value is first
    read in the local zone, then cut to the field's type. *)
Definition normalized_temporal (lib : DateLib) (ty : string) (d : datetime) : value :=
  let d' := match tzinfo d with
            | Some _ => astimezone d (tzlocal lib)
            | None => d
            end in
  if String.eqb ty "date" then date d'
  else if String.eqb ty "time" then time d'
  else VDatetime d'.

(** ** Example types and states *)

(** A date library that parses one ISO string, 2020-01-01 23:30 UTC, on a
    machine whose local zone is UTC+2. *)
Definition example_lib : DateLib :=
  mkDateLib (fun _ _ => None)
            (fun _ s => if String.eqb s "2020-01-01T23:30:00+00:00"
                        then Some (mkDatetime 1577921400 (Some 0))
                        else None)
            7200.

Definition empty_db : DAL := mkDAL [] [] [].

(** [Person(name: string, age: integer)] *)
Definition Person : JSONType :=
  mkJSONType "Person" "Person" true
    [JSONField_new "name" "string"; JSONField_new "age" "integer"].

Definition person_registry : JSONRegistry := mkJSONRegistry [Person].

(** The state after [registry.define_tables(db)]. *)
Definition person_db : DAL :=
  snd (JSONRegistry_redefine_tables person_registry empty_db).

Definition ann : list (string * value) :=
  [("name", VUnicode "Ann"); ("age", VInt 30); ("nickname", VUnicode "A")].

(** [Event(day: date)] *)
Definition Event : JSONType :=
  mkJSONType "Event" "Event" true [JSONField_new "day" "date"].

Definition event_registry : JSONRegistry := mkJSONRegistry [Event].

Definition event_db : DAL :=
  snd (JSONRegistry_redefine_tables event_registry empty_db).

(** Ann with an id, the state after her sync, and the row of a later
    document [{"id": 1, "name": "Bob", "age": 31}] that has no nickname. *)
Definition ann_doc : list (string * value) := ("id", VInt 1) :: ann.

Definition person_db_ann : DAL :=
  snd (sync example_lib person_registry Person ann_doc false person_db).

Definition bob_row : AttrDict :=
  [("id", VInt 1); ("name", VUnicode "Bob"); ("age", VInt 31)].

(** ** Documents without nested documents

    A document is direct for a type when no reference field of the type
    holds a nested document: a [reference] value is an integer (or absent,
    or [None]), the items of a [list:reference] value are integers. Building
    the row of such a document starts no other sync. *)
Definition is_integer (v : value) : bool := type_in (type_of v) [int_; long_].

Definition field_is_direct (d : AttrDict) (field : JSONField) : bool :=
  match ref_match (type field) with
  | Some (kind, _) =>
      match dget (fieldname field) d with
      | None | Some VNone => true
      | Some v =>
          if String.eqb kind "reference" then is_integer v
          else if String.eqb kind "list:reference" then forallb is_integer (as_sequence v)
          else true
      end
  | None => true
  end.

Definition direct (ty : JSONType) (d : AttrDict) : bool :=
  forallb (field_is_direct d) (fields ty).

(** Callbacks for a row construction that starts no sync. *)
Definition no_sync : JSONType -> Context -> M AttrDict := fun _ _ => beyond.

Definition no_bulk_sync : JSONType -> Context -> M (list AttrDict) := fun _ _ => beyond.

(** The row [_create_row_dict] builds in state [db] when it starts no sync. *)
Definition built_row (lib : DateLib) (registry : JSONRegistry) (ty : JSONType)
    (context : Context) (db : DAL) : outcome AttrDict :=
  fst (_create_row_dict lib registry no_sync no_bulk_sync ty context db).

(** The columns of a table in a state, and the catalog's entry for a field. *)
Definition columns_of (db : DAL) (tablename : string) : option (list string) :=
  option_map row_columns (dget tablename (tables db)).

Definition catalog_has (db : DAL) (n f : string) : bool :=
  existsb (fun r => String.eqb (r_type r) n && String.eqb (r_fieldname r) f)
          (json_type_registry db).

(** Two computations on two states come to the same outcome and leave
    their states as they are. *)
Definition agree {A : Type} (m m' : M A) (db db' : DAL) : Prop :=
  exists o, m db = (o, db) /\ m' db' = (o, db').

(** The row [_update_row] hands to [update_record], and the state after. *)
Definition update_payload (ty : JSONType) (t : Table) (row_dict : AttrDict) : AttrDict :=
  if remove_missing_fields ty then null_fill (row_columns t) row_dict else row_dict.

Definition after_update (tablename : string) (t : Table) (k : Z) (fs : AttrDict) (db : DAL) : DAL :=
  mkDAL (dset tablename (updated_table t k fs) (tables db))
        (json_type_registry db)
        (calls db ++ [Cupdate_record tablename k fs]).

(** The partial document [{"id": 1, "name": "Bob"}], its context, and the
    table and record of Ann it meets. *)
Definition bob_partial : list (string * value) :=
  [("id", VInt 1); ("name", VUnicode "Bob")].

Definition bob_partial_context : Context :=
  Context_new None "Person" (Some (AttrDict_new bob_partial)) None true.

Definition ann_record : AttrDict :=
  [("id", VInt 1); ("nickname", VUnicode "A"); ("name", VUnicode "Ann"); ("age", VInt 30)].

Definition person_table_ann : Table :=
  mkTable [("id", "id"); ("name", "string"); ("age", "integer"); ("nickname", "string")]
          [(1, ann_record)].

(** ** The schema extension, step by step *)

(** The catalog's type for field [f] of type name [n]: its first entry. *)
Definition catalog_type (db : DAL) (n f : string) : option string :=
  option_map r_db_type
    (find (fun r => String.eqb (r_type r) n && String.eqb (r_fieldname r) f)
          (json_type_registry db)).

(** The DAL fields [redefine_table] computes for the table of a type. *)
Definition table_fields (registry : JSONRegistry) (ty : JSONType) (db : DAL)
    : outcome (list (string * string)) :=
  ofold (fun fs field =>
           obind (JSONField_field (Some registry) field) (fun f => Return (fs ++ [f])))
        (dvalues (known_fields ty db)) [].

(** The catalog rows [add_fields_to_type] inserts for the missing fields,
    and the state after their insert. *)
Definition catalog_rows (ty : JSONType) (missing_fields : dict (list pytype))
    : list registry_row :=
  map (fun kv => mkRegistryRow (name ty) (fst kv) None (snd kv))
      (infer_db_types missing_fields).

Definition with_catalog (rows : list registry_row) (db : DAL) : DAL :=
  mkDAL (tables db) (json_type_registry db ++ rows)
        (calls db ++ [Cregistry_bulk_insert rows]).

(** The state after the schema extension for Ann's document, and her row. *)
Definition person_db_extended : DAL :=
  snd (extend_schema person_registry Person (discovery_of_doc (AttrDict_new ann_doc))
         person_db).

Definition ann_row : AttrDict :=
  [("id", VInt 1); ("nickname", VUnicode "A"); ("name", VUnicode "Ann"); ("age", VInt 30)].

(** The state after the insert of a row under id [k]. *)
Definition after_insert (tablename : string) (t : Table) (k : Z) (row : AttrDict)
    (db : DAL) : DAL :=
  mkDAL (dset tablename (mkTable (tfields t) (records t ++ [(k, row)])) (tables db))
        (json_type_registry db)
        (calls db ++ [Cinsert tablename row]).

(** A self-referencing type that leaves missing fields as they are, and a
    document whose nested document has the id of its parent. *)
Definition Node : JSONType :=
  mkJSONType "Node" "Node" false [JSONField_new "next" "reference Node"].

Definition node_registry : JSONRegistry := mkJSONRegistry [Node].

Definition node_db : DAL := snd (JSONRegistry_redefine_tables node_registry empty_db).

Definition node_doc : list (string * value) :=
  [("id", VInt 1); ("z", VNone); ("next", VDict [("id", VInt 1); ("z", VInt 5)])].

(** ** A bulk sync, call by call *)

(** The key of a row, whether table [t] stores a record for it, and the
    [update_record] call a bulk sync makes for a stored row. *)
Definition row_key (r : AttrDict) : option Z :=
  match dget "id" r with
  | Some idv => key_of idv
  | None => None
  end.

Definition stored (t : Table) (r : AttrDict) : bool :=
  match row_key r with
  | Some k => match find_record k (records t) with Some _ => true | None => false end
  | None => false
  end.

Definition update_call (ty : JSONType) (t : Table) (r : AttrDict) : dal_call :=
  Cupdate_record (table_name ty)
    (match row_key r with Some k => k | None => 0 end)
    (update_payload ty t r).

(** The state of the loop of [_bulk_sync] once the rows [done] are built,
    from the state [dbe] and table [te] the loop started with: the table has
    its columns and the ids it had, and one [update_record] call was made
    for each stored row, in order. *)
Definition loop_state (ty : JSONType) (te : Table) (dbe : DAL)
    (done : list AttrDict) (db : DAL) : Prop :=
  exists t,
    dget (table_name ty) (tables db) = Some t
    /\ tfields t = tfields te
    /\ (forall k, find_record k (records t) = None <-> find_record k (records te) = None)
    /\ calls db = calls dbe ++ map (update_call ty te) (filter (stored te) done).

(** A second person, not stored yet, and her row. *)
Definition cat_doc : list (string * value) :=
  [("id", VInt 2); ("name", VUnicode "Cat"); ("age", VInt 5)].

Definition cat_row : AttrDict :=
  [("id", VInt 2); ("name", VUnicode "Cat"); ("age", VInt 5)].

(** ** References

    [Foo(bars: list:reference Bar, bar: reference Bar)] and
    [Bar(name: string)], and the state after [registry.define_tables(db)]. *)
Definition Bar : JSONType :=
  mkJSONType "Bar" "Bar" true [JSONField_new "name" "string"].

Definition Foo : JSONType :=
  mkJSONType "Foo" "Foo" true
    [JSONField_new "bars" "list:reference Bar"; JSONField_new "bar" "reference Bar"].

Definition foo_registry : JSONRegistry := mkJSONRegistry [Foo; Bar].

Definition foo_db : DAL := snd (JSONRegistry_redefine_tables foo_registry empty_db).

(** The log of [db'] continues the log of [db]. *)
Definition extends_calls (db db' : DAL) : Prop :=
  exists cs, calls db' = calls db ++ cs.

(** The call that writes a row of a type: the insert of the row, or the
    update of the record of its id. *)
Definition writes_row (ty : JSONType) (row : AttrDict) (c : dal_call) : Prop :=
  c = Cinsert (table_name ty) row
  \/ exists k t, row_key row = Some k
                 /\ c = Cupdate_record (table_name ty) k (update_payload ty t row).

(** The context of the sync of a nested document. *)
Definition child_context (context : Context) (ref_type : JSONType)
    (o : list (string * value)) : Context :=
  Context_new (Some context) (name ref_type) (Some (AttrDict_new o)) None (partial context).

(** A [Foo] document with a nested [Bar] document that has an id, and one
    whose nested document has none. *)
Definition foo_doc : list (string * value) :=
  [("id", VInt 1); ("bar", VDict [("id", VInt 11); ("name", VUnicode "a")])].

Definition foo_doc_new_bar : list (string * value) :=
  [("id", VInt 1); ("bar", VDict [("name", VUnicode "a")])].

Definition foo_context : Context :=
  Context_new None "Foo" (Some (AttrDict_new foo_doc)) None false.

(** ** List references, as the specification words them

    The documents of a [list:reference] value are its items that are no
    integers; [splice_back] puts identifiers back at the places of the
    documents, in order, and keeps the integers where they are (a place
    that gets no identifier holds [None]); [positions] lists the places of
    the documents, counted from [start]. *)
Definition documents (items : list value) : list value :=
  filter (fun x => negb (is_integer x)) items.

Fixpoint splice_back (items ids : list value) : list value :=
  match items with
  | [] => []
  | x :: items' =>
      if is_integer x then x :: splice_back items' ids
      else match ids with
           | i :: ids' => i :: splice_back items' ids'
           | [] => VNone :: splice_back items' []
           end
  end.

Fixpoint positions (start : nat) (items : list value) : list nat :=
  match items with
  | [] => []
  | x :: items' =>
      if is_integer x then positions (S start) items'
      else start :: positions (S start) items'
  end.

(** The context of the bulk sync of the documents of a list. *)
Definition list_context (context : Context) (ref_type : JSONType) (docs : list value)
    : Context :=
  Context_new (Some context) (name ref_type) None (Some docs) (partial context).

(** The list of the specification's example, with ids in its documents and
    without. *)
Definition bars : list value :=
  [VInt 5; VDict [("id", VInt 11); ("name", VUnicode "a")];
   VInt 7; VDict [("id", VInt 12); ("name", VUnicode "b")]].

Definition bars_new : list value :=
  [VInt 5; VDict [("name", VUnicode "a")]; VInt 7; VDict [("name", VUnicode "b")]].

Definition foo_bars_doc : list (string * value) := [("id", VInt 1); ("bars", VList bars)].

Definition foo_bars_context : Context :=
  Context_new None "Foo" (Some (AttrDict_new foo_bars_doc)) None false.

(** ** Runs of calls

    A run is a sequence of [sync] and [bulk_sync] calls on one database; a
    call that raises leaves the state it reached, and the run goes on. *)
Inductive call : Type :=
| Sync (ty : JSONType) (obj : list (string * value)) (partial : bool)
| BulkSync (ty : JSONType) (sq : list value) (partial : bool).

Definition call_type (c : call) : JSONType :=
  match c with
  | Sync ty _ _ | BulkSync ty _ _ => ty
  end.

Definition call_documents (c : call) : list value :=
  match c with
  | Sync _ obj _ => [VDict obj]
  | BulkSync _ sq _ => sq
  end.

Definition call_discovery (c : call) : dict JSONField -> outcome (dict (list pytype)) :=
  match c with
  | Sync _ obj _ => discovery_of_doc (AttrDict_new obj)
  | BulkSync _ sq _ => discovery_of_seq sq
  end.

Definition run_call (lib : DateLib) (registry : JSONRegistry) (db : DAL) (c : call) : DAL :=
  match c with
  | Sync ty obj partial => snd (sync lib registry ty obj partial db)
  | BulkSync ty sq partial => snd (bulk_sync lib registry ty sq partial db)
  end.

Definition run_calls (lib : DateLib) (registry : JSONRegistry) (cs : list call) (db : DAL)
    : DAL :=
  fold_left (run_call lib registry) cs db.

(** The catalog's entries for a field of a type, and its keys. *)
Definition catalog_entries (db : DAL) (n f : string) : list registry_row :=
  filter (fun r => String.eqb (r_type r) n && String.eqb (r_fieldname r) f)
         (json_type_registry db).

Definition catalog_keys (db : DAL) : list (string * string) :=
  map (fun r => (r_type r, r_fieldname r)) (json_type_registry db).

(** The table of a type has a column of that name. *)
Definition has_column (db : DAL) (ty : JSONType) (f : string) : Prop :=
  exists t, dget (table_name ty) (tables db) = Some t /\ In f (row_columns t).

(** Type [ty2] does not define the table of [ty] with other fields: when it
    has the same table, it has the same name and declares no field [f]. *)
Definition own_table (ty : JSONType) (f : string) (ty2 : JSONType) : Prop :=
  table_name ty2 = table_name ty ->
  name ty2 = name ty /\ dmem f (fields_by_name ty2) = false.

(** The catalog is only appended to, and keeps its keys distinct. *)
Definition catalog_grows (db db' : DAL) : Prop :=
  (exists rows, json_type_registry db' = json_type_registry db ++ rows)
  /\ (NoDup (catalog_keys db) -> NoDup (catalog_keys db')).

(** A field that is in the catalog and has its column stays so. *)
Definition column_stays (ty : JSONType) (f : string) (db db' : DAL) : Prop :=
  catalog_has db (name ty) f = true /\ has_column db ty f ->
  catalog_has db' (name ty) f = true /\ has_column db' ty f.

(** The catalog and the columns of every table are the same. *)
Definition schema_same (db db' : DAL) : Prop :=
  json_type_registry db' = json_type_registry db
  /\ forall tn, columns_of db' tn = columns_of db tn.

(** A document whose only new field is null, and a run on [Person] in which
    the field [nickname] is seen three times. *)
Definition null_field_doc : list (string * value) := [("id", VInt 1); ("foo", VNone)].

Definition person_run : list call :=
  [Sync Person ann_doc false;
   Sync Person ann_doc false;
   BulkSync Person [VDict cat_doc; VDict (("id", VInt 3) :: ann)] false].

(** ** Declaring types

    [JSONType.__init__] with its keyword arguments, [JSONRegistry.define_type]
    and [JSONType.__getattr__]. A declaration returns the type, or raises
    for keyword arguments the type does not know ([Exception], with the
    set of their names); a [remove_missing_fields] that is no [bool] and a
    [table_name] that is no string are outside the model. *)
Inductive declaration (A : Type) : Type :=
| Declared (a : A)
| ExtraKwargs (ks : list string)
| NotModelled.

Arguments Declared {A} a.
Arguments ExtraKwargs {A} ks.
Arguments NotModelled {A}.

Definition default_attributes : dict value :=
  [("remove_missing_fields", VBool true); ("table_name", VNone)].

(** [kwargs.get(attr, value)] *)
Definition kwargs_get (kwargs : dict value) (attr : string) (default : value) : value :=
  match dget attr kwargs with
  | Some v => v
  | None => default
  end.

(** [JSONType.__init__] *)
Definition JSONType_init (name : string) (fields : list JSONField) (kwargs : dict value)
    : declaration JSONType :=
  let attrs := map (fun av => (fst av, kwargs_get kwargs (fst av) (snd av)))
                   default_attributes in
  match filter (fun k => negb (str_in k (dkeys default_attributes))) (dkeys kwargs) with
  | k :: ks => ExtraKwargs (k :: ks)
  | [] =>
      match dget "remove_missing_fields" attrs, dget "table_name" attrs with
      | Some (VBool rmf), Some VNone => Declared (mkJSONType name name rmf fields)
      | Some (VBool rmf), Some (VStr tn) | Some (VBool rmf), Some (VUnicode tn) =>
          Declared (mkJSONType name tn rmf fields)
      | _, _ => NotModelled
      end
  end.

(** [JSONRegistry.define_type]: the new type and the registry with the type
    appended; a declaration that raises leaves the registry as it is. *)
Definition define_type (registry : JSONRegistry) (name : string)
    (fields : list JSONField) (kwargs : dict value)
    : declaration (JSONType * JSONRegistry) :=
  match JSONType_init name fields kwargs with
  | Declared ty => Declared (ty, mkJSONRegistry (types registry ++ [ty]))
  | ExtraKwargs ks => ExtraKwargs ks
  | NotModelled => NotModelled
  end.

(** [JSONType.__getattr__]: the declared field of that name. *)
Definition JSONType_getattr (ty : JSONType) (n : string) : outcome JSONField :=
  match dget n (fields_by_name ty) with
  | Some field => Return field
  | None => Raise (AttributeError n)
  end.

(** A word of the regular expression: one or more letters, digits or
    underscores. *)
Fixpoint is_word (s : string) : bool :=
  match s with
  | EmptyString => false
  | String c EmptyString => is_word_char c
  | String c s' => is_word_char c && is_word s'
  end.

(** No record of [db] is lost in [db']: an id a table stores is still
    stored. *)
Definition records_stay (db db' : DAL) : Prop :=
  forall tn t k,
    dget tn (tables db) = Some t -> find_record k (records t) <> None ->
    exists t', dget tn (tables db') = Some t' /\ find_record k (records t') <> None.

(** An event whose day does not parse. *)
Definition event_doc_bad_day : list (string * value) :=
  [("id", VInt 1); ("day", VUnicode "someday")].

(** The end of the string, for [$]: nothing, or one newline. *)
Definition ends (s : string) : bool :=
  match s with
  | EmptyString => true
  | String c EmptyString => Ascii.eqb c "010"%char
  | _ => false
  end.

(** The type [JSONField.field] gives the DAL for a field: a reference names
    the table of the type it refers to. *)
Definition dal_type (registry : JSONRegistry) (field : JSONField) : string :=
  match ref_match (type field) with
  | Some (kind, n) =>
      match JSONRegistry_getitem registry n with
      | Return (ItemType ref_type) => (kind ++ " " ++ table_name ref_type)%string
      | _ => type field
      end
  | None => type field
  end.

Definition dal_fields (registry : JSONRegistry) (ty : JSONType) (db : DAL)
    : list (string * string) :=
  map (fun field => (column_name field, dal_type registry field))
      (dvalues (known_fields ty db)).

(** Every reference among the known fields of the types of the registry
    names a type of the registry: [registry[name]] is a type. *)
Definition references_resolve (registry : JSONRegistry) (db : DAL) : Prop :=
  forall ty field kind n,
    In ty (types registry) -> In field (dvalues (known_fields ty db)) ->
    ref_match (type field) = Some (kind, n) ->
    exists ref_type, JSONRegistry_getitem registry n = Return (ItemType ref_type).

(** ** The type-inference rule in the specification's own kinds

    The specification names the kinds of value "integer, floating-point,
    boolean, mapping/sequence, string", and gives its rule over the set of
    kinds observed. *)
Inductive kind : Type :=
| KInteger | KFloating | KBoolean | KStructured | KString | KOther.

Definition kind_eqb (a b : kind) : bool :=
  match a, b with
  | KInteger, KInteger | KFloating, KFloating | KBoolean, KBoolean
  | KStructured, KStructured | KString, KString | KOther, KOther => true
  | _, _ => false
  end.

Definition kind_of (t : pytype) : kind :=
  match t with
  | int_ | long_ => KInteger
  | float_ => KFloating
  | bool_ => KBoolean
  | dict_ | list_ | tuple_ => KStructured
  | str_ | unicode_ => KString
  | _ => KOther
  end.

Definition kinds_of (types : list pytype) : list kind :=
  fold_left (fun ks t => if existsb (kind_eqb (kind_of t)) ks then ks else ks ++ [kind_of t])
            types [].

Definition spec_storage_type (kinds : list kind) : string :=
  match kinds with
  | [KInteger] => "integer"
  | [KStructured] => "json"
  | [KBoolean] => "boolean"
  | [KFloating] => "double"
  | _ => "string"
  end.

(** The rule as the code has it, over the Python types observed: one type
    gives the column of its kind, several types give a string column. *)
Definition column_type_of_types (types : list pytype) : string :=
  match types with
  | [t] => spec_storage_type [kind_of t]
  | _ => "string"
  end.

(** The column of a field in the table of a type. *)
Definition column_type (db : DAL) (ty : JSONType) (f : string) : option string :=
  match dget (table_name ty) (tables db) with
  | Some t => dget f (tfields t)
  | None => None
  end.

(** Two batches with a new field of one kind and two Python types: an
    [int] and a [long], a [dict] and a [list]. *)
Definition int_long_docs : list (list (string * value)) :=
  [[("id", VInt 1); ("n", VInt 1)]; [("id", VInt 2); ("n", VLong (2 ^ 70))]].

Definition dict_list_docs : list (list (string * value)) :=
  [[("id", VInt 1); ("n", VDict [])]; [("id", VInt 2); ("n", VList [])]].

(** The table of a type has a column of that name and type. *)
Definition has_column_of_type (db : DAL) (ty : JSONType) (f t : string) : Prop :=
  exists t1, dget (table_name ty) (tables db) = Some t1 /\ In (f, t) (tfields t1).

(** A [Foo] document whose nested [Bar] document has a null id. *)
Definition foo_doc_null_bar : list (string * value) :=
  [("id", VInt 1); ("bar", VDict [("id", VNone); ("name", VUnicode "a")])].

(** The list of the specification's example with null ids in its documents,
    and a [Foo] document that holds it. *)
Definition bars_null : list value :=
  [VInt 5; VDict [("id", VNone); ("name", VUnicode "a")];
   VInt 7; VDict [("id", VNone); ("name", VUnicode "b")]].

Definition foo_bars_null_doc : list (string * value) :=
  [("id", VInt 1); ("bars", VList bars_null)].

(** * Properties *)

(** ** Dictionaries *)

Section DictFacts.
Variable V : Type.
Implicit Types (d : dict V) (k : string) (v : V).

Lemma dget_dset_same k v d : dget k (dset k v d) = Some v.
Proof.
  induction d as [|[k' v'] d IH]; simpl.
  - now rewrite String.eqb_refl.
  - destruct (String.eqb k k') eqn:E; simpl.
    + now rewrite String.eqb_refl.
    + now rewrite E.
Qed.

Lemma dget_dset_other k k' v d : k' <> k -> dget k' (dset k v d) = dget k' d.
Proof.
  intros Hne. induction d as [|[k0 v0] d IH]; simpl.
  - destruct (String.eqb k' k) eqn:E; [apply String.eqb_eq in E; contradiction|reflexivity].
  - destruct (String.eqb k k0) eqn:E; simpl.
    + apply String.eqb_eq in E; subst k0.
      destruct (String.eqb k' k) eqn:E'; [apply String.eqb_eq in E'; contradiction|reflexivity].
    + destruct (String.eqb k' k0); [reflexivity|exact IH].
Qed.

Lemma dget_dset k k' v d :
  dget k' (dset k v d) = if String.eqb k' k then Some v else dget k' d.
Proof.
  destruct (String.eqb k' k) eqn:E.
  - apply String.eqb_eq in E; subst; apply dget_dset_same.
  - apply String.eqb_neq in E; now apply dget_dset_other.
Qed.

Lemma dmem_dset k k' v d : dmem k' (dset k v d) = String.eqb k' k || dmem k' d.
Proof. unfold dmem. rewrite dget_dset. now destruct (String.eqb k' k). Qed.

Lemma dget_In k v d : dget k d = Some v -> In (k, v) d.
Proof.
  induction d as [|[k' v'] d IH]; simpl; [discriminate|].
  destruct (String.eqb k k') eqn:E.
  - apply String.eqb_eq in E. intros [= ->]. subst. now left.
  - intros H. right. now apply IH.
Qed.

Lemma dmem_In k d : dmem k d = true <-> In k (dkeys d).
Proof.
  unfold dmem, dkeys. induction d as [|[k' v'] d IH]; simpl.
  - split; [discriminate|tauto].
  - destruct (String.eqb k k') eqn:E.
    + apply String.eqb_eq in E; subst. split; auto.
    + apply String.eqb_neq in E. rewrite IH. split; [auto|intros [H|H]; congruence].
Qed.

Lemma dget_None_notin k d : dget k d = None <-> ~ In k (dkeys d).
Proof.
  rewrite <- dmem_In. unfold dmem. destruct (dget k d); split; intros; congruence.
Qed.

Lemma dkeys_dset_mem k v d : dmem k d = true -> dkeys (dset k v d) = dkeys d.
Proof.
  unfold dmem, dkeys. induction d as [|[k' v'] d IH]; simpl; [discriminate|].
  destruct (String.eqb k k') eqn:E; simpl.
  - apply String.eqb_eq in E; now subst.
  - intros H. now rewrite IH.
Qed.

Lemma dkeys_dset_new k v d : dmem k d = false -> dkeys (dset k v d) = dkeys d ++ [k].
Proof.
  unfold dmem, dkeys. induction d as [|[k' v'] d IH]; simpl; [reflexivity|].
  destruct (String.eqb k k') eqn:E; simpl; [discriminate|].
  intros H. now rewrite IH.
Qed.

Lemma In_dkeys_dset k k' v d : In k' (dkeys (dset k v d)) <-> k' = k \/ In k' (dkeys d).
Proof.
  rewrite <- !dmem_In, dmem_dset, orb_true_iff, String.eqb_eq. tauto.
Qed.

Lemma NoDup_dkeys_dset k v d : NoDup (dkeys d) -> NoDup (dkeys (dset k v d)).
Proof.
  intros H. destruct (dmem k d) eqn:E.
  - now rewrite dkeys_dset_mem.
  - rewrite dkeys_dset_new by exact E.
    apply NoDup_app; [exact H|repeat constructor; simpl; tauto|].
    intros x Hx [<-|[]]. apply dmem_In in Hx. congruence.
Qed.

(** A dictionary is its own copy. *)
Lemma dict_of_id_aux (m acc : dict V) :
  NoDup (dkeys (acc ++ m)) ->
  fold_left (fun d kv => dset (fst kv) (snd kv) d) m acc = acc ++ m.
Proof.
  revert acc. induction m as [|[k v] m IH]; intros acc H; simpl.
  - now rewrite app_nil_r.
  - assert (E : dset k v acc = acc ++ [(k, v)]).
    { unfold dkeys in H. rewrite map_app in H. simpl in H.
      apply NoDup_remove_2 in H.
      assert (Hk : ~ In k (dkeys acc)) by (intros Hin; apply H, in_or_app; now left).
      clear -Hk. induction acc as [|[k' v'] acc IH]; simpl; [reflexivity|].
      destruct (String.eqb k k') eqn:E.
      - apply String.eqb_eq in E; subst. exfalso. apply Hk. now left.
      - rewrite IH; [reflexivity|]. intros Hin. apply Hk. now right. }
    rewrite E, IH; rewrite <- app_assoc; [reflexivity|exact H].
Qed.

Lemma dict_of_id (m : dict V) : NoDup (dkeys m) -> dict_of m = m.
Proof. intros H. unfold dict_of. now rewrite dict_of_id_aux. Qed.

End DictFacts.

(** Writing the items of a dictionary into another, each value through [g]. *)
Lemma dget_fold_dset (V W : Type) (g : V -> W) k (m : dict V) (acc : dict W) :
  NoDup (dkeys m) ->
  dget k (fold_left (fun acc kv => dset (fst kv) (g (snd kv)) acc) m acc) =
  match dget k m with
  | Some x => Some (g x)
  | None => dget k acc
  end.
Proof.
  revert acc. induction m as [|[k0 x] m IH]; intros acc Hnd; simpl; [reflexivity|].
  inversion Hnd as [|? ? Hnotin Hnd']; subst. rewrite IH by exact Hnd'.
  destruct (String.eqb k k0) eqn:E.
  - apply String.eqb_eq in E; subst k0.
    apply dget_None_notin in Hnotin. rewrite Hnotin. apply dget_dset_same.
  - destruct (dget k m); [reflexivity|].
    apply dget_dset_other. now apply String.eqb_neq.
Qed.

Lemma NoDup_fold_dset (V W : Type) (g : V -> W) (m : dict V) (acc : dict W) :
  NoDup (dkeys acc) ->
  NoDup (dkeys (fold_left (fun acc kv => dset (fst kv) (g (snd kv)) acc) m acc)).
Proof.
  revert acc. induction m as [|[k0 x] m IH]; intros acc H; simpl; [exact H|].
  apply IH. now apply NoDup_dkeys_dset.
Qed.

Lemma NoDup_dict_of (V : Type) (items : list (string * V)) : NoDup (dkeys (dict_of items)).
Proof.
  unfold dict_of.
  apply (@NoDup_fold_dset V V (fun x => x) items []). constructor.
Qed.

Lemma str_in_In k l : str_in k l = true <-> In k l.
Proof.
  unfold str_in. rewrite existsb_exists. split.
  - intros [x [Hx E]]. apply String.eqb_eq in E. now subst.
  - intros H. exists k. split; [exact H|apply String.eqb_refl].
Qed.

Lemma str_in_dkeys (V : Type) k (d : dict V) : str_in k (dkeys d) = dmem k d.
Proof.
  destruct (dmem k d) eqn:E.
  - now apply str_in_In, dmem_In.
  - destruct (str_in k (dkeys d)) eqn:E'; [|reflexivity].
    apply str_in_In, dmem_In in E'. congruence.
Qed.

(** ** Schema discovery and type inference *)

Lemma pytype_eqb_refl t : pytype_eqb t t = true.
Proof. unfold pytype_eqb. destruct (pytype_eq_dec t t); congruence. Qed.

Lemma type_in_In t s : type_in t s = true <-> In t s.
Proof.
  unfold type_in. rewrite existsb_exists. split.
  - intros [x [Hx E]]. unfold pytype_eqb in E.
    destruct (pytype_eq_dec t x); [now subst|discriminate].
  - intros H. exists t. split; [exact H|apply pytype_eqb_refl].
Qed.

Lemma set_add_In t s : In t (set_add t s).
Proof.
  unfold set_add. destruct (existsb (pytype_eqb t) s) eqn:E.
  - now apply type_in_In.
  - apply in_or_app. right. now left.
Qed.

Lemma set_add_idem t s : set_add t (set_add t s) = set_add t s.
Proof.
  unfold set_add at 1.
  assert (H : existsb (pytype_eqb t) (set_add t s) = true)
    by apply type_in_In, set_add_In.
  now rewrite H.
Qed.

Lemma set_add_not_nil t s : set_add t s <> [].
Proof. intros H. pose proof (set_add_In t s) as Hin. now rewrite H in Hin. Qed.

(** The code's chain of tests computes the table. *)
Lemma infer_db_type_table kinds : infer_db_type kinds = storage_type_of_kinds kinds.
Proof.
  destruct kinds as [|t [|t' rest]]; [reflexivity| |]; destruct t; reflexivity.
Qed.

Lemma record_kinds_idem f d old :
  record_kinds f d (record_kinds f d old) = record_kinds f d old.
Proof.
  unfold record_kinds. destruct (dget f d) as [v|]; [|reflexivity].
  destruct (is_None v); [reflexivity|]. now rewrite set_add_idem.
Qed.

Lemma find_extra_types_keys (current_fields : dict JSONField) (d : AttrDict) f ks
    (missing : dict (list pytype)) :
  dmem f current_fields = false -> f <> "id" ->
  dget f (fold_left
            (fun missing_fields fieldname =>
               if dmem fieldname current_fields then missing_fields
               else if String.eqb fieldname "id" then missing_fields
               else
                 match dget fieldname d with
                 | None => missing_fields
                 | Some value =>
                     if is_None value then missing_fields
                     else
                       let types := match dget fieldname missing_fields with
                                    | Some types => types
                                    | None => []
                                    end in
                       dset fieldname (set_add (type_of value) types) missing_fields
                 end)
            ks missing) =
  if str_in f ks then record_kinds f d (dget f missing) else dget f missing.
Proof.
  intros Hcf Hid. revert missing.
  induction ks as [|k ks IH]; intros missing; [reflexivity|].
  cbn [fold_left]. rewrite IH. clear IH.
  unfold str_in. cbn [existsb]. fold (str_in f ks).
  destruct (String.eqb f k) eqn:E.
  - apply String.eqb_eq in E; subst k. rewrite Hcf.
    apply String.eqb_neq in Hid. rewrite Hid. cbn [orb].
    assert (Hstep : dget f
              match dget f d with
              | Some value =>
                  if is_None value then missing
                  else dset f (set_add (type_of value)
                                 match dget f missing with
                                 | Some types => types
                                 | None => []
                                 end) missing
              | None => missing
              end = record_kinds f d (dget f missing)).
    { unfold record_kinds. destruct (dget f d) as [v|]; [|reflexivity].
      destruct (is_None v); [reflexivity|]. apply dget_dset_same. }
    rewrite Hstep. destruct (str_in f ks); [apply record_kinds_idem|reflexivity].
  - cbn [orb]. apply String.eqb_neq in E.
    assert (Hstep : forall m',
              m' = (if dmem k current_fields then missing
                    else if String.eqb k "id" then missing
                    else match dget k d with
                         | Some value =>
                             if is_None value then missing
                             else dset k (set_add (type_of value)
                                            match dget k missing with
                                            | Some types => types
                                            | None => []
                                            end) missing
                         | None => missing
                         end) ->
              dget f m' = dget f missing).
    { intros m' ->. destruct (dmem k current_fields); [reflexivity|].
      destruct (String.eqb k "id"); [reflexivity|].
      destruct (dget k d) as [v|]; [|reflexivity].
      destruct (is_None v); [reflexivity|]. now apply dget_dset_other. }
    now rewrite (Hstep _ eq_refl).
Qed.

Lemma find_extra_types_get (current_fields : dict JSONField) missing d f :
  dmem f current_fields = false -> f <> "id" ->
  dget f (_find_extra_types current_fields missing d) = record_kinds f d (dget f missing).
Proof.
  intros Hcf Hid. unfold _find_extra_types.
  rewrite find_extra_types_keys by assumption.
  rewrite str_in_dkeys. unfold dmem, record_kinds.
  now destruct (dget f d).
Qed.

Lemma find_extra_types_skips (current_fields : dict JSONField) missing d f :
  dmem f current_fields = true \/ f = "id" ->
  dget f (_find_extra_types current_fields missing d) = dget f missing.
Proof.
  intros Hskip. unfold _find_extra_types. generalize (dkeys d) as ks. intros ks.
  revert missing. induction ks as [|k ks IH]; intros missing; [reflexivity|].
  cbn [fold_left]. rewrite IH.
  destruct (dmem k current_fields) eqn:Ek; [reflexivity|].
  destruct (String.eqb k "id") eqn:Eid; [reflexivity|].
  destruct (dget k d) as [v|]; [|reflexivity].
  destruct (is_None v); [reflexivity|].
  apply dget_dset_other. intros ->.
  destruct Hskip as [H|H]; [congruence|].
  subst. now rewrite String.eqb_refl in Eid.
Qed.

Lemma NoDup_find_extra_types (current_fields : dict JSONField) missing d :
  NoDup (dkeys missing) -> NoDup (dkeys (_find_extra_types current_fields missing d)).
Proof.
  unfold _find_extra_types. generalize (dkeys d) as ks. intros ks. revert missing.
  induction ks as [|k ks IH]; intros missing H; [exact H|].
  cbn [fold_left]. apply IH.
  destruct (dmem k current_fields); [exact H|].
  destruct (String.eqb k "id"); [exact H|].
  destruct (dget k d) as [v|]; [|exact H].
  destruct (is_None v); [exact H|]. now apply NoDup_dkeys_dset.
Qed.

Lemma NoDup_fold_find_extra_types (current_fields : dict JSONField) docs missing :
  NoDup (dkeys missing) ->
  NoDup (dkeys (fold_left (_find_extra_types current_fields) docs missing)).
Proof.
  revert missing. induction docs as [|d docs IH]; intros missing H; [exact H|].
  cbn [fold_left]. now apply IH, NoDup_find_extra_types.
Qed.

Lemma recorded_set_add t kinds : recorded (set_add t kinds) = Some (set_add t kinds).
Proof.
  destruct (set_add t kinds) eqn:E; [now apply set_add_not_nil in E|reflexivity].
Qed.

(** The set recorded for a new field is the set of its observed kinds. *)
Lemma discover_get (current_fields : dict JSONField) docs f :
  dmem f current_fields = false -> f <> "id" ->
  dget f (discover current_fields docs) = recorded (observed_kinds f docs).
Proof.
  intros Hcf Hid. unfold discover, observed_kinds.
  assert (G : forall missing kinds,
             dget f missing = recorded kinds ->
             dget f (fold_left (_find_extra_types current_fields) docs missing) =
             recorded (fold_left (observe f) docs kinds)).
  { induction docs as [|d docs IH]; intros missing kinds H; [exact H|].
    cbn [fold_left]. apply IH.
    rewrite find_extra_types_get by assumption.
    unfold record_kinds, observe. rewrite H.
    destruct (dget f d) as [v|]; [|reflexivity].
    destruct (is_None v); [reflexivity|].
    rewrite recorded_set_add. now destruct kinds. }
  now apply (G [] []).
Qed.

(** For a field that is not known yet (and is not [id]), the column type
    entered for it is the table of the code applied to the set of Python
    types observed for it over the documents of the call. A field with no
    value other than [None] gets no entry. *)
Lemma inferred_storage_type :
  forall (current_fields : dict JSONField) (docs : list AttrDict) (f : string),
    dmem f current_fields = false ->
    f <> "id" ->
    dget f (infer_db_types (discover current_fields docs)) =
    match observed_kinds f docs with
    | [] => None
    | kinds => Some (storage_type_of_kinds kinds)
    end.
Proof.
  intros current_fields docs f Hcf Hid. unfold infer_db_types.
  rewrite (dget_fold_dset infer_db_type).
  - rewrite (discover_get current_fields docs Hcf Hid). unfold recorded.
    destruct (observed_kinds f docs) as [|t ks]; [reflexivity|].
    now rewrite infer_db_type_table.
  - apply NoDup_fold_find_extra_types. constructor.
Qed.

(** ** The monad *)

Lemma bind_run (A B : Type) (m : M A) (k : A -> M B) db :
  bind m k db =
  match fst (m db) with
  | Return a => k a (snd (m db))
  | Raise e => (Raise e, snd (m db))
  | Beyond => (Beyond, snd (m db))
  end.
Proof. unfold bind. destruct (m db) as [[a|e|] db']; reflexivity. Qed.

Lemma bind_Return (A B : Type) (m : M A) (k : A -> M B) db a db' :
  m db = (Return a, db') -> bind m k db = k a db'.
Proof. intros H. unfold bind. now rewrite H. Qed.

Lemma bind_Raise (A B : Type) (m : M A) (k : A -> M B) db e db' :
  m db = (Raise e, db') -> bind m k db = (Raise e, db').
Proof. intros H. unfold bind. now rewrite H. Qed.

Lemma bind_Beyond (A B : Type) (m : M A) (k : A -> M B) db db' :
  m db = (Beyond, db') -> bind m k db = (Beyond, db').
Proof. intros H. unfold bind. now rewrite H. Qed.

Lemma bind_assoc (A B C : Type) (m : M A) (k : A -> M B) (h : B -> M C) db :
  bind (bind m k) h db = bind m (fun a => bind (k a) h) db.
Proof. unfold bind. destruct (m db) as [[a|e|] db']; reflexivity. Qed.

(** A returning [bind] returns in both halves. *)
Lemma bind_inv (A B : Type) (m : M A) (k : A -> M B) db b db' :
  bind m k db = (Return b, db') ->
  exists a db1, m db = (Return a, db1) /\ k a db1 = (Return b, db').
Proof.
  unfold bind. destruct (m db) as [[a|e|] db1]; [|discriminate|discriminate].
  intros H. now exists a, db1.
Qed.

Lemma lift_inv (A : Type) (o : outcome A) db a db' :
  lift o db = (Return a, db') -> o = Return a /\ db' = db.
Proof. unfold lift. intros [= -> ->]. auto. Qed.

Lemma bind_lift_Return (A B : Type) (a : A) (k : A -> M B) db :
  bind (lift (Return a)) k db = k a db.
Proof. reflexivity. Qed.

Lemma bind_ext (A B : Type) (m : M A) (k k' : A -> M B) db :
  (forall a db', k a db' = k' a db') -> bind m k db = bind m k' db.
Proof.
  intros H. unfold bind. destruct (m db) as [[a|e|] db']; [apply H|reflexivity|reflexivity].
Qed.

Lemma for_each_app (A B : Type) (body : B -> A -> M B) l1 l2 acc db :
  for_each body (l1 ++ l2) acc db =
  bind (for_each body l1 acc) (fun acc' => for_each body l2 acc') db.
Proof.
  revert acc db. induction l1 as [|x l1 IH]; intros acc db; [reflexivity|].
  cbn [app for_each]. rewrite bind_assoc. apply bind_ext. intros a db'. apply IH.
Qed.

(** ** [_sync] and [_bulk_sync] as the sequence of their steps *)

Lemma fields_by_name_run ty db :
  JSONRegistry_fields_by_name ty db = (Return (known_fields ty db), db).
Proof. reflexivity. Qed.

Lemma sync_S lib registry fuel ty context :
  _sync lib registry (S fuel) ty context =
  (current_fields <- JSONRegistry_fields_by_name ty ;;
   match data context with
   | None => raise TypeError
   | Some d =>
       let missing_fields := _find_extra_types current_fields [] d in
       _redefine_with_missing_fields registry ty missing_fields ;;;
       row_dict <- _create_row_dict lib registry (_sync lib registry fuel)
                     (_bulk_sync lib registry fuel) ty context ;;
       updated <- _update_row ty row_dict ;;
       (if updated then ret tt else insert (table_name ty) row_dict) ;;;
       ret row_dict
   end).
Proof. reflexivity. Qed.

Lemma bulk_sync_S lib registry fuel ty context :
  _bulk_sync lib registry (S fuel) ty context =
  (current_fields <- JSONRegistry_fields_by_name ty ;;
   match seq context with
   | None => raise TypeError
   | Some sq =>
       missing_fields <- lift (find_extra_types_seq current_fields sq) ;;
       _redefine_with_missing_fields registry ty missing_fields ;;;
       st <- for_each (bulk_item lib registry (_sync lib registry fuel)
                         (_bulk_sync lib registry fuel) ty context)
               (enumerate sq) ([], []) ;;
       flush ty (fst st) ;;;
       ret (snd st)
   end).
Proof. reflexivity. Qed.

Lemma sync_unfold lib registry fuel ty context d db :
  data context = Some d ->
  _sync lib registry (S fuel) ty context db =
  (extend_schema registry ty (discovery_of_doc d) ;;;
   row_dict <- _create_row_dict lib registry (_sync lib registry fuel)
                 (_bulk_sync lib registry fuel) ty context ;;
   write_row ty row_dict ;;;
   ret row_dict) db.
Proof.
  intros Hd. rewrite sync_S. unfold extend_schema, discovery_of_doc.
  rewrite !bind_assoc. apply bind_ext. intros current_fields db1. rewrite Hd.
  rewrite !bind_assoc, bind_lift_Return.
  apply bind_ext. intros _ db2. apply bind_ext. intros row_dict db3.
  unfold write_row. now rewrite bind_assoc.
Qed.

Lemma sync_no_data lib registry fuel ty context db :
  data context = None ->
  _sync lib registry (S fuel) ty context db = (Raise TypeError, db).
Proof.
  intros Hd. rewrite sync_S, bind_run, fields_by_name_run. cbn [fst snd].
  now rewrite Hd.
Qed.

Lemma bulk_sync_unfold lib registry fuel ty context sq db :
  seq context = Some sq ->
  _bulk_sync lib registry (S fuel) ty context db =
  (extend_schema registry ty (discovery_of_seq sq) ;;;
   st <- for_each (bulk_item lib registry (_sync lib registry fuel)
                     (_bulk_sync lib registry fuel) ty context)
           (enumerate sq) ([], []) ;;
   flush ty (fst st) ;;;
   ret (snd st)) db.
Proof.
  intros Hs. rewrite bulk_sync_S. unfold extend_schema, discovery_of_seq.
  rewrite !bind_assoc. apply bind_ext. intros current_fields db1. rewrite Hs.
  rewrite bind_assoc. reflexivity.
Qed.

Lemma bulk_sync_no_seq lib registry fuel ty context db :
  seq context = None ->
  _bulk_sync lib registry (S fuel) ty context db = (Raise TypeError, db).
Proof.
  intros Hs. rewrite bulk_sync_S, bind_run, fields_by_name_run. cbn [fst snd].
  now rewrite Hs.
Qed.

Lemma find_extra_types_new (current_fields : dict JSONField) missing d f :
  (forall g, In g (dkeys missing) -> dmem g current_fields = false) ->
  In f (dkeys (_find_extra_types current_fields missing d)) ->
  dmem f current_fields = false.
Proof.
  intros Hm Hin. destruct (dmem f current_fields) eqn:E; [|reflexivity].
  apply dmem_In in Hin. unfold dmem in Hin.
  rewrite find_extra_types_skips in Hin by now left.
  rewrite <- E. apply Hm. apply dmem_In. exact Hin.
Qed.

Lemma finds_new_doc d : finds_new (discovery_of_doc d).
Proof.
  intros current_fields missing [= <-]. split.
  - apply NoDup_find_extra_types. constructor.
  - intros f. apply find_extra_types_new. intros g [].
Qed.

Lemma finds_new_seq sq : finds_new (discovery_of_seq sq).
Proof.
  intros current_fields missing. unfold discovery_of_seq, find_extra_types_seq.
  assert (G : forall acc,
             NoDup (dkeys acc) ->
             (forall g, In g (dkeys acc) -> dmem g current_fields = false) ->
             ofold (fun missing_fields obj =>
                      obind (AttrDict_of_value obj)
                        (fun d => Return (_find_extra_types current_fields missing_fields d)))
                   sq acc = Return missing ->
             NoDup (dkeys missing) /\
             (forall f, In f (dkeys missing) -> dmem f current_fields = false)).
  { induction sq as [|obj sq IH]; intros acc Hnd Hnew; cbn [ofold].
    - intros [= <-]. auto.
    - destruct (AttrDict_of_value obj) as [d|e|]; cbn [obind]; [|discriminate|discriminate].
      apply IH.
      + now apply NoDup_find_extra_types.
      + intros g. now apply find_extra_types_new. }
  apply G; [constructor|intros g []].
Qed.

(** ** The lookup of a type in the registry *)

(** A lookup that gives a type gives the type [__getattr__] finds. *)
Lemma getitem_type registry n item attr ty :
  JSONRegistry_getitem registry n = Return item ->
  type_attribute item attr = Return ty ->
  JSONRegistry_getattr registry n = Return ty.
Proof.
  unfold JSONRegistry_getitem. destruct (str_in n registry_attributes).
  { intros [= <-]. discriminate. }
  destruct (String.prefix "__" n); [discriminate|].
  destruct (JSONRegistry_getattr registry n) as [ty0|e|]; cbn [obind]; try discriminate.
  intros [= <-]. cbn. now intros [= <-].
Qed.

Lemma getitem_of_type registry n ty :
  str_in n registry_attributes = false -> String.prefix "__" n = false ->
  JSONRegistry_getattr registry n = Return ty ->
  JSONRegistry_getitem registry n = Return (ItemType ty).
Proof. intros H1 H2 H3. unfold JSONRegistry_getitem. now rewrite H1, H2, H3. Qed.

(** ** Relations every step of the engine keeps *)

Section Keeps.
Variable R : DAL -> DAL -> Prop.
Hypothesis R_refl : forall db, R db db.
Hypothesis R_trans : forall a b c, R a b -> R b c -> R a c.

Lemma keeps_ret (A : Type) (a : A) : keeps R (ret a).
Proof. intros db. apply R_refl. Qed.

Lemma keeps_raise (A : Type) e : keeps R (@raise A e).
Proof. intros db. apply R_refl. Qed.

Lemma keeps_beyond (A : Type) : keeps R (@beyond A).
Proof. intros db. apply R_refl. Qed.

Lemma keeps_lift (A : Type) (o : outcome A) : keeps R (lift o).
Proof. intros db. apply R_refl. Qed.

Lemma keeps_get_table tablename : keeps R (get_table tablename).
Proof.
  intros db. unfold get_table. destruct (dget tablename (tables db)); apply R_refl.
Qed.

Lemma keeps_registry_select n : keeps R (registry_select n).
Proof. intros db. apply R_refl. Qed.

Lemma keeps_bind (A B : Type) (m : M A) (k : A -> M B) :
  keeps R m -> (forall a, keeps R (k a)) -> keeps R (bind m k).
Proof.
  intros Hm Hk db. rewrite bind_run. specialize (Hm db).
  destruct (fst (m db)) as [a|e|]; [|exact Hm|exact Hm].
  eapply R_trans; [exact Hm|apply Hk].
Qed.

Lemma keeps_bind_lift (A B : Type) (o : outcome A) (k : A -> M B) :
  (forall a, o = Return a -> keeps R (k a)) -> keeps R (bind (lift o) k).
Proof.
  intros Hk db. unfold bind, lift. destruct o as [a|e|]; [now apply Hk|apply R_refl|apply R_refl].
Qed.

Lemma keeps_for_each (A B : Type) (body : B -> A -> M B) l :
  (forall acc x, In x l -> keeps R (body acc x)) ->
  forall acc, keeps R (for_each body l acc).
Proof.
  induction l as [|x l IH]; intros Hbody acc; [apply keeps_ret|].
  cbn [for_each]. apply keeps_bind.
  - apply Hbody. now left.
  - intros acc'. apply IH. intros acc'' y Hy. apply Hbody. now right.
Qed.

Lemma keeps_fields_by_name ty : keeps R (JSONRegistry_fields_by_name ty).
Proof.
  unfold JSONRegistry_fields_by_name. apply keeps_bind.
  - apply keeps_registry_select.
  - intros a. apply keeps_ret.
Qed.

(** The engine proper: what the registry and the DAL are asked to do keeps
    [R] for the types [P] holds of, and every type of the registry is one. *)
Variable lib : DateLib.
Variable registry : JSONRegistry.
Variable P : JSONType -> Prop.
Hypothesis P_registry :
  forall n ty, JSONRegistry_getattr registry n = Return ty -> P ty.
Hypothesis keeps_extend :
  forall ty discovery, P ty -> finds_new discovery ->
    keeps R (extend_schema registry ty discovery).
Hypothesis keeps_update_record :
  forall ty k fs, P ty -> keeps R (update_record (table_name ty) k fs).
Hypothesis keeps_insert :
  forall ty fs, P ty -> keeps R (insert (table_name ty) fs).
Hypothesis keeps_bulk_insert :
  forall ty rows, P ty -> keeps R (bulk_insert (table_name ty) rows).

Lemma keeps_passthrough ty d row fieldname : keeps R (passthrough ty d row fieldname).
Proof.
  unfold passthrough. destruct (dmem fieldname (fields_by_name ty)); [apply keeps_ret|].
  destruct (dget fieldname d) as [v|]; [|apply keeps_raise].
  destruct (negb (is_None v)); [apply keeps_ret|].
  apply keeps_bind; [apply keeps_get_table|].
  intros t. destruct (str_in fieldname (row_columns t)); apply keeps_ret.
Qed.

Section Callbacks.
Variable sync_ : JSONType -> Context -> M AttrDict.
Variable bulk_sync_ : JSONType -> Context -> M (list AttrDict).
Hypothesis keeps_sync_ : forall ty context, P ty -> keeps R (sync_ ty context).
Hypothesis keeps_bulk_sync_ : forall ty context, P ty -> keeps R (bulk_sync_ ty context).

Lemma keeps_resolve_reference context n v :
  keeps R (resolve_reference registry sync_ context n v).
Proof.
  unfold resolve_reference. apply keeps_bind_lift. intros item E.
  destruct (negb (type_in (type_of v) [int_; long_])); [|apply keeps_ret].
  apply keeps_bind; [apply keeps_lift|]. intros d.
  apply keeps_bind_lift. intros ref_type E2.
  apply keeps_bind;
    [apply keeps_sync_; eapply P_registry; eapply getitem_type; eassumption|].
  intros child.
  apply keeps_bind; [apply keeps_lift|]. intros id. apply keeps_lift.
Qed.

Lemma keeps_resolve_list_reference context n v :
  keeps R (resolve_list_reference registry bulk_sync_ context n v).
Proof.
  unfold resolve_list_reference. apply keeps_bind_lift. intros item E.
  apply keeps_bind; [apply keeps_lift|]. intros [[ids sq] indexes].
  destruct sq as [|x sq]; [apply keeps_ret|].
  apply keeps_bind_lift. intros ref_type E2.
  apply keeps_bind;
    [apply keeps_bulk_sync_; eapply P_registry; eapply getitem_type; eassumption|].
  intros children.
  apply keeps_bind; [apply keeps_lift|]. intros ids'. apply keeps_ret.
Qed.

Lemma keeps_set_field context d row field :
  keeps R (set_field lib registry sync_ bulk_sync_ context d row field).
Proof.
  unfold set_field. destruct (compute field); [apply keeps_ret|].
  destruct (partial context && negb (dmem (fieldname field) d)); [apply keeps_ret|].
  destruct (is_None _); [apply keeps_ret|].
  apply keeps_bind; [apply keeps_lift|]. intros v1.
  apply keeps_bind; [|intros v2; apply keeps_ret].
  destruct (ref_match (type field)) as [[kind n]|]; [|apply keeps_ret].
  destruct (String.eqb kind "reference"); [apply keeps_resolve_reference|].
  destruct (String.eqb kind "list:reference");
    [apply keeps_resolve_list_reference|apply keeps_ret].
Qed.

Lemma keeps_create_row_dict ty context :
  keeps R (_create_row_dict lib registry sync_ bulk_sync_ ty context).
Proof.
  unfold _create_row_dict. destruct (data context) as [d|]; [|apply keeps_raise].
  apply keeps_bind.
  - apply keeps_for_each. intros acc x _. apply keeps_passthrough.
  - intros row. apply keeps_for_each. intros acc x _. apply keeps_set_field.
Qed.

End Callbacks.

Lemma keeps_update_row ty row_dict : P ty -> keeps R (_update_row ty row_dict).
Proof.
  intros HP. unfold _update_row.
  apply keeps_bind; [apply keeps_get_table|]. intros table.
  apply keeps_bind; [apply keeps_lift|]. intros id.
  apply keeps_bind; [apply keeps_lift|]. intros [k|]; [|apply keeps_ret].
  apply keeps_bind; [now apply keeps_update_record|]. intros _. apply keeps_ret.
Qed.

Lemma keeps_write_row ty row_dict : P ty -> keeps R (write_row ty row_dict).
Proof.
  intros HP. unfold write_row. apply keeps_bind; [now apply keeps_update_row|].
  intros [|]; [apply keeps_ret|now apply keeps_insert].
Qed.

Lemma keeps_bulk_item sync_ bulk_sync_ ty context st io :
  (forall ty context, P ty -> keeps R (sync_ ty context)) ->
  (forall ty context, P ty -> keeps R (bulk_sync_ ty context)) ->
  P ty ->
  keeps R (bulk_item lib registry sync_ bulk_sync_ ty context st io).
Proof.
  intros Hs Hb HP. unfold bulk_item.
  apply keeps_bind; [apply keeps_lift|]. intros d.
  apply keeps_bind; [now apply keeps_create_row_dict|]. intros row_dict.
  apply keeps_bind; [now apply keeps_update_row|]. intros updated. apply keeps_ret.
Qed.

Lemma keeps_flush ty rows : P ty -> keeps R (flush ty rows).
Proof.
  intros HP. unfold flush. destruct rows; [apply keeps_ret|now apply keeps_bulk_insert].
Qed.

(** Every sync keeps the relation, nested syncs included. *)
Lemma keeps_engine fuel :
  (forall ty context, P ty -> keeps R (_sync lib registry fuel ty context)) /\
  (forall ty context, P ty -> keeps R (_bulk_sync lib registry fuel ty context)).
Proof.
  induction fuel as [|fuel [IHs IHb]]; [split; intros; apply keeps_beyond|].
  split; intros ty context HP db.
  - destruct (data context) as [d|] eqn:Hd.
    + rewrite (sync_unfold _ _ _ _ _ _ Hd). revert db.
      apply keeps_bind; [apply keeps_extend; [exact HP|apply finds_new_doc]|]. intros _.
      apply keeps_bind; [now apply keeps_create_row_dict|]. intros row_dict.
      apply keeps_bind; [now apply keeps_write_row|]. intros _. apply keeps_ret.
    + rewrite sync_no_data by exact Hd. apply R_refl.
  - destruct (seq context) as [sq|] eqn:Hs.
    + rewrite (bulk_sync_unfold _ _ _ _ _ _ Hs). revert db.
      apply keeps_bind; [apply keeps_extend; [exact HP|apply finds_new_seq]|]. intros _.
      apply keeps_bind.
      * apply keeps_for_each. intros acc x _. now apply keeps_bulk_item.
      * intros st. apply keeps_bind; [now apply keeps_flush|]. intros _. apply keeps_ret.
    + rewrite bulk_sync_no_seq by exact Hs. apply R_refl.
Qed.

End Keeps.

(** ** Dates and times *)

(** The value entered for a date field is cut from the parsed value as it
    is: the zone of the machine plays no part. *)
Lemma convert_temporal_cut lib field v d :
  str_in (type field) ["datetime"; "date"; "time"] = true ->
  parse_date lib field v = Return d ->
  convert_temporal lib field v =
  Return (if String.eqb (type field) "time" then time d
          else if String.eqb (type field) "date" then date d
          else VDatetime d).
Proof.
  intros Ht Hp. unfold convert_temporal, expr_stmt. rewrite Ht, Hp. cbn [obind].
  destruct (String.eqb (type field) "time"); reflexivity.
Qed.

Lemma convert_temporal_zone_blind strp prs tz1 tz2 field v :
  convert_temporal (mkDateLib strp prs tz1) field v =
  convert_temporal (mkDateLib strp prs tz2) field v.
Proof. reflexivity. Qed.

(** C2. On a machine in UTC+2, the date field of the document
    [{"id": 1, "day": "2020-01-01T23:30:00+00:00"}] is stored as day 18262
    (2020-01-01), the date of the value in its own zone; read in local time
    the value is 01:30 on day 18263 (2020-01-02), which is what the
    specification asks to store. The row built, returned and inserted holds
    day 18262. *)
Theorem timezone_not_normalized :
  convert_temporal example_lib (JSONField_new "day" "date")
    (VUnicode "2020-01-01T23:30:00+00:00") = Return (VDate 18262)
  /\ normalized_temporal example_lib "date" (mkDatetime 1577921400 (Some 0)) = VDate 18263
  /\ fst (sync example_lib event_registry Event
            [("id", VInt 1); ("day", VUnicode "2020-01-01T23:30:00+00:00")] false event_db)
     = Return [("id", VInt 1); ("day", VDate 18262)]
  /\ option_map records
       (dget "Event"
          (tables (snd (sync example_lib event_registry Event
                          [("id", VInt 1); ("day", VUnicode "2020-01-01T23:30:00+00:00")]
                          false event_db))))
     = Some [(1, [("id", VInt 1); ("day", VDate 18262)])].
Proof. repeat split; vm_compute; reflexivity. Qed.

(** ** [_update_row] and the row object of its caller *)

Lemma deref_app_old (s x : store) r : (r < List.length s)%nat -> deref (s ++ x) r = deref s r.
Proof. intros H. unfold deref. now apply app_nth1. Qed.

Lemma deref_alloc d (s : store) : deref (snd (alloc d s)) (fst (alloc d s)) = d.
Proof.
  unfold alloc, deref. cbn [fst snd]. rewrite app_nth2 by lia.
  now rewrite Nat.sub_diag.
Qed.

Lemma store_setitem_length r k v (s : store) :
  List.length (store_setitem r k v s) = List.length s.
Proof.
  revert r. induction s as [|d s IH]; intros r; [reflexivity|].
  destruct r; cbn [store_setitem List.length]; [reflexivity|now rewrite IH].
Qed.

Lemma deref_store_setitem_other r r0 k v (s : store) :
  r0 <> r -> deref (store_setitem r k v s) r0 = deref s r0.
Proof.
  unfold deref. revert r r0. induction s as [|d s IH]; intros r r0 Hne; [reflexivity|].
  destruct r, r0; cbn [store_setitem nth]; try reflexivity; try congruence.
  apply IH. congruence.
Qed.

Lemma deref_store_setitem_same r k v (s : store) :
  (r < List.length s)%nat -> deref (store_setitem r k v s) r = dset k v (deref s r).
Proof.
  unfold deref. revert r. induction s as [|d s IH]; intros r H; [cbn in H; lia|].
  destruct r; cbn [store_setitem nth]; [reflexivity|].
  apply IH. cbn in H. lia.
Qed.

(** The loop on references computes [null_fill] in a new object and leaves
    every object of the store as it was. *)
Lemma null_fill_ref_spec columns row_dict (s : store) :
  (row_dict < List.length s)%nat ->
  deref (snd (null_fill_ref columns row_dict s)) (fst (null_fill_ref columns row_dict s))
  = null_fill columns (deref s row_dict)
  /\ forall r0, (r0 < List.length s)%nat ->
       deref (snd (null_fill_ref columns row_dict s)) r0 = deref s r0.
Proof.
  intros Hr. unfold null_fill_ref, null_fill.
  set (stepr := fun (st : option nat * store) column =>
         let (new_row_dict, s0) := st in
         if negb (dmem column (deref s0 row_dict)) then
           let (r, s1) := match new_row_dict with
                          | None => alloc (AttrDict_new (deref s0 row_dict)) s0
                          | Some r => (r, s0)
                          end in
           (Some r, store_setitem r column VNone s1)
         else (new_row_dict, s0)).
  set (stepp := fun (new_row_dict : option AttrDict) column =>
         if negb (dmem column (deref s row_dict)) then
           Some (dset column VNone
                   match new_row_dict with
                   | None => AttrDict_new (deref s row_dict)
                   | Some nrd => nrd
                   end)
         else new_row_dict).
  assert (G : forall cols st o,
             (forall r0, (r0 < List.length s)%nat -> deref (snd st) r0 = deref s r0) ->
             match fst st, o with
             | None, None => snd st = s
             | Some c, Some d =>
                 c = List.length s /\ List.length (snd st) = S (List.length s)
                 /\ deref (snd st) c = d
             | _, _ => False
             end ->
             let st' := fold_left stepr cols st in
             let o' := fold_left stepp cols o in
             (forall r0, (r0 < List.length s)%nat -> deref (snd st') r0 = deref s r0) /\
             match fst st', o' with
             | None, None => snd st' = s
             | Some c, Some d => deref (snd st') c = d
             | _, _ => False
             end).
  { induction cols as [|column cols IH]; intros [nrd s0] o Hold Hrel; cbn [fst snd] in *.
    - cbn [fold_left fst snd]. split; [exact Hold|].
      destruct nrd, o; try tauto.
    - cbn [fold_left]. apply IH; unfold stepr, stepp; rewrite (Hold _ Hr);
        destruct (negb (dmem column (deref s row_dict))); cbn [fst snd]; try assumption.
      + destruct nrd as [c|], o as [d|]; try tauto.
        * destruct Hrel as [-> [Hlen Hd]]. cbn [fst snd]. intros r0 Hr0.
          rewrite deref_store_setitem_other by lia. now apply Hold.
        * subst s0. unfold alloc. cbn [fst snd]. intros r0 Hr0.
          rewrite deref_store_setitem_other by lia. now apply deref_app_old.
      + destruct nrd as [c|], o as [d|]; try tauto.
        * destruct Hrel as [-> [Hlen Hd]]. cbn [fst snd].
          rewrite store_setitem_length. repeat split; [exact Hlen|].
          rewrite deref_store_setitem_same by lia. now rewrite Hd.
        * subst s0. unfold alloc. cbn [fst snd].
          rewrite store_setitem_length, length_app. cbn [List.length].
          repeat split; [lia|].
          rewrite deref_store_setitem_same by (rewrite length_app; cbn; lia).
          unfold deref at 1. rewrite app_nth2 by lia. now rewrite Nat.sub_diag. }
  specialize (G columns (None, s) None (fun _ _ => eq_refl) eq_refl).
  cbn zeta in G. destruct G as [Hold Hrel].
  match goal with
  | |- context [fold_left ?f columns None] => change f with stepp
  end.
  destruct (fst (fold_left stepr columns (None, s))) as [c|];
    destruct (fold_left stepp columns None) as [d|]; try tauto; cbn [fst snd].
  all: split; [first [exact Hrel|now rewrite Hrel]|exact Hold].
Qed.

(** [_update_row] on references does to the DAL what [_update_row] on the
    row's value does, and leaves every object of the store as it was. *)
Lemma update_row_ref_spec ty row_dict (s : store) db :
  (row_dict < List.length s)%nat ->
  match _update_row_ref ty row_dict s db with
  | (Return (b, s'), db') =>
      _update_row ty (deref s row_dict) db = (Return b, db')
      /\ forall r0, (r0 < List.length s)%nat -> deref s' r0 = deref s r0
  | (Raise e, db') => _update_row ty (deref s row_dict) db = (Raise e, db')
  | (Beyond, db') => _update_row ty (deref s row_dict) db = (Beyond, db')
  end.
Proof.
  intros Hr. unfold _update_row_ref, _update_row, bind, lift, ret.
  destruct (get_table (table_name ty) db) as [[table|e|] db1]; try reflexivity.
  destruct (getitem (deref s row_dict) "id") as [id|e|]; try reflexivity.
  destruct (table_call table id) as [[k|]|e|]; try reflexivity.
  - destruct (remove_missing_fields ty).
    + destruct (null_fill_ref_spec (row_columns table) s Hr) as [Hfill Hold].
      destruct (null_fill_ref (row_columns table) row_dict s) as [r' s'].
      cbn [fst snd] in Hfill, Hold. rewrite Hfill.
      destruct (update_record (table_name ty) k (null_fill (row_columns table) (deref s row_dict)) db1)
        as [[[]|e|] db2]; try reflexivity.
      split; [reflexivity|exact Hold].
    + destruct (update_record (table_name ty) k (deref s row_dict) db1)
        as [[[]|e|] db2]; try reflexivity.
      split; [reflexivity|auto].
  - split; [reflexivity|auto].
Qed.

(** C10. The end of [_sync] on references: the row that was built is the
    object at the next free address of the store. When the call returns,
    the reference it returns still names exactly the row that was built, so
    no [None] filled in for a missing column is in it; every object that
    was in the store (the rows a bulk sync has collected so far) is as it
    was; and the DAL has gone through the update or insert of the row's
    value. The filled row exists only in the copy [_update_row] made. *)
Theorem returned_row_has_no_null_fill :
  forall (ty : JSONType) (row_dict : AttrDict) (s : store) (db : DAL)
         (r : nat) (s' : store) (db' : DAL),
    _sync_end_ref ty (List.length s) (s ++ [row_dict]) db = (Return (r, s'), db') ->
    deref s' r = row_dict
    /\ (forall r0, (r0 < List.length s)%nat -> deref s' r0 = deref s r0)
    /\ write_row ty row_dict db = (Return tt, db').
Proof.
  intros ty row_dict s db r s' db' H.
  assert (Hr : (List.length s < List.length (s ++ [row_dict]))%nat)
    by (rewrite length_app; cbn; lia).
  assert (Hrow : deref (s ++ [row_dict]) (List.length s) = row_dict).
  { unfold deref. rewrite app_nth2 by lia. now rewrite Nat.sub_diag. }
  pose proof (@update_row_ref_spec ty _ _ db Hr) as Hspec.
  unfold _sync_end_ref in H. rewrite bind_run in H.
  destruct (_update_row_ref ty (List.length s) (s ++ [row_dict]) db) as [[[b s1]|e|] db1];
    cbn [fst snd] in H; try discriminate.
  destruct Hspec as [Hupd Hold]. rewrite Hrow in Hupd.
  rewrite bind_run in H. unfold write_row. rewrite bind_run, Hupd. cbn [fst snd].
  assert (Hsame : deref s1 (List.length s) = row_dict)
    by (rewrite Hold by exact Hr; exact Hrow).
  destruct b; cbn [fst snd] in H.
  - unfold ret in H. cbn [fst snd] in H. injection H as <- <- <-.
    split; [exact Hsame|split; [|reflexivity]].
    intros r0 Hr0. rewrite Hold by (rewrite length_app; cbn; lia).
    now apply deref_app_old.
  - rewrite Hsame in H.
    destruct (insert (table_name ty) row_dict db1) as [[[]|e|] db2];
      cbn [fst snd] in H; try discriminate.
    unfold ret in H. injection H as <- <- <-.
    split; [exact Hsame|split; [|reflexivity]].
    intros r0 Hr0. rewrite Hold by (rewrite length_app; cbn; lia).
    now apply deref_app_old.
Qed.

Lemma returned_row_has_no_null_fill_witness :
  let s' := [bob_row; dset "nickname" VNone bob_row] in
  let db' := snd (_sync_end_ref Person 0 [bob_row] person_db_ann) in
  (deref s' 0 = bob_row
   /\ (forall r0, (r0 < 0)%nat -> deref s' r0 = deref [] r0)
   /\ write_row Person bob_row person_db_ann = (Return tt, db'))
  /\ last (calls db') (Cinsert "" []) =
     Cupdate_record "Person" 1 (dset "nickname" VNone bob_row).
Proof.
  cbv zeta. split.
  - apply (@returned_row_has_no_null_fill Person bob_row [] person_db_ann 0
             [bob_row; dset "nickname" VNone bob_row]).
    vm_compute. reflexivity.
  - vm_compute. reflexivity.
Defined.

(** ** Loops *)

Lemma ofold_inv (A B : Type) (P : B -> Prop) (body : B -> A -> outcome B) l acc r :
  (forall acc x acc', In x l -> P acc -> body acc x = Return acc' -> P acc') ->
  P acc -> ofold body l acc = Return r -> P r.
Proof.
  revert acc. induction l as [|x l IH]; intros acc Hbody Hacc; cbn [ofold].
  - now intros [= <-].
  - destruct (body acc x) as [acc'|e|] eqn:E; cbn [obind]; try discriminate.
    apply IH.
    + intros a y a' Hy. apply Hbody. now right.
    + eapply Hbody; [now left|exact Hacc|exact E].
Qed.

Lemma for_each_inv (A B : Type) (P : B -> Prop) (body : B -> A -> M B) l acc db r db' :
  (forall acc x db acc' db', In x l -> P acc -> body acc x db = (Return acc', db') -> P acc') ->
  P acc -> for_each body l acc db = (Return r, db') -> P r.
Proof.
  revert acc db. induction l as [|x l IH]; intros acc db Hbody Hacc; cbn [for_each].
  - unfold ret. now intros [= <- _].
  - intros H. apply bind_inv in H. destruct H as [acc' [db1 [H1 H2]]].
    eapply IH; [| |exact H2].
    + intros a y d a' d' Hy. apply Hbody. now right.
    + eapply Hbody; [now left|exact Hacc|exact H1].
Qed.

(** ** Row construction without nested documents *)

Lemma agree_ret (A : Type) (a : A) db db' : agree (ret a) (ret a) db db'.
Proof. now exists (Return a). Qed.

Lemma agree_raise (A : Type) e db db' : agree (@raise A e) (raise e) db db'.
Proof. now exists (Raise e). Qed.

Lemma agree_lift (A : Type) (o : outcome A) db db' : agree (lift o) (lift o) db db'.
Proof. now exists o. Qed.

Lemma agree_bind (A B : Type) (m m' : M A) (k k' : A -> M B) db db' :
  agree m m' db db' -> (forall a, agree (k a) (k' a) db db') ->
  agree (bind m k) (bind m' k') db db'.
Proof.
  intros [o [H1 H2]] Hk. unfold agree, bind. rewrite H1, H2.
  destruct o as [a|e|]; [apply Hk|now exists (Raise e)|now exists Beyond].
Qed.

Lemma agree_bind_Return (A B : Type) (a : A) (k k' : A -> M B) db db' :
  agree (k a) (k' a) db db' ->
  agree (bind (lift (Return a)) k) (bind (lift (Return a)) k') db db'.
Proof. intros H. exact H. Qed.

Lemma agree_for_each (A B : Type) (body body' : B -> A -> M B) l acc db db' :
  (forall acc x, In x l -> agree (body acc x) (body' acc x) db db') ->
  agree (for_each body l acc) (for_each body' l acc) db db'.
Proof.
  revert acc. induction l as [|x l IH]; intros acc H; cbn [for_each].
  - apply agree_ret.
  - apply agree_bind; [apply H; now left|].
    intros a. apply IH. intros acc' y Hy. apply H. now right.
Qed.

Lemma agree_passthrough ty d row fieldname db db' :
  columns_of db (table_name ty) = columns_of db' (table_name ty) ->
  agree (passthrough ty d row fieldname) (passthrough ty d row fieldname) db db'.
Proof.
  intros Hc. unfold passthrough.
  destruct (dmem fieldname (fields_by_name ty)); [apply agree_ret|].
  destruct (dget fieldname d) as [v|]; [|apply agree_raise].
  destruct (negb (is_None v)); [apply agree_ret|].
  unfold columns_of in Hc. unfold agree, bind, get_table.
  destruct (dget (table_name ty) (tables db)) as [t|],
           (dget (table_name ty) (tables db')) as [t'|]; cbn in Hc; try discriminate.
  - injection Hc as Hc. rewrite Hc.
    destruct (str_in fieldname (row_columns t')); eexists; split; reflexivity.
  - eexists; split; reflexivity.
Qed.

Lemma ref_match_not_temporal ty :
  ref_match ty <> None -> str_in ty ["datetime"; "date"; "time"] = false.
Proof.
  intros H. destruct (str_in ty ["datetime"; "date"; "time"]) eqn:E; [|reflexivity].
  apply str_in_In in E. cbn in E.
  destruct E as [<-|[<-|[<-|[]]]]; now contradiction H.
Qed.

Lemma split_items_all_integers items ids sq indexes :
  forallb is_integer items = true ->
  split_items items = Return (ids, sq, indexes) ->
  sq = [] /\ indexes = [].
Proof.
  intros Hall H. unfold split_items in H.
  eapply (ofold_inv (fun st => snd (fst st) = [] /\ snd st = [])) in H;
    [exact H| |auto].
  intros [[ids0 sq0] ix0] [i item] acc' Hin [Hsq Hix] Hbody.
  cbn [fst snd] in *. subst sq0 ix0.
  apply in_combine_r in Hin. rewrite forallb_forall in Hall. apply Hall in Hin.
  unfold is_integer in Hin. rewrite Hin in Hbody.
  destruct (setitem_list i item ids0); cbn [obind] in Hbody; try discriminate.
  now injection Hbody as <-.
Qed.

Lemma agree_set_field lib registry s b s' b' context d row field db db' :
  field_is_direct d field = true ->
  agree (set_field lib registry s b context d row field)
        (set_field lib registry s' b' context d row field) db db'.
Proof.
  intros Hd. unfold set_field.
  destruct (compute field); [apply agree_ret|].
  destruct (partial context && negb (dmem (fieldname field) d)); [apply agree_ret|].
  unfold field_is_direct in Hd.
  destruct (dget (fieldname field) d) as [v|]; [|apply agree_ret].
  destruct (is_None v) eqn:Ev; [apply agree_ret|].
  destruct (ref_match (type field)) as [[kind n]|] eqn:Er.
  - assert (Hc : convert_temporal lib field v = Return v).
    { unfold convert_temporal. rewrite ref_match_not_temporal; [reflexivity|congruence]. }
    rewrite Hc. apply agree_bind_Return.
    assert (Hv : (if String.eqb kind "reference" then is_integer v
                  else if String.eqb kind "list:reference"
                       then forallb is_integer (as_sequence v) else true) = true)
      by (destruct v; try exact Hd; discriminate).
    clear Hd Hc. apply agree_bind; [|intros v2; apply agree_ret].
    destruct (String.eqb kind "reference").
    { unfold resolve_reference. apply agree_bind; [apply agree_lift|]. intros ref_type.
      unfold is_integer in Hv. rewrite Hv. apply agree_ret. }
    destruct (String.eqb kind "list:reference"); [|apply agree_ret].
    unfold resolve_list_reference. apply agree_bind; [apply agree_lift|]. intros ref_type.
    destruct (split_items (as_sequence v)) as [[[ids sq] indexes]|e|] eqn:Es.
    + destruct (split_items_all_integers _ Hv Es) as [-> ->].
      apply agree_bind_Return. apply agree_ret.
    + now exists (Raise e).
    + now exists Beyond.
  - apply agree_bind; [apply agree_lift|]. intros v1.
    apply agree_bind; [apply agree_ret|]. intros v2. apply agree_ret.
Qed.

Lemma agree_create_row_dict lib registry s b s' b' ty context d db db' :
  direct ty d = true -> data context = Some d ->
  columns_of db (table_name ty) = columns_of db' (table_name ty) ->
  agree (_create_row_dict lib registry s b ty context)
        (_create_row_dict lib registry s' b' ty context) db db'.
Proof.
  intros Hd Hdata Hc. unfold _create_row_dict. rewrite Hdata.
  apply agree_bind.
  - apply agree_for_each. intros acc x _. now apply agree_passthrough.
  - intros row. apply agree_for_each. intros acc field Hin.
    apply agree_set_field. unfold direct in Hd. rewrite forallb_forall in Hd. now apply Hd.
Qed.

(** The row of a direct document is built without touching the state, and
    it depends on the state only through the columns of the type's table. *)
Lemma create_row_dict_direct lib registry s b ty context d db :
  direct ty d = true -> data context = Some d ->
  _create_row_dict lib registry s b ty context db = (built_row lib registry ty context db, db).
Proof.
  intros Hd Hdata.
  destruct (@agree_create_row_dict lib registry s b no_sync no_bulk_sync ty context d db db
              Hd Hdata eq_refl) as [o [H1 H2]].
  unfold built_row. now rewrite H1, H2.
Qed.

Lemma built_row_columns lib registry ty context d db db' :
  direct ty d = true -> data context = Some d ->
  columns_of db (table_name ty) = columns_of db' (table_name ty) ->
  built_row lib registry ty context db = built_row lib registry ty context db'.
Proof.
  intros Hd Hdata Hc.
  destruct (@agree_create_row_dict lib registry no_sync no_bulk_sync no_sync no_bulk_sync
              ty context d db db' Hd Hdata Hc) as [o [H1 H2]].
  unfold built_row. now rewrite H1, H2.
Qed.

(** What one step of the second loop can do to the row. *)
Lemma set_field_inv lib registry s b context d row field db row' db' :
  set_field lib registry s b context d row field db = (Return row', db') ->
  row' = row \/ exists v, row' = dset (column_name field) v row.
Proof.
  unfold set_field. destruct (compute field) as [f|].
  { unfold ret. intros [= <- _]. right. eauto. }
  destruct (partial context && negb (dmem (fieldname field) d)).
  { unfold ret. intros [= <- _]. now left. }
  destruct (is_None _).
  { unfold ret. intros [= <- _]. right. eauto. }
  intros H. apply bind_inv in H. destruct H as [v1 [db1 [_ H]]].
  apply bind_inv in H. destruct H as [v2 [db2 [_ H]]].
  unfold ret in H. injection H as <- _. right. eauto.
Qed.

Lemma passthrough_inv ty d row fieldname db row' db' :
  passthrough ty d row fieldname db = (Return row', db') ->
  db' = db /\
  (row' = row \/
   dmem fieldname (fields_by_name ty) = false /\
   exists v, dget fieldname d = Some v /\ row' = dset fieldname v row /\
             (is_None v = false \/
              exists cols, columns_of db (table_name ty) = Some cols
                           /\ str_in fieldname cols = true)).
Proof.
  unfold passthrough. destruct (dmem fieldname (fields_by_name ty)) eqn:Ef.
  { unfold ret. intros [= <- <-]. auto. }
  destruct (dget fieldname d) as [v|]; [|discriminate].
  destruct (is_None v) eqn:Ev; cbn [negb].
  - unfold bind, get_table, columns_of.
    destruct (dget (table_name ty) (tables db)) as [t|]; [|discriminate].
    destruct (str_in fieldname (row_columns t)) eqn:Ec; unfold ret; intros [= <- <-];
      split; auto.
    right. split; [reflexivity|]. exists v. repeat split. right.
    exists (row_columns t). auto.
  - unfold ret. intros [= <- <-]. split; [reflexivity|]. right.
    split; [reflexivity|]. exists v. auto.
Qed.

(** The keys of a built row are distinct. *)
Lemma create_row_dict_NoDup lib registry s b ty context db row db' :
  _create_row_dict lib registry s b ty context db = (Return row, db') ->
  NoDup (dkeys row).
Proof.
  unfold _create_row_dict. destruct (data context) as [d|]; [|discriminate].
  intros H. apply bind_inv in H. destruct H as [row0 [db0 [H0 H1]]].
  apply (for_each_inv (fun r : AttrDict => NoDup (dkeys r))) in H0.
  - apply (for_each_inv (fun r : AttrDict => NoDup (dkeys r))) in H1; [exact H1| |exact H0].
    intros acc field db1 acc' db1' _ Hacc Hstep.
    apply set_field_inv in Hstep. destruct Hstep as [->|[v ->]]; [exact Hacc|].
    now apply NoDup_dkeys_dset.
  - intros acc x db1 acc' db1' _ Hacc Hstep.
    apply passthrough_inv in Hstep.
    destruct Hstep as [_ [->|[_ [v [_ [-> _]]]]]]; [exact Hacc|].
    now apply NoDup_dkeys_dset.
  - constructor.
Qed.

(** A column whose declared fields are all skipped, and that the document
    does not name in passing, is not in the built row. *)
Lemma skipped_column_not_in_row lib registry s b ty context d db row db' c :
  data context = Some d ->
  partial context = true ->
  (forall field, In field (fields ty) -> column_name field = c ->
     compute field = None /\ dmem (fieldname field) d = false) ->
  (dmem c d = true -> dmem c (fields_by_name ty) = true) ->
  _create_row_dict lib registry s b ty context db = (Return row, db') ->
  dmem c row = false.
Proof.
  intros Hdata Hpartial Hfields Hpass. unfold _create_row_dict. rewrite Hdata.
  intros H. apply bind_inv in H. destruct H as [row0 [db0 [H0 H1]]].
  apply (for_each_inv (fun r : AttrDict => dmem c r = false)) in H0.
  - apply (for_each_inv (fun r : AttrDict => dmem c r = false)) in H1; [exact H1| |exact H0].
    intros acc field db1 acc' db1' Hin Hacc Hstep.
    destruct (String.eqb c (column_name field)) eqn:Ec.
    + apply String.eqb_eq in Ec. symmetry in Ec.
      destruct (Hfields field Hin Ec) as [Hcomp Habs].
      unfold set_field in Hstep. rewrite Hcomp, Hpartial, Habs in Hstep.
      cbn in Hstep. unfold ret in Hstep. now injection Hstep as <- _.
    + apply set_field_inv in Hstep. destruct Hstep as [->|[v ->]]; [exact Hacc|].
      now rewrite dmem_dset, Ec.
  - intros acc x db1 acc' db1' Hin Hacc Hstep.
    apply passthrough_inv in Hstep.
    destruct Hstep as [_ [->|[Hdecl [v [Hv [-> _]]]]]]; [exact Hacc|].
    rewrite dmem_dset, Hacc, orb_false_r.
    destruct (String.eqb c x) eqn:Ec; [|reflexivity].
    apply String.eqb_eq in Ec. subst x.
    assert (Hm : dmem c d = true) by (unfold dmem; now rewrite Hv).
    apply Hpass in Hm. congruence.
  - reflexivity.
Qed.

(** ** The DAL *)

Lemma get_table_Some tablename db t :
  dget tablename (tables db) = Some t -> get_table tablename db = (Return t, db).
Proof. intros H. unfold get_table. now rewrite H. Qed.

Lemma update_record_run tablename k fs db t :
  dget tablename (tables db) = Some t ->
  update_record tablename k fs db =
  (Return tt,
   mkDAL (dset tablename (updated_table t k fs) (tables db))
         (json_type_registry db)
         (calls db ++ [Cupdate_record tablename k fs])).
Proof.
  intros H. unfold update_record, bind, log, get_table, put_table. cbn [tables].
  now rewrite H.
Qed.

Lemma insert_run tablename fs db t :
  dget tablename (tables db) = Some t ->
  insert tablename fs db =
  match insert_into t fs with
  | Return t' =>
      (Return tt,
       mkDAL (dset tablename t' (tables db)) (json_type_registry db)
             (calls db ++ [Cinsert tablename fs]))
  | Raise e =>
      (Raise e, mkDAL (tables db) (json_type_registry db)
                      (calls db ++ [Cinsert tablename fs]))
  | Beyond =>
      (Beyond, mkDAL (tables db) (json_type_registry db)
                     (calls db ++ [Cinsert tablename fs]))
  end.
Proof.
  intros H. unfold insert, bind, log, get_table, put_table, lift. cbn [tables].
  rewrite H. destruct (insert_into t fs); reflexivity.
Qed.

Lemma find_record_set_record_same k f recs :
  find_record k (set_record k f recs) = option_map f (find_record k recs).
Proof.
  induction recs as [|[k' r] recs IH]; [reflexivity|]. cbn [set_record find_record].
  destruct (k =? k') eqn:E; cbn [find_record]; rewrite E; [reflexivity|exact IH].
Qed.

Lemma find_record_set_record_other k k' f recs :
  k' <> k -> find_record k' (set_record k f recs) = find_record k' recs.
Proof.
  intros Hne. induction recs as [|[k0 r] recs IH]; [reflexivity|]. cbn [set_record find_record].
  destruct (k =? k0) eqn:E; cbn [find_record].
  - apply Z.eqb_eq in E. subst k0.
    destruct (k' =? k) eqn:E'; [apply Z.eqb_eq in E'; contradiction|reflexivity].
  - destruct (k' =? k0); [reflexivity|exact IH].
Qed.

Lemma dget_write_fields (fs r : AttrDict) c :
  NoDup (dkeys fs) ->
  dget c (write_fields fs r) =
  match dget c fs with
  | Some v => Some v
  | None => dget c r
  end.
Proof. intros H. unfold write_fields. now rewrite (dget_fold_dset (fun v => v)). Qed.

Lemma dget_filter_key (V : Type) (p : string -> bool) (fs : dict V) c :
  dget c (filter (fun kv => p (fst kv)) fs) = if p c then dget c fs else None.
Proof.
  induction fs as [|[k v] fs IH]; cbn [filter dget fst]; [now destruct (p c)|].
  destruct (p k) eqn:Ek; cbn [dget].
  - destruct (String.eqb c k) eqn:E.
    + apply String.eqb_eq in E. subst k. now rewrite Ek.
    + exact IH.
  - rewrite IH. destruct (String.eqb c k) eqn:E; [|reflexivity].
    apply String.eqb_eq in E. subst k. now rewrite Ek.
Qed.

Lemma NoDup_dkeys_filter (V : Type) (p : string * V -> bool) (fs : dict V) :
  NoDup (dkeys fs) -> NoDup (dkeys (filter p fs)).
Proof.
  unfold dkeys. induction fs as [|[k v] fs IH]; intros H; [exact H|].
  inversion H as [|? ? Hnotin Hnd]; subst. cbn [filter].
  destruct (p (k, v)); [|now apply IH].
  cbn [map fst]. constructor; [|now apply IH].
  intros Hin. apply Hnotin. apply in_map_iff in Hin. destruct Hin as [[k' v'] [<- Hin]].
  apply filter_In in Hin. apply in_map_iff. exists (k', v'). now split.
Qed.

(** [null_fill] adds a [None] for each column the row lacks. *)
Lemma null_fill_fold columns (row_dict : AttrDict) :
  NoDup (dkeys row_dict) ->
  null_fill columns row_dict =
  fold_left (fun cur column => if negb (dmem column row_dict) then dset column VNone cur else cur)
            columns row_dict.
Proof.
  intros Hnd. unfold null_fill.
  assert (G : forall cols (o : option AttrDict),
             match fold_left
                     (fun (new_row_dict : option AttrDict) column =>
                        if negb (dmem column row_dict) then
                          let copy := match new_row_dict with
                                      | None => AttrDict_new row_dict
                                      | Some nrd => nrd
                                      end in
                          Some (dset column VNone copy)
                        else new_row_dict) cols o with
             | Some nrd => nrd
             | None => row_dict
             end =
             fold_left (fun cur column =>
                          if negb (dmem column row_dict) then dset column VNone cur else cur)
                       cols (match o with Some nrd => nrd | None => row_dict end)).
  { induction cols as [|column cols IH]; intros o; [reflexivity|].
    cbn [fold_left]. rewrite IH.
    destruct (negb (dmem column row_dict)); [|reflexivity].
    destruct o; [reflexivity|]. unfold AttrDict_new. now rewrite dict_of_id. }
  apply (G columns None).
Qed.

Lemma dget_null_fill columns (row_dict : AttrDict) c :
  NoDup (dkeys row_dict) ->
  dget c (null_fill columns row_dict) =
  match dget c row_dict with
  | Some v => Some v
  | None => if str_in c columns then Some VNone else None
  end.
Proof.
  intros Hnd. rewrite null_fill_fold by exact Hnd.
  assert (G : forall cols (cur : AttrDict),
             dget c (fold_left (fun cur column =>
                                  if negb (dmem column row_dict) then dset column VNone cur
                                  else cur) cols cur) =
             match dget c row_dict with
             | Some v => dget c cur
             | None => if str_in c cols then Some VNone else dget c cur
             end).
  { induction cols as [|column cols IH]; intros cur; cbn [fold_left].
    - now destruct (dget c row_dict).
    - rewrite IH. unfold str_in. cbn [existsb]. fold (str_in c cols).
      destruct (dget c row_dict) as [v|] eqn:Ev.
      + destruct (negb (dmem column row_dict)) eqn:Em; [|reflexivity].
        apply dget_dset_other. intros ->. unfold dmem in Em. now rewrite Ev in Em.
      + destruct (String.eqb c column) eqn:E; cbn [orb].
        * apply String.eqb_eq in E. subst column. unfold dmem. rewrite Ev. cbn [negb].
          destruct (str_in c cols); [reflexivity|apply dget_dset_same].
        * destruct (str_in c cols); [reflexivity|].
          destruct (negb (dmem column row_dict)); [|reflexivity].
          apply dget_dset_other. now apply String.eqb_neq. }
  rewrite G. now destruct (dget c row_dict).
Qed.

Lemma NoDup_null_fill columns (row_dict : AttrDict) :
  NoDup (dkeys row_dict) -> NoDup (dkeys (null_fill columns row_dict)).
Proof.
  intros Hnd. rewrite null_fill_fold by exact Hnd.
  assert (G : forall cols (cur : AttrDict),
             NoDup (dkeys cur) ->
             NoDup (dkeys (fold_left (fun cur column =>
                                        if negb (dmem column row_dict)
                                        then dset column VNone cur else cur) cols cur))).
  { induction cols as [|column cols IH]; intros cur Hcur; [exact Hcur|].
    cbn [fold_left]. apply IH.
    destruct (negb (dmem column row_dict)); [now apply NoDup_dkeys_dset|exact Hcur]. }
  now apply G.
Qed.

(** ** [_update_row] *)

Lemma table_call_key t idv k :
  key_of idv = Some k ->
  table_call t idv = Return (match find_record k (records t) with
                             | Some _ => Some k
                             | None => None
                             end).
Proof.
  intros Hk. unfold table_call.
  destruct idv; try discriminate; rewrite Hk; now destruct (find_record k (records t)).
Qed.

Lemma update_row_found ty row_dict db t idv k r :
  dget (table_name ty) (tables db) = Some t ->
  dget "id" row_dict = Some idv -> key_of idv = Some k ->
  find_record k (records t) = Some r ->
  _update_row ty row_dict db =
  (Return true, after_update (table_name ty) t k (update_payload ty t row_dict) db).
Proof.
  intros Ht Hid Hk Hr. unfold _update_row.
  erewrite bind_Return by (apply get_table_Some; exact Ht).
  unfold getitem. rewrite Hid. rewrite bind_lift_Return.
  rewrite (@table_call_key t idv k Hk), Hr, bind_lift_Return.
  unfold bind. fold (update_payload ty t row_dict).
  now rewrite (@update_record_run (table_name ty) k _ db t Ht).
Qed.

Lemma update_row_absent ty row_dict db t idv k :
  dget (table_name ty) (tables db) = Some t ->
  dget "id" row_dict = Some idv -> key_of idv = Some k ->
  find_record k (records t) = None ->
  _update_row ty row_dict db = (Return false, db).
Proof.
  intros Ht Hid Hk Hr. unfold _update_row.
  erewrite bind_Return by (apply get_table_Some; exact Ht).
  unfold getitem. rewrite Hid. rewrite bind_lift_Return.
  now rewrite (@table_call_key t idv k Hk), Hr, bind_lift_Return.
Qed.

(** What an update does to the stored record, column by column. *)
Lemma updated_record_get ty (t : Table) k (row_dict r : AttrDict) c cty :
  NoDup (dkeys row_dict) ->
  find_record k (records t) = Some r ->
  dget c (tfields t) = Some cty -> cty <> "id" ->
  exists r',
    find_record k (records (updated_table t k (update_payload ty t row_dict))) = Some r'
    /\ dget c r' =
       match dget c row_dict with
       | Some v => Some v
       | None => if remove_missing_fields ty then Some VNone else dget c r
       end.
Proof.
  intros Hnd Hr Hc Hty. unfold updated_table. cbn [records].
  rewrite find_record_set_record_same, Hr. cbn [option_map].
  eexists. split; [reflexivity|].
  assert (Hcol : str_in c (row_columns t) = true).
  { unfold row_columns. fold (dkeys (tfields t)). rewrite str_in_dkeys.
    unfold dmem. now rewrite Hc. }
  assert (Hidf : is_id_field t c = false).
  { unfold is_id_field. rewrite Hc. now apply String.eqb_neq. }
  assert (Hpn : NoDup (dkeys (update_payload ty t row_dict))).
  { unfold update_payload. destruct (remove_missing_fields ty);
      [now apply NoDup_null_fill|exact Hnd]. }
  rewrite dget_write_fields by now apply NoDup_dkeys_filter.
  rewrite (dget_filter_key (fun c => str_in c (row_columns t) && negb (is_id_field t c))).
  rewrite Hcol, Hidf. cbn [andb negb]. unfold update_payload.
  destruct (remove_missing_fields ty).
  - rewrite dget_null_fill by exact Hnd. rewrite Hcol.
    now destruct (dget c row_dict).
  - now destruct (dget c row_dict).
Qed.




(** ** Known fields and the schema extension *)

Lemma known_fields_get ty db f :
  dget f (known_fields ty db) =
  match dget f (fields_by_name ty) with
  | Some field => Some field
  | None => option_map (JSONField_new f) (catalog_type db (name ty) f)
  end.
Proof.
  unfold known_fields, catalog_type.
  generalize (fields_by_name ty) as fbn. generalize (json_type_registry db) as rows.
  induction rows as [|r rows IH]; intros fbn; cbn [filter fold_left find].
  - now destruct (dget f fbn).
  - destruct (String.eqb (r_type r) (name ty)) eqn:Et; cbn [andb fold_left]; [|apply IH].
    rewrite IH. clear IH.
    destruct (dmem (r_fieldname r) fbn) eqn:Em.
    + destruct (dget f fbn) as [field|] eqn:Ef; [reflexivity|].
      destruct (String.eqb (r_fieldname r) f) eqn:E; [|reflexivity].
      apply String.eqb_eq in E. subst f. unfold dmem in Em. now rewrite Ef in Em.
    + rewrite dget_dset. destruct (String.eqb f (r_fieldname r)) eqn:E.
      * apply String.eqb_eq in E. subst f. rewrite String.eqb_refl.
        unfold dmem in Em. destruct (dget (r_fieldname r) fbn); [discriminate|reflexivity].
      * rewrite String.eqb_sym, E. reflexivity.
Qed.

Lemma catalog_type_has db n f :
  catalog_has db n f = match catalog_type db n f with Some _ => true | None => false end.
Proof.
  unfold catalog_has, catalog_type.
  induction (json_type_registry db) as [|r rows IH]; [reflexivity|].
  cbn [existsb find]. destruct (String.eqb (r_type r) n && String.eqb (r_fieldname r) f);
    [reflexivity|exact IH].
Qed.

Lemma known_fields_mem ty db f :
  dmem f (known_fields ty db) = dmem f (fields_by_name ty) || catalog_has db (name ty) f.
Proof.
  unfold dmem at 1 2. rewrite known_fields_get, catalog_type_has.
  destruct (dget f (fields_by_name ty)); [reflexivity|].
  now destruct (catalog_type db (name ty) f).
Qed.

Lemma known_fields_NoDup ty db : NoDup (dkeys (known_fields ty db)).
Proof.
  unfold known_fields.
  assert (G : forall rows (fbn : dict JSONField),
             NoDup (dkeys fbn) ->
             NoDup (dkeys (fold_left
                      (fun fbn extra_field =>
                         if dmem (r_fieldname extra_field) fbn then fbn
                         else dset (r_fieldname extra_field)
                                (JSONField_new (r_fieldname extra_field)
                                   (r_db_type extra_field)) fbn)
                      rows fbn))).
  { induction rows as [|r rows IH]; intros fbn H; [exact H|]. cbn [fold_left]. apply IH.
    destruct (dmem (r_fieldname r) fbn); [exact H|now apply NoDup_dkeys_dset]. }
  apply G, NoDup_dict_of.
Qed.

Lemma In_dvalues (V : Type) (d : dict V) k v : dget k d = Some v -> In v (dvalues d).
Proof.
  intros H. apply dget_In in H. unfold dvalues. apply in_map_iff. now exists (k, v).
Qed.

(** With distinct fieldnames, [fields_by_name] holds every declared field. *)
Lemma fields_by_name_get ty field :
  NoDup (map fieldname (fields ty)) -> In field (fields ty) ->
  dget (fieldname field) (fields_by_name ty) = Some field.
Proof.
  intros Hnd Hin. unfold fields_by_name.
  rewrite dict_of_id by (unfold dkeys; now rewrite map_map).
  induction (fields ty) as [|f0 fs IH]; [contradiction|].
  cbn [map dget] in *. inversion Hnd as [|? ? Hnotin Hnd']; subst.
  destruct Hin as [->|Hin]; [now rewrite String.eqb_refl|].
  destruct (String.eqb (fieldname field) (fieldname f0)) eqn:E; [|now apply IH].
  apply String.eqb_eq in E. exfalso. apply Hnotin. rewrite <- E. now apply in_map.
Qed.

Lemma catalog_has_app rows db n f :
  catalog_has (with_catalog rows db) n f =
  catalog_has db n f
  || existsb (fun r => String.eqb (r_type r) n && String.eqb (r_fieldname r) f) rows.
Proof. unfold catalog_has, with_catalog. cbn [json_type_registry]. apply existsb_app. Qed.

Lemma known_fields_with_catalog_mono rows ty db f :
  dmem f (known_fields ty db) = true ->
  dmem f (known_fields ty (with_catalog rows db)) = true.
Proof.
  rewrite !known_fields_mem, catalog_has_app. intros H.
  apply orb_true_iff in H. destruct H as [-> | ->]; [reflexivity|].
  now rewrite orb_true_r.
Qed.

(** The items of [infer_db_types] are those of [missing_fields], typed. *)
Lemma infer_db_types_map (missing_fields : dict (list pytype)) :
  NoDup (dkeys missing_fields) ->
  infer_db_types missing_fields =
  map (fun kv => (fst kv, infer_db_type (snd kv))) missing_fields.
Proof.
  intros Hnd. unfold infer_db_types.
  assert (G : forall m (acc : dict string),
             NoDup (dkeys acc ++ dkeys m) ->
             fold_left (fun db_types kv => dset (fst kv) (infer_db_type (snd kv)) db_types) m acc
             = acc ++ map (fun kv => (fst kv, infer_db_type (snd kv))) m).
  { induction m as [|[k types] m IH]; intros acc H; cbn [fold_left map fst snd].
    - now rewrite app_nil_r.
    - assert (Hk : dmem k acc = false).
      { destruct (dmem k acc) eqn:E; [|reflexivity]. apply dmem_In in E.
        apply NoDup_remove_2 in H. exfalso. apply H. apply in_or_app. now left. }
      assert (E : dset k (infer_db_type types) acc = acc ++ [(k, infer_db_type types)]).
      { clear -Hk. induction acc as [|[k' v'] acc IH]; [reflexivity|].
        unfold dmem in Hk. cbn [dget dset] in *.
        destruct (String.eqb k k'); [discriminate|]. cbn [app]. f_equal. apply IH.
        exact Hk. }
      rewrite E, IH.
      + now rewrite <- app_assoc.
      + unfold dkeys in *. rewrite map_app. cbn [map fst]. rewrite <- app_assoc. exact H. }
  now apply (G missing_fields []).
Qed.

Lemma catalog_rows_has ty (missing_fields : dict (list pytype)) f :
  NoDup (dkeys missing_fields) ->
  existsb (fun r => String.eqb (r_type r) (name ty) && String.eqb (r_fieldname r) f)
          (catalog_rows ty missing_fields)
  = dmem f missing_fields.
Proof.
  intros Hnd. unfold catalog_rows. rewrite infer_db_types_map by exact Hnd.
  rewrite map_map. cbn [fst snd]. clear Hnd. unfold dmem.
  induction missing_fields as [|[k types] m IH]; [reflexivity|].
  cbn [map existsb r_type r_fieldname fst dget]. rewrite String.eqb_refl. cbn [andb].
  rewrite String.eqb_sym. destruct (String.eqb f k); [reflexivity|exact IH].
Qed.

Lemma collect_fields_run registry (l : list JSONField) acc db :
  for_each (fun fs field =>
              f <- lift (JSONField_field (Some registry) field) ;;
              ret (fs ++ [f])) l acc db
  = (ofold (fun fs field =>
              obind (JSONField_field (Some registry) field) (fun f => Return (fs ++ [f])))
           l acc, db).
Proof.
  revert acc. induction l as [|field l IH]; intros acc; [reflexivity|].
  cbn [for_each ofold]. unfold bind at 1 2, lift.
  destruct (JSONField_field (Some registry) field) as [f|e|]; cbn [obind]; try reflexivity.
  apply IH.
Qed.

Lemma redefine_table_run registry ty db :
  JSONRegistry_redefine_table registry ty db =
  match table_fields registry ty db with
  | Return fs => define_table (table_name ty) fs db
  | Raise e => (Raise e, db)
  | Beyond => (Beyond, db)
  end.
Proof.
  unfold JSONRegistry_redefine_table, table_fields.
  rewrite bind_run, fields_by_name_run. cbn [fst snd].
  rewrite bind_run, collect_fields_run. cbn [fst snd].
  now destruct (ofold _ _ _).
Qed.

(** The run of the schema extension. *)
Lemma extend_schema_run registry ty discovery db :
  extend_schema registry ty discovery db =
  match discovery (known_fields ty db) with
  | Return missing_fields =>
      match infer_db_types missing_fields with
      | [] => (Return tt, db)
      | _ => JSONRegistry_redefine_table registry ty
               (with_catalog (catalog_rows ty missing_fields) db)
      end
  | Raise e => (Raise e, db)
  | Beyond => (Beyond, db)
  end.
Proof.
  unfold extend_schema. rewrite bind_run, fields_by_name_run. cbn [fst snd].
  unfold bind at 1, lift.
  destruct (discovery (known_fields ty db)) as [m|e|]; try reflexivity.
  unfold _redefine_with_missing_fields, JSONRegistry_add_fields_to_type, catalog_rows.
  destruct (infer_db_types m); reflexivity.
Qed.

Lemma table_fields_columns registry ty db fs :
  table_fields registry ty db = Return fs ->
  map fst fs = map column_name (dvalues (known_fields ty db)).
Proof.
  unfold table_fields. generalize (dvalues (known_fields ty db)) as l.
  assert (G : forall l acc,
             ofold (fun fs field =>
                      obind (JSONField_field (Some registry) field)
                            (fun f => Return (fs ++ [f]))) l acc = Return fs ->
             map fst fs = map fst acc ++ map column_name l).
  { induction l as [|field l IH]; intros acc; cbn [ofold map].
    - intros [= <-]. now rewrite app_nil_r.
    - destruct (JSONField_field (Some registry) field) as [f|e|] eqn:E;
        cbn [obind]; try discriminate.
      intros H. apply IH in H. rewrite H, map_app. cbn [map]. rewrite <- app_assoc.
      cbn [app]. repeat f_equal.
      unfold JSONField_field in E. destruct (ref_match (type field)) as [[kind n]|].
      + destruct (JSONRegistry_getitem registry n) as [item|e|]; cbn [obind] in E;
          try discriminate.
        destruct (type_attribute item "table_name"); cbn [obind] in E; try discriminate.
        now injection E as <-.
      + now injection E as <-. }
  intros l H. now apply G in H.
Qed.

Lemma table_fields_plain registry ty db fs field :
  table_fields registry ty db = Return fs ->
  In field (dvalues (known_fields ty db)) ->
  ref_match (type field) = None ->
  In (column_name field, type field) fs.
Proof.
  unfold table_fields. generalize (dvalues (known_fields ty db)) as l.
  assert (G : forall l acc,
             ofold (fun fs field =>
                      obind (JSONField_field (Some registry) field)
                            (fun f => Return (fs ++ [f]))) l acc = Return fs ->
             (forall p, In p acc -> In p fs) /\
             (In field l -> ref_match (type field) = None ->
              In (column_name field, type field) fs)).
  { induction l as [|f0 l IH]; intros acc; cbn [ofold].
    - intros [= <-]. split; [auto|intros []].
    - destruct (JSONField_field (Some registry) f0) as [f|e|] eqn:E;
        cbn [obind]; try discriminate.
      intros H. apply IH in H. destruct H as [Hacc Hin]. split.
      + intros p Hp. apply Hacc. apply in_or_app. now left.
      + intros [->|Hl] Hr; [|now apply Hin].
        apply Hacc. apply in_or_app. right. left.
        unfold JSONField_field in E. rewrite Hr in E. now injection E as <-. }
  intros l H. now apply G in H.
Qed.

(** After a schema extension that returned, every field of the documents
    with a value other than [None] is known (the id apart). *)
Lemma extend_schema_doc_known registry ty d db db1 f v :
  extend_schema registry ty (discovery_of_doc d) db = (Return tt, db1) ->
  dget f d = Some v -> is_None v = false -> f <> "id" ->
  dmem f (known_fields ty db1) = true.
Proof.
  intros H Hf Hv Hid. rewrite extend_schema_run in H. unfold discovery_of_doc in H.
  set (m := _find_extra_types (known_fields ty db) [] d) in *.
  assert (Hnd : NoDup (dkeys m)) by (apply NoDup_find_extra_types; constructor).
  assert (Hm : dmem f (known_fields ty db) = false -> dmem f m = true).
  { intros Hcf. unfold dmem, m. rewrite find_extra_types_get by assumption.
    unfold record_kinds. now rewrite Hf, Hv. }
  destruct (dmem f (known_fields ty db)) eqn:Hcf.
  - destruct (infer_db_types m) eqn:Ei.
    + now injection H as <-.
    + rewrite redefine_table_run in H.
      destruct (table_fields registry ty _) as [fs|e|]; try discriminate.
      unfold define_table in H. injection H as <-.
      rewrite known_fields_mem in *. cbn [json_type_registry].
      change (catalog_has _ (name ty) f)
        with (catalog_has (with_catalog (catalog_rows ty m) db) (name ty) f).
      rewrite catalog_has_app. apply orb_true_iff in Hcf.
      destruct Hcf as [-> | ->]; [reflexivity|]. now rewrite !orb_true_r.
  - specialize (Hm eq_refl).
    destruct (infer_db_types m) eqn:Ei.
    + rewrite infer_db_types_map in Ei by exact Hnd.
      destruct m; [discriminate|discriminate].
    + rewrite redefine_table_run in H.
      destruct (table_fields registry ty _) as [fs|e|]; try discriminate.
      unfold define_table in H. injection H as <-.
      rewrite known_fields_mem. cbn [json_type_registry].
      change (catalog_has _ (name ty) f)
        with (catalog_has (with_catalog (catalog_rows ty m) db) (name ty) f).
      rewrite catalog_has_app, catalog_rows_has by exact Hnd.
      rewrite Hm. now rewrite !orb_true_r.
Qed.

Lemma for_each_inv_state (A B : Type) (P : B -> DAL -> Prop) (body : B -> A -> M B)
    l acc db r db' :
  (forall acc x db acc' db',
     In x l -> P acc db -> body acc x db = (Return acc', db') -> P acc' db') ->
  P acc db -> for_each body l acc db = (Return r, db') -> P r db'.
Proof.
  revert acc db. induction l as [|x l IH]; intros acc db Hbody Hacc; cbn [for_each].
  - unfold ret. now intros [= <- <-].
  - intros H. apply bind_inv in H. destruct H as [acc' [db1 [H1 H2]]].
    eapply IH; [| |exact H2].
    + intros a y d a' d' Hy. apply Hbody. now right.
    + eapply Hbody; [now left|exact Hacc|exact H1].
Qed.

Lemma known_fields_catalog_only ty db db' :
  json_type_registry db = json_type_registry db' ->
  known_fields ty db = known_fields ty db'.
Proof. intros H. unfold known_fields. now rewrite H. Qed.

Lemma infer_db_type_plain types : ref_match (infer_db_type types) = None.
Proof.
  rewrite infer_db_type_table.
  destruct types as [|t [|t' rest]]; [reflexivity| |]; destruct t; reflexivity.
Qed.

Lemma catalog_type_app rows db n f :
  catalog_has db n f = false ->
  catalog_type (with_catalog rows db) n f =
  option_map r_db_type
    (find (fun r => String.eqb (r_type r) n && String.eqb (r_fieldname r) f) rows).
Proof.
  unfold catalog_has, catalog_type, with_catalog. cbn [json_type_registry].
  induction (json_type_registry db) as [|r cat IH]; [reflexivity|].
  cbn [existsb find app].
  destruct (String.eqb (r_type r) n && String.eqb (r_fieldname r) f); [discriminate|].
  exact IH.
Qed.

Lemma catalog_rows_type ty (missing_fields : dict (list pytype)) f :
  NoDup (dkeys missing_fields) ->
  option_map r_db_type
    (find (fun r => String.eqb (r_type r) (name ty) && String.eqb (r_fieldname r) f)
          (catalog_rows ty missing_fields))
  = option_map infer_db_type (dget f missing_fields).
Proof.
  intros Hnd. unfold catalog_rows. rewrite infer_db_types_map by exact Hnd.
  rewrite map_map. cbn [fst snd]. clear Hnd.
  induction missing_fields as [|[k types] m IH]; [reflexivity|].
  cbn [map find r_type r_fieldname fst snd dget]. rewrite String.eqb_refl. cbn [andb].
  rewrite String.eqb_sym. destruct (String.eqb f k); [reflexivity|exact IH].
Qed.

(** The extension of the schema for a document with a new field: the
    catalog takes the rows of the missing fields, and the table is defined
    again with the columns of every known field; its records stay. *)
Lemma extend_schema_new_field registry ty d db db1 f v :
  extend_schema registry ty (discovery_of_doc d) db = (Return tt, db1) ->
  dget f d = Some v -> is_None v = false -> f <> "id" ->
  dmem f (known_fields ty db) = false ->
  let missing_fields := _find_extra_types (known_fields ty db) [] d in
  let rows := catalog_rows ty missing_fields in
  exists fs,
    table_fields registry ty db1 = Return fs
    /\ db1 = mkDAL (dset (table_name ty)
                      (mkTable (("id", "id") :: fs)
                         match dget (table_name ty) (tables db) with
                         | Some t => records t
                         | None => []
                         end)
                      (tables db))
                   (json_type_registry db ++ rows)
                   (calls db ++ [Cregistry_bulk_insert rows; Cdefine_table (table_name ty) fs])
    /\ In (f, storage_type_of_kinds [type_of v]) fs.
Proof.
  intros H Hf Hv Hid Hnew m rows.
  assert (Hnd : NoDup (dkeys m)) by (apply NoDup_find_extra_types; constructor).
  assert (Hm : dget f m = Some [type_of v]).
  { unfold m. rewrite find_extra_types_get by assumption.
    unfold record_kinds. now rewrite Hf, Hv. }
  rewrite extend_schema_run in H. unfold discovery_of_doc in H. fold m in H.
  destruct (infer_db_types m) eqn:Ei.
  { rewrite infer_db_types_map in Ei by exact Hnd. destruct m; discriminate. }
  rewrite redefine_table_run in H. fold rows in H.
  destruct (table_fields registry ty (with_catalog rows db)) as [fs|e|] eqn:Et;
    try discriminate.
  unfold define_table in H. injection H as <-. cbn [tables json_type_registry calls with_catalog].
  exists fs. split; [|split].
  - rewrite <- Et. unfold table_fields.
    now rewrite (@known_fields_catalog_only ty _ (with_catalog rows db)).
  - now rewrite <- app_assoc.
  - assert (Hk : dget f (known_fields ty (with_catalog rows db))
                 = Some (JSONField_new f (infer_db_type [type_of v]))).
    { rewrite known_fields_get. rewrite known_fields_mem in Hnew.
      apply orb_false_iff in Hnew. destruct Hnew as [Hdecl Hcat].
      unfold dmem in Hdecl. destruct (dget f (fields_by_name ty)); [discriminate|].
      rewrite catalog_type_app by exact Hcat. unfold rows.
      rewrite catalog_rows_type by exact Hnd. now rewrite Hm. }
    apply In_dvalues in Hk.
    eapply table_fields_plain in Hk; [|exact Et|apply infer_db_type_plain].
    cbn [JSONField_new column_name type] in Hk. now rewrite infer_db_type_table in Hk.
Qed.

(** ** The row of a document and the columns of its table *)

Lemma row_keys_in_columns lib registry s b ty context d db row db' cols :
  data context = Some d ->
  columns_of db (table_name ty) = Some cols ->
  (forall c v, dget c d = Some v -> is_None v = false ->
     dmem c (fields_by_name ty) = false -> In c cols) ->
  (forall field, In field (fields ty) -> In (column_name field) cols) ->
  _create_row_dict lib registry s b ty context db = (Return row, db') ->
  forall c, In c (dkeys row) -> In c cols.
Proof.
  intros Hdata Hcols Hpass Hdecl. unfold _create_row_dict. rewrite Hdata.
  intros H. apply bind_inv in H. destruct H as [row0 [db0 [H0 H1]]].
  apply (for_each_inv_state
           (fun (r : AttrDict) db1 => db1 = db /\ forall c, In c (dkeys r) -> In c cols))
    in H0.
  - destruct H0 as [_ H0]. revert H1.
    apply (for_each_inv (fun r : AttrDict => forall c, In c (dkeys r) -> In c cols));
      [|exact H0].
    intros acc field db1 acc' db1' Hin Hacc Hstep.
    apply set_field_inv in Hstep. destruct Hstep as [->|[v ->]]; [exact Hacc|].
    intros c Hc. apply In_dkeys_dset in Hc. destruct Hc as [->|Hc]; [now apply Hdecl|now apply Hacc].
  - intros acc x db1 acc' db1' Hin [-> Hacc] Hstep.
    apply passthrough_inv in Hstep.
    destruct Hstep as [-> [->|[Hnd [v [Hv [-> Hwhy]]]]]]; [now split|].
    split; [reflexivity|]. intros c Hc. apply In_dkeys_dset in Hc.
    destruct Hc as [->|Hc]; [|now apply Hacc].
    destruct Hwhy as [Hnn|[cols' [Hc' Hin']]].
    + eapply Hpass; eassumption.
    + rewrite Hcols in Hc'. injection Hc' as <-. now apply str_in_In.
  - split; [reflexivity|intros c []].
Qed.

Lemma passthrough_value lib registry s b ty context d db row db' f v :
  data context = Some d ->
  dget f d = Some v -> is_None v = false ->
  dmem f (fields_by_name ty) = false ->
  (forall field, In field (fields ty) -> column_name field <> f) ->
  _create_row_dict lib registry s b ty context db = (Return row, db') ->
  dget f row = Some v.
Proof.
  intros Hdata Hf Hv Hnd Hcol. unfold _create_row_dict. rewrite Hdata.
  intros H. apply bind_inv in H. destruct H as [row0 [db0 [H0 H1]]].
  assert (Hrow0 : dget f row0 = Some v).
  { assert (Hin : In f (dkeys d)) by (apply dmem_In; unfold dmem; now rewrite Hf).
    apply in_split in Hin. destruct Hin as [l1 [l2 Hsplit]].
    rewrite Hsplit, for_each_app in H0.
    apply bind_inv in H0. destruct H0 as [row1 [db1 [_ H0]]].
    cbn [for_each] in H0. apply bind_inv in H0. destruct H0 as [row2 [db2 [Hstep H0]]].
    apply (for_each_inv (fun r : AttrDict => dget f r = Some v)) in H0; [exact H0| |].
    - intros acc x dbx acc' dbx' _ Hacc Hx. apply passthrough_inv in Hx.
      destruct Hx as [_ [->|[_ [w [Hw [-> _]]]]]]; [exact Hacc|].
      rewrite dget_dset. destruct (String.eqb f x) eqn:E; [|exact Hacc].
      apply String.eqb_eq in E. subst x. congruence.
    - unfold passthrough in Hstep. rewrite Hnd, Hf, Hv in Hstep. cbn [negb] in Hstep.
      unfold ret in Hstep. injection Hstep as <- _. apply dget_dset_same. }
  apply (for_each_inv (fun r : AttrDict => dget f r = Some v)) in H1; [exact H1| |exact Hrow0].
  intros acc field dbx acc' dbx' Hin Hacc Hx. apply set_field_inv in Hx.
  destruct Hx as [->|[w ->]]; [exact Hacc|].
  rewrite dget_dset_other; [exact Hacc|]. intros E. now apply (Hcol field Hin).
Qed.

Lemma find_none (A : Type) (p : A -> bool) l :
  (forall x, In x l -> p x = false) -> find p l = None.
Proof.
  induction l as [|x l IH]; intros H; [reflexivity|]. cbn [find].
  rewrite (H x) by now left. apply IH. intros y Hy. apply H. now right.
Qed.

Lemma insert_into_new (t : Table) (row : AttrDict) idv k :
  (forall c, In c (dkeys row) -> In c (row_columns t)) ->
  dget "id" row = Some idv -> key_of idv = Some k ->
  find_record k (records t) = None ->
  insert_into t row = Return (mkTable (tfields t) (records t ++ [(k, row)])).
Proof.
  intros Hcols Hid Hk Hnew. unfold insert_into.
  rewrite find_none.
  - rewrite Hid. destruct idv; try discriminate; now rewrite Hk, Hnew.
  - intros c Hc. apply Hcols, str_in_In in Hc. now rewrite Hc.
Qed.

(** ** A document with a new field *)




(** ** Syncing a document again *)

Lemma find_extra_types_nil (current_fields : dict JSONField) (d : AttrDict) :
  (forall f v, dget f d = Some v -> is_None v = false -> f <> "id" ->
               dmem f current_fields = true) ->
  _find_extra_types current_fields [] d = [].
Proof.
  intros H. unfold _find_extra_types. induction (dkeys d) as [|k ks IH]; [reflexivity|].
  cbn [fold_left]. destruct (dmem k current_fields) eqn:Ek; [exact IH|].
  destruct (String.eqb k "id") eqn:Eid; [exact IH|].
  destruct (dget k d) as [v|] eqn:Ev; [|exact IH].
  destruct (is_None v) eqn:En; [exact IH|].
  apply String.eqb_neq in Eid. rewrite (H k v Ev En Eid) in Ek. discriminate.
Qed.

Lemma write_row_inv ty row db db1 idv k :
  write_row ty row db = (Return tt, db1) ->
  dget "id" row = Some idv -> key_of idv = Some k ->
  exists t,
    dget (table_name ty) (tables db) = Some t
    /\ ((exists r, find_record k (records t) = Some r
                   /\ db1 = after_update (table_name ty) t k (update_payload ty t row) db)
        \/ (find_record k (records t) = None
            /\ db1 = after_insert (table_name ty) t k row db)).
Proof.
  intros H Hid Hk. unfold write_row in H.
  destruct (dget (table_name ty) (tables db)) as [t|] eqn:Et.
  - exists t. split; [reflexivity|].
    destruct (find_record k (records t)) as [r|] eqn:Er.
    + left. exists r. split; [reflexivity|].
      erewrite bind_Return in H by (eapply update_row_found; eassumption).
      unfold ret in H. now injection H as <-.
    + right. split; [reflexivity|].
      erewrite bind_Return in H by (eapply update_row_absent; eassumption).
      cbn beta iota in H.
      rewrite (@insert_run (table_name ty) row db t Et) in H.
      unfold insert_into in H.
      destruct (find _ (dkeys row)); [discriminate|].
      rewrite Hid in H. destruct idv; try discriminate; rewrite Hk, Er in H;
        now injection H as <-.
  - unfold _update_row in H. rewrite bind_assoc in H.
    unfold bind at 1, get_table in H. rewrite Et in H. discriminate.
Qed.

Lemma sync_direct_inv lib registry ty obj partial db row db1 :
  let d := AttrDict_new obj in
  let context := Context_new None (name ty) (Some d) None partial in
  direct ty d = true ->
  sync lib registry ty obj partial db = (Return row, db1) ->
  exists dbe,
    extend_schema registry ty (discovery_of_doc d) db = (Return tt, dbe)
    /\ built_row lib registry ty context dbe = Return row
    /\ write_row ty row dbe = (Return tt, db1).
Proof.
  intros d context Hdirect H. unfold sync in H. fold d in H. fold context in H.
  rewrite (@sync_unfold lib registry _ ty context d db eq_refl) in H.
  apply bind_inv in H. destruct H as [[] [dbe [Hext H]]].
  apply bind_inv in H. destruct H as [row' [dbe' [Hrow H]]].
  apply bind_inv in H. destruct H as [[] [db1' [Hwrite H]]].
  unfold ret in H. injection H as <- <-.
  rewrite (@create_row_dict_direct lib registry _ _ ty context d dbe Hdirect eq_refl) in Hrow.
  injection Hrow as Hrow <-.
  exists dbe. auto.
Qed.

Lemma sync_direct_run lib registry ty obj partial db row dbe db1 :
  let d := AttrDict_new obj in
  let context := Context_new None (name ty) (Some d) None partial in
  direct ty d = true ->
  extend_schema registry ty (discovery_of_doc d) db = (Return tt, dbe) ->
  built_row lib registry ty context dbe = Return row ->
  write_row ty row dbe = (Return tt, db1) ->
  sync lib registry ty obj partial db = (Return row, db1).
Proof.
  intros d context Hdirect Hext Hrow Hwrite. unfold sync. fold d. fold context.
  rewrite (@sync_unfold lib registry _ ty context d db eq_refl).
  erewrite bind_Return by exact Hext.
  erewrite bind_Return
    by (rewrite (@create_row_dict_direct lib registry _ _ ty context d dbe Hdirect eq_refl);
        now rewrite Hrow).
  erewrite bind_Return by exact Hwrite. reflexivity.
Qed.

(** An update whose values the record already reads changes no reading. *)
Lemma read_field_settled k (nf r : AttrDict) f :
  NoDup (dkeys nf) ->
  (forall c v, dget c nf = Some v ->
               match dget c r with Some w => w | None => VNone end = v) ->
  read_field k (write_fields nf r) f = read_field k r f.
Proof.
  intros Hnd Hset. unfold read_field.
  destruct (String.eqb (snd f) "id"); [reflexivity|].
  rewrite dget_write_fields by exact Hnd.
  destruct (dget (fst f) nf) as [v|] eqn:E; [|reflexivity].
  now rewrite (Hset _ _ E).
Qed.

Lemma read_record_settled (t : Table) k (fs : AttrDict) :
  NoDup (dkeys fs) ->
  (forall r c v, find_record k (records t) = Some r ->
     str_in c (row_columns t) = true -> is_id_field t c = false -> dget c fs = Some v ->
     match dget c r with Some w => w | None => VNone end = v) ->
  forall k', read_record (updated_table t k fs) k' = read_record t k'.
Proof.
  intros Hnd Hset k'. unfold read_record, updated_table. cbn [records tfields].
  destruct (Z.eq_dec k' k) as [->|Hne].
  - rewrite find_record_set_record_same.
    destruct (find_record k (records t)) as [r|] eqn:Er; [|reflexivity].
    cbn [option_map]. f_equal. apply map_ext. intros f. f_equal.
    apply read_field_settled; [now apply NoDup_dkeys_filter|].
    intros c v Hc.
    rewrite (dget_filter_key (fun c => str_in c (row_columns t) && negb (is_id_field t c)))
      in Hc.
    destruct (str_in c (row_columns t)) eqn:Ecol; [|discriminate].
    destruct (is_id_field t c) eqn:Eid; [discriminate|]. cbn [andb negb] in Hc.
    eapply Hset; [reflexivity|exact Ecol|exact Eid|exact Hc].
  - now rewrite find_record_set_record_other.
Qed.

Lemma find_record_app k recs recs' :
  find_record k (recs ++ recs') =
  match find_record k recs with
  | Some r => Some r
  | None => find_record k recs'
  end.
Proof.
  induction recs as [|[k' r] recs IH]; [reflexivity|]. cbn [app find_record].
  destruct (k =? k'); [reflexivity|exact IH].
Qed.

Lemma update_payload_NoDup ty t (row : AttrDict) :
  NoDup (dkeys row) -> NoDup (dkeys (update_payload ty t row)).
Proof.
  intros H. unfold update_payload.
  destruct (remove_missing_fields ty); [now apply NoDup_null_fill|exact H].
Qed.

Lemma update_payload_get ty t (row : AttrDict) c v :
  NoDup (dkeys row) ->
  dget c (update_payload ty t row) = Some v ->
  match dget c row with Some w => w | None => VNone end = v.
Proof.
  intros Hnd. unfold update_payload. destruct (remove_missing_fields ty).
  - rewrite dget_null_fill by exact Hnd.
    destruct (dget c row); [now intros [= <-]|].
    destruct (str_in c (row_columns t)); [now intros [= <-]|discriminate].
  - intros H. now rewrite H.
Qed.

Lemma update_payload_columns ty t t' (row : AttrDict) :
  tfields t' = tfields t -> update_payload ty t' row = update_payload ty t row.
Proof. intros H. unfold update_payload, row_columns. now rewrite H. Qed.




(** ** Bulk sync *)

Lemma enumerate_map (A B : Type) (f : A -> B) (l : list A) :
  enumerate (map f l) = map (fun io => (fst io, f (snd io))) (enumerate l).
Proof.
  unfold enumerate. rewrite length_map. generalize 0%nat as start.
  induction l as [|x l IH]; intros start; [reflexivity|].
  cbn [List.length List.seq combine map fst snd]. now rewrite IH.
Qed.

Lemma row_key_Some r k :
  row_key r = Some k -> exists idv, dget "id" r = Some idv /\ key_of idv = Some k.
Proof. unfold row_key. destruct (dget "id" r) as [idv|]; [eauto|discriminate]. Qed.

Lemma find_record_set_record_None k k' f recs :
  find_record k' (set_record k f recs) = None <-> find_record k' recs = None.
Proof.
  destruct (Z.eq_dec k' k) as [->|Hne].
  - rewrite find_record_set_record_same. now destruct (find_record k recs).
  - now rewrite find_record_set_record_other.
Qed.

Lemma stored_iff te t r k :
  row_key r = Some k ->
  (forall k, find_record k (records t) = None <-> find_record k (records te) = None) ->
  stored te r = match find_record k (records t) with Some _ => true | None => false end.
Proof.
  intros Hk Hiff. unfold stored. rewrite Hk. specialize (Hiff k).
  destruct (find_record k (records t)), (find_record k (records te)); try reflexivity.
  - destruct Hiff as [_ H]. now specialize (H eq_refl).
  - destruct Hiff as [H _]. now specialize (H eq_refl).
Qed.

(** One round of the loop, for a document without nested documents. *)
Lemma bulk_item_step lib registry s b ty context st i o te dbe done db r k :
  loop_state ty te dbe done db ->
  dget (table_name ty) (tables dbe) = Some te ->
  direct ty (AttrDict_new o) = true ->
  built_row lib registry ty (set_item context (Z.of_nat i) (AttrDict_new o)) dbe = Return r ->
  row_key r = Some k ->
  exists db',
    bulk_item lib registry s b ty context st (i, VDict o) db =
    (Return (if stored te r then fst st else fst st ++ [r], snd st ++ [r]), db')
    /\ loop_state ty te dbe (done ++ [r]) db'.
Proof.
  intros [t [Ht [Htf [Hiff Hcalls]]]] Hte Hdirect Hrow Hk.
  destruct (row_key_Some _ Hk) as [idv [Hid Hkey]].
  unfold bulk_item. cbn [snd fst AttrDict_of_value]. rewrite bind_lift_Return.
  set (context' := set_item context (Z.of_nat i) (AttrDict_new o)) in *.
  assert (Hcreate : _create_row_dict lib registry s b ty context' db = (Return r, db)).
  { rewrite (@create_row_dict_direct lib registry s b ty context' (AttrDict_new o) db
               Hdirect eq_refl).
    rewrite <- Hrow. f_equal.
    apply (@built_row_columns lib registry ty context' (AttrDict_new o) db dbe Hdirect eq_refl).
    unfold columns_of. rewrite Ht, Hte. cbn [option_map]. unfold row_columns. now rewrite Htf. }
  erewrite bind_Return by exact Hcreate.
  rewrite (stored_iff te t r Hk Hiff).
  destruct (find_record k (records t)) as [r0|] eqn:Er.
  - erewrite bind_Return by (eapply update_row_found; eassumption).
    eexists. split; [reflexivity|].
    exists (updated_table t k (update_payload ty t r)). unfold after_update.
    cbn [tables calls]. rewrite dget_dset_same. repeat split.
    + exact Htf.
    + unfold updated_table. cbn [records]. intros H.
      apply Hiff. now apply find_record_set_record_None in H.
    + unfold updated_table. cbn [records]. intros H.
      apply find_record_set_record_None. now apply Hiff.
    + rewrite Hcalls, filter_app, map_app, <- app_assoc. f_equal. f_equal.
      cbn [filter]. rewrite (stored_iff te t r Hk Hiff), Er. cbn [map].
      unfold update_call. rewrite Hk.
      now rewrite (@update_payload_columns ty te t r Htf).
  - erewrite bind_Return by (eapply update_row_absent; eassumption).
    eexists. split; [reflexivity|].
    exists t. repeat split; try assumption; try apply Hiff.
    rewrite Hcalls, filter_app. cbn [filter].
    rewrite (stored_iff te t r Hk Hiff), Er. now rewrite app_nil_r.
Qed.

(** The whole loop. *)
Lemma bulk_loop lib registry s b ty context te dbe :
  dget (table_name ty) (tables dbe) = Some te ->
  forall ios rows,
    Forall2 (fun (io : nat * list (string * value)) r =>
               direct ty (AttrDict_new (snd io)) = true
               /\ built_row lib registry ty
                    (set_item context (Z.of_nat (fst io)) (AttrDict_new (snd io))) dbe
                  = Return r
               /\ row_key r <> None) ios rows ->
    forall done db,
      loop_state ty te dbe done db ->
      exists db',
        for_each (bulk_item lib registry s b ty context)
                 (map (fun io => (fst io, VDict (snd io))) ios)
                 (filter (fun r => negb (stored te r)) done, done) db
        = (Return (filter (fun r => negb (stored te r)) (done ++ rows), done ++ rows), db')
        /\ loop_state ty te dbe (done ++ rows) db'.
Proof.
  intros Hte ios rows HF. induction HF as [|[i o] r ios rows [Hd [Hr Hk]] HF IH];
    intros done db Hst.
  - exists db. rewrite app_nil_r. split; [reflexivity|exact Hst].
  - cbn [map for_each fst snd] in *.
    destruct (row_key r) as [k|] eqn:Ek; [|congruence].
    destruct (@bulk_item_step lib registry s b ty context
                (filter (fun r => negb (stored te r)) done, done)
                i o te dbe done db r k Hst Hte Hd Hr Ek) as [db1 [Hstep Hst1]].
    erewrite bind_Return by exact Hstep. cbn [fst snd].
    destruct (IH (done ++ [r]) db1 Hst1) as [db' [Hloop Hst']].
    exists db'. rewrite <- app_assoc in Hloop, Hst'. cbn [app] in Hloop, Hst'.
    split; [|exact Hst'].
    rewrite <- Hloop. f_equal. f_equal.
    rewrite filter_app. cbn [filter].
    destruct (stored te r); cbn [negb]; [now rewrite app_nil_r|reflexivity].
Qed.

Lemma insert_one_run tablename fs db t u :
  dget tablename (tables db) = Some t ->
  insert_one tablename u fs db =
  match insert_into t fs with
  | Return t' =>
      (Return tt, mkDAL (dset tablename t' (tables db)) (json_type_registry db) (calls db))
  | Raise e => (Raise e, db)
  | Beyond => (Beyond, db)
  end.
Proof.
  intros H. unfold insert_one, bind, get_table, put_table, lift. rewrite H.
  destruct (insert_into t fs); reflexivity.
Qed.

Lemma insert_one_calls tablename fs db u :
  calls (snd (insert_one tablename u fs db)) = calls db.
Proof.
  unfold insert_one, bind, get_table, put_table, lift.
  destruct (dget tablename (tables db)) as [t|]; [|reflexivity].
  destruct (insert_into t fs); reflexivity.
Qed.

Lemma insert_loop_calls tablename l db u :
  calls (snd (for_each (insert_one tablename) l u db)) = calls db.
Proof.
  revert db u. induction l as [|r l IH]; intros db u; [reflexivity|].
  cbn [for_each]. rewrite bind_run.
  pose proof (insert_one_calls tablename r db u) as Hc.
  destruct (insert_one tablename u r db) as [[[]|e|] db2]; cbn [fst snd] in *;
    [now rewrite IH|exact Hc|exact Hc].
Qed.

Lemma bulk_insert_run tablename rows db :
  bulk_insert tablename rows db =
  for_each (insert_one tablename) rows tt
    (mkDAL (tables db) (json_type_registry db) (calls db ++ [Cbulk_insert tablename rows])).
Proof. reflexivity. Qed.

Lemma bulk_insert_calls tablename rows db :
  calls (snd (bulk_insert tablename rows db)) = calls db ++ [Cbulk_insert tablename rows].
Proof. rewrite bulk_insert_run. now rewrite insert_loop_calls. Qed.

(** The DAL takes a bulk insert of rows with distinct new keys whose
    entries all name columns. *)
Lemma bulk_insert_accepts tablename rows db t :
  dget tablename (tables db) = Some t ->
  NoDup (map row_key rows) ->
  (forall r, In r rows -> exists k, row_key r = Some k /\ find_record k (records t) = None) ->
  (forall r c, In r rows -> In c (dkeys r) -> In c (row_columns t)) ->
  fst (bulk_insert tablename rows db) = Return tt.
Proof.
  intros Ht Hnd Hnew Hcols. rewrite bulk_insert_run.
  set (db0 := mkDAL _ _ _).
  assert (Ht0 : dget tablename (tables db0) = Some t) by exact Ht.
  clearbody db0. clear Ht. revert db0 t Ht0 Hnd Hnew Hcols.
  induction rows as [|r l IH]; intros db0 t Ht Hnd Hnew Hcols; [reflexivity|].
  cbn [for_each]. rewrite bind_run, (@insert_one_run tablename r db0 t tt Ht).
  destruct (Hnew r (or_introl eq_refl)) as [k [Hk Hfresh]].
  destruct (row_key_Some _ Hk) as [idv [Hid Hkey]].
  rewrite (@insert_into_new t r idv k (fun c => Hcols r c (or_introl eq_refl)) Hid Hkey Hfresh).
  cbn [fst snd]. inversion Hnd as [|? ? Hnotin Hnd']; subst.
  apply IH with (t := mkTable (tfields t) (records t ++ [(k, r)])).
  - cbn [tables]. apply dget_dset_same.
  - exact Hnd'.
  - intros r' Hr'. destruct (Hnew r' (or_intror Hr')) as [k' [Hk' Hfresh']].
    exists k'. split; [exact Hk'|]. cbn [records].
    rewrite find_record_app, Hfresh'. cbn [find_record].
    destruct (k' =? k) eqn:E; [|reflexivity].
    apply Z.eqb_eq in E. subst k'. exfalso. apply Hnotin. rewrite Hk, <- Hk'.
    now apply in_map.
  - intros r' c Hr' Hc. unfold row_columns. cbn [tfields]. apply (Hcols r' c); [now right|exact Hc].
Qed.

Lemma extend_schema_calls registry ty discovery db dbe :
  extend_schema registry ty discovery db = (Return tt, dbe) ->
  calls dbe = calls db
  \/ exists rows fs,
       calls dbe = calls db ++ [Cregistry_bulk_insert rows; Cdefine_table (table_name ty) fs].
Proof.
  rewrite extend_schema_run. destruct (discovery (known_fields ty db)) as [m|e|]; try discriminate.
  destruct (infer_db_types m).
  - intros [= <-]. now left.
  - rewrite redefine_table_run.
    destruct (table_fields registry ty _) as [fs|e|]; try discriminate.
    unfold define_table. intros [= <-]. right. exists (catalog_rows ty m), fs.
    cbn [calls with_catalog]. now rewrite <- app_assoc.
Qed.




(** ** The call log only grows *)

Lemma extends_calls_refl db : extends_calls db db.
Proof. exists []. now rewrite app_nil_r. Qed.

Lemma extends_calls_trans a b c :
  extends_calls a b -> extends_calls b c -> extends_calls a c.
Proof.
  intros [cs1 H1] [cs2 H2]. exists (cs1 ++ cs2). now rewrite H2, H1, app_assoc.
Qed.

Lemma keeps_run (R : DAL -> DAL -> Prop) (A : Type) (m : M A) db o db' :
  keeps R m -> m db = (o, db') -> R db db'.
Proof. intros Hk Hm. specialize (Hk db). now rewrite Hm in Hk. Qed.

Lemma extends_calls_log c : keeps extends_calls (log c).
Proof. intros db. now exists [c]. Qed.

Lemma extends_calls_put_table tablename t : keeps extends_calls (put_table tablename t).
Proof. intros db. exists []. cbn. now rewrite app_nil_r. Qed.

Lemma extends_calls_define_table tablename fs : keeps extends_calls (define_table tablename fs).
Proof. intros db. now exists [Cdefine_table tablename fs]. Qed.

Lemma extends_calls_registry_bulk_insert rows :
  keeps extends_calls (registry_bulk_insert rows).
Proof. intros db. now exists [Cregistry_bulk_insert rows]. Qed.

Create HintDb calls.
#[local] Hint Resolve extends_calls_refl extends_calls_trans : calls.

Ltac calls_bind :=
  apply (@keeps_bind extends_calls extends_calls_trans).

Lemma extends_calls_update_record tablename k fs :
  keeps extends_calls (update_record tablename k fs).
Proof.
  unfold update_record. calls_bind; [apply extends_calls_log|]. intros _.
  calls_bind; [apply keeps_get_table, extends_calls_refl|]. intros t.
  apply extends_calls_put_table.
Qed.

Lemma extends_calls_insert_one tablename u fs :
  keeps extends_calls (insert_one tablename u fs).
Proof.
  unfold insert_one.
  calls_bind; [apply keeps_get_table, extends_calls_refl|]. intros t.
  calls_bind; [apply keeps_lift, extends_calls_refl|]. intros t'.
  apply extends_calls_put_table.
Qed.

Lemma extends_calls_insert tablename fs : keeps extends_calls (insert tablename fs).
Proof.
  unfold insert. calls_bind; [apply extends_calls_log|]. intros u.
  apply (extends_calls_insert_one tablename tt fs).
Qed.

Lemma extends_calls_bulk_insert tablename rows :
  keeps extends_calls (bulk_insert tablename rows).
Proof.
  unfold bulk_insert. calls_bind; [apply extends_calls_log|]. intros u.
  apply keeps_for_each; [apply extends_calls_refl|apply extends_calls_trans|]. intros acc x Hx. apply extends_calls_insert_one.
Qed.

Lemma extends_calls_redefine_table registry ty :
  keeps extends_calls (JSONRegistry_redefine_table registry ty).
Proof.
  unfold JSONRegistry_redefine_table.
  calls_bind; [apply (@keeps_fields_by_name extends_calls extends_calls_refl extends_calls_trans)|]. intros fbn.
  calls_bind.
  - apply keeps_for_each; [apply extends_calls_refl|apply extends_calls_trans|]. intros acc x Hx.
    calls_bind; [apply keeps_lift, extends_calls_refl|]. intros f.
    apply keeps_ret, extends_calls_refl.
  - intros fs. apply extends_calls_define_table.
Qed.

Lemma extends_calls_extend_schema registry ty discovery :
  keeps extends_calls (extend_schema registry ty discovery).
Proof.
  unfold extend_schema.
  calls_bind; [apply (@keeps_fields_by_name extends_calls extends_calls_refl extends_calls_trans)|]. intros current_fields.
  calls_bind; [apply keeps_lift, extends_calls_refl|]. intros missing_fields.
  unfold _redefine_with_missing_fields, JSONRegistry_add_fields_to_type.
  destruct (infer_db_types missing_fields); [apply keeps_ret, extends_calls_refl|].
  calls_bind; [apply extends_calls_registry_bulk_insert|]. intros _.
  apply extends_calls_redefine_table.
Qed.

(** Every sync continues the log it finds. *)
Lemma extends_calls_engine lib registry fuel :
  (forall ty context, keeps extends_calls (_sync lib registry fuel ty context)) /\
  (forall ty context, keeps extends_calls (_bulk_sync lib registry fuel ty context)).
Proof.
  destruct (@keeps_engine extends_calls extends_calls_refl extends_calls_trans
              lib registry (fun _ => True)) with (fuel := fuel) as [Hs Hb].
  - auto.
  - intros. apply extends_calls_extend_schema.
  - intros. apply extends_calls_update_record.
  - intros. apply extends_calls_insert.
  - intros. apply extends_calls_bulk_insert.
  - split; auto.
Qed.

Lemma extends_calls_create_row_dict lib registry fuel ty context :
  keeps extends_calls
    (_create_row_dict lib registry (_sync lib registry fuel) (_bulk_sync lib registry fuel)
       ty context).
Proof.
  apply (@keeps_create_row_dict extends_calls extends_calls_refl extends_calls_trans
           lib registry (fun _ => True)); auto;
    intros; now apply extends_calls_engine.
Qed.

Lemma extends_calls_set_field lib registry fuel context d row field :
  keeps extends_calls
    (set_field lib registry (_sync lib registry fuel) (_bulk_sync lib registry fuel)
       context d row field).
Proof.
  apply (@keeps_set_field extends_calls extends_calls_refl extends_calls_trans
           lib registry (fun _ => True)); auto;
    intros; now apply extends_calls_engine.
Qed.

(** ** References *)

Lemma table_call_cases t idv :
  table_call t idv =
  if is_None idv then Return None
  else match key_of idv with
       | Some k => Return (match find_record k (records t) with
                           | Some _ => Some k
                           | None => None
                           end)
       | None => Beyond
       end.
Proof.
  destruct idv; cbn [table_call is_None]; try reflexivity;
    destruct (key_of _); try reflexivity; destruct (find_record _ _); reflexivity.
Qed.

Lemma long_key idv k : key_of idv = Some k -> long idv = Return (VLong k).
Proof.
  destruct idv; cbn; try discriminate; destruct (0 <=? _); congruence.
Qed.

Lemma long_None idv : is_None idv = true -> long idv = Raise TypeError.
Proof. destruct idv; cbn; try discriminate; reflexivity. Qed.

(** A row that was written has an [id]: [None], for an insert under a new
    id, or a key; the write is the last call of the log. *)
Lemma write_row_calls ty row db db1 :
  write_row ty row db = (Return tt, db1) ->
  exists idv w,
    dget "id" row = Some idv
    /\ (is_None idv = true \/ exists k, key_of idv = Some k)
    /\ writes_row ty row w
    /\ calls db1 = calls db ++ [w].
Proof.
  unfold write_row, _update_row. intros H.
  apply bind_inv in H. destruct H as [updated [dbu [Hu H]]].
  apply bind_inv in Hu. destruct Hu as [t [db0 [Ht Hu]]].
  unfold get_table in Ht. destruct (dget (table_name ty) (tables db)) as [t0|] eqn:Et;
    [|discriminate]. injection Ht as <- <-.
  apply bind_inv in Hu. destruct Hu as [idv [db0 [Hid Hu]]].
  apply lift_inv in Hid. destruct Hid as [Hid ->].
  unfold getitem in Hid. destruct (dget "id" row) as [idv0|] eqn:Eid; [|discriminate].
  injection Hid as ->.
  apply bind_inv in Hu. destruct Hu as [db_row [db0 [Hc Hu]]].
  apply lift_inv in Hc. destruct Hc as [Hc ->].
  rewrite table_call_cases in Hc.
  exists idv, (match db_row with
               | Some k => Cupdate_record (table_name ty) k (update_payload ty t0 row)
               | None => Cinsert (table_name ty) row
               end).
  split; [reflexivity|].
  destruct (is_None idv) eqn:En.
  - injection Hc as <-. injection Hu as <- <-.
    split; [now left|]. split; [now left|].
    rewrite (@insert_run _ row _ _ Et) in H.
    destruct (insert_into t0 row); [|discriminate|discriminate]. now injection H as <-.
  - destruct (key_of idv) as [k|] eqn:Ek; [|discriminate]. injection Hc as <-.
    split; [right; now exists k|].
    destruct (find_record k (records t0)) as [r|] eqn:Ef.
    + rewrite bind_run in Hu. rewrite (@update_record_run _ k _ _ _ Et) in Hu.
      cbn [fst snd ret] in Hu. injection Hu as <- <-. injection H as <-.
      split; [|reflexivity]. right. exists k, t0. unfold row_key. rewrite Eid. auto.
    + injection Hu as <- <-. split; [now left|].
      rewrite (@insert_run _ row _ _ Et) in H.
      destruct (insert_into t0 row); [|discriminate|discriminate]. now injection H as <-.
Qed.

Lemma sync_inv lib registry fuel ty context db row db' :
  _sync lib registry fuel ty context db = (Return row, db') ->
  exists f d db0 db1,
    fuel = S f /\ data context = Some d
    /\ extend_schema registry ty (discovery_of_doc d) db = (Return tt, db0)
    /\ _create_row_dict lib registry (_sync lib registry f) (_bulk_sync lib registry f)
         ty context db0 = (Return row, db1)
    /\ write_row ty row db1 = (Return tt, db').
Proof.
  destruct fuel as [|f]; [discriminate|].
  destruct (data context) as [d|] eqn:Hd.
  - rewrite (@sync_unfold lib registry f ty context d db Hd). intros H.
    apply bind_inv in H. destruct H as [[] [db0 [He H]]].
    apply bind_inv in H. destruct H as [row' [db1 [Hc H]]].
    apply bind_inv in H. destruct H as [[] [db2 [Hw H]]].
    injection H as <- <-. exists f, d, db0, db1. auto.
  - rewrite sync_no_data by exact Hd. discriminate.
Qed.

Lemma convert_temporal_reference lib field v :
  ref_match (type field) <> None -> convert_temporal lib field v = Return v.
Proof.
  intros H. unfold convert_temporal. now rewrite (ref_match_not_temporal _ H).
Qed.

(** The step of a [reference] field whose value is an integer. *)
Lemma reference_step_integer lib registry s b context d row field n item v db :
  compute field = None ->
  ref_match (type field) = Some ("reference", n) ->
  JSONRegistry_getitem registry n = Return item ->
  dget (fieldname field) d = Some v -> is_integer v = true ->
  set_field lib registry s b context d row field db
  = (Return (dset (column_name field) v row), db).
Proof.
  intros Hc Hm Hr Hv Hi. unfold set_field, dmem. rewrite Hc, Hv.
  rewrite andb_false_r.
  assert (Hn : is_None v = false) by (destruct v; try reflexivity; discriminate).
  rewrite Hn. cbv beta iota.
  rewrite convert_temporal_reference by (rewrite Hm; discriminate).
  rewrite Hm. unfold is_integer in Hi.
  unfold bind, lift, ret, resolve_reference. cbn [String.eqb Ascii.eqb Bool.eqb andb].
  unfold bind, lift, ret. rewrite Hr, Hi. reflexivity.
Qed.

(** The step of a [reference] field whose value is a nested document: the
    sync of the document, then the [id] of the row it returns. *)
Lemma reference_step_nested lib registry s b context d row field n ref_type o db :
  compute field = None ->
  ref_match (type field) = Some ("reference", n) ->
  JSONRegistry_getitem registry n = Return (ItemType ref_type) ->
  dget (fieldname field) d = Some (VDict o) ->
  set_field lib registry s b context d row field db
  = (child <- s ref_type (child_context context ref_type o) ;;
     id <- lift (getitem child "id") ;;
     i <- lift (long id) ;;
     ret (dset (column_name field) i row)) db.
Proof.
  intros Hc Hm Hr Hv. unfold set_field, dmem. rewrite Hc, Hv.
  rewrite andb_false_r. cbn [is_None]. cbv beta iota.
  rewrite convert_temporal_reference by (rewrite Hm; discriminate).
  rewrite Hm.
  unfold bind, lift, ret, resolve_reference. cbn [String.eqb Ascii.eqb Bool.eqb andb].
  unfold bind, lift, ret. rewrite Hr. cbn [type_of AttrDict_of_value type_attribute].
  change (negb (type_in dict_ [int_; long_])) with true. cbv beta iota.
  fold (child_context context ref_type o).
  destruct (s ref_type (child_context context ref_type o) db) as [[child|e|] db1];
    [|reflexivity|reflexivity].
  destruct (getitem child "id") as [id|e|]; [|reflexivity|reflexivity].
  destruct (long id); reflexivity.
Qed.

(** The later fields of a type leave the column of a field as it is. *)
Lemma later_fields_keep_column lib registry s b context d col post :
  ~ In col (map column_name post) ->
  forall row db r db',
    for_each (set_field lib registry s b context d) post row db = (Return r, db') ->
    dget col r = dget col row.
Proof.
  intros Hnot row db r db'.
  apply (for_each_inv (fun r => dget col r = dget col row)); [|reflexivity].
  intros acc x dbx acc' dbx' Hx Hacc Hstep.
  apply set_field_inv in Hstep. destruct Hstep as [->|[v ->]]; [exact Hacc|].
  rewrite dget_dset_other; [exact Hacc|].
  intros ->. apply Hnot. now apply in_map.
Qed.

Lemma run_extends_calls (A : Type) (m : M A) db o db' :
  keeps extends_calls m -> m db = (o, db') -> exists cs, calls db' = calls db ++ cs.
Proof. intros Hk Hm. change (extends_calls db db'). eapply keeps_run; eassumption. Qed.

Lemma child_row_key child idv i :
  dget "id" child = Some idv ->
  is_None idv = true \/ (exists k, key_of idv = Some k) ->
  long idv = Return i ->
  exists k, row_key child = Some k /\ i = VLong k.
Proof.
  intros Hid [Hn|[k Hk]] Hl.
  - rewrite (long_None _ Hn) in Hl. discriminate.
  - exists k. unfold row_key. rewrite Hid. split; [exact Hk|].
    rewrite (long_key _ Hk) in Hl. now injection Hl as <-.
Qed.

(** ** List references *)

Lemma list_set_app (A : Type) (pre : list A) x y rest :
  list_set (List.length pre) x (pre ++ y :: rest) = Some (pre ++ x :: rest).
Proof.
  induction pre as [|a pre IH]; [reflexivity|]. cbn [List.length app list_set].
  now rewrite IH.
Qed.

Lemma length_snoc (A : Type) (l : list A) x : List.length (l ++ [x]) = S (List.length l).
Proof. rewrite length_app. cbn. lia. Qed.

Lemma snoc_app (A : Type) (l : list A) x l' : l ++ x :: l' = (l ++ [x]) ++ l'.
Proof. now rewrite <- app_assoc. Qed.

(** The loop of [split_items], from any place of the list on. *)
Lemma split_loop items :
  forall pre sq indexes,
    ofold (fun (st : list value * list value * list nat) (ix : nat * value) =>
             let '(ids, sq, indexes) := st in
             if type_in (type_of (snd ix)) [int_; long_] then
               obind (setitem_list (fst ix) (snd ix) ids)
                     (fun ids' => Return (ids', sq, indexes))
             else Return (ids, sq ++ [snd ix], indexes ++ [fst ix]))
          (combine (List.seq (List.length pre) (List.length items)) items)
          (pre ++ repeat VNone (List.length items), sq, indexes)
    = Return (pre ++ splice_back items [], sq ++ documents items,
              indexes ++ positions (List.length pre) items).
Proof.
  induction items as [|x items IH]; intros pre sq indexes.
  - cbn. now rewrite !app_nil_r.
  - cbn [List.length List.seq combine ofold repeat fst snd splice_back documents filter
         positions].
    fold (is_integer x). fold (documents items).
    destruct (is_integer x) eqn:Ei; cbn [negb].
    + unfold setitem_list. rewrite list_set_app. cbn [obind].
      rewrite (snoc_app pre x (repeat VNone (List.length items))).
      rewrite <- (length_snoc pre x). rewrite IH. now rewrite <- !app_assoc.
    + cbn [obind].
      rewrite (snoc_app pre VNone (repeat VNone (List.length items))).
      rewrite <- (length_snoc pre VNone). rewrite IH. now rewrite <- !app_assoc.
Qed.

Lemma split_items_spec items :
  split_items items = Return (splice_back items [], documents items, positions 0 items).
Proof. exact (split_loop items [] [] []). Qed.

Lemma positions_length items : forall start,
  List.length (positions start items) = List.length (documents items).
Proof.
  induction items as [|x items IH]; intros start; [reflexivity|].
  cbn [positions documents filter]. fold (documents items).
  destruct (is_integer x); cbn [negb List.length]; now rewrite IH.
Qed.

Lemma splice_back_integers items ids :
  documents items = [] -> splice_back items ids = items.
Proof.
  induction items as [|x items IH]; [reflexivity|].
  cbn [documents filter splice_back]. fold (documents items).
  destruct (is_integer x); cbn [negb]; [|discriminate]. intros H. now rewrite IH.
Qed.

(** One more identifier, written at the place of its document. *)
Lemma splice_step items :
  forall pre ids x p,
    nth_error (positions (List.length pre) items) (List.length ids) = Some p ->
    list_set p x (pre ++ splice_back items ids) = Some (pre ++ splice_back items (ids ++ [x])).
Proof.
  induction items as [|x0 items IH]; intros pre ids x p Hp.
  - cbn in Hp. destruct (List.length ids); discriminate.
  - cbn [positions splice_back] in *. destruct (is_integer x0).
    + rewrite <- (length_snoc pre x0) in Hp.
      rewrite (snoc_app pre x0 _), (snoc_app pre x0 (splice_back items (ids ++ [x]))).
      now apply IH.
    + destruct ids as [|i ids]; cbn [List.length nth_error app] in *.
      * injection Hp as <-. apply list_set_app.
      * rewrite <- (length_snoc pre i) in Hp.
        rewrite (snoc_app pre i _), (snoc_app pre i (splice_back items (ids ++ [x]))).
        now apply IH.
Qed.

(** The loop of [splice_ids], from any child on. *)
Lemma splice_loop items children :
  forall ks done,
    map row_key children = map Some ks ->
    (List.length done + List.length children <= List.length (documents items))%nat ->
    ofold (fun ids (ic : nat * AttrDict) =>
             obind (getitem (snd ic) "id") (fun id =>
             obind (long id) (fun id' =>
             match nth_error (positions 0 items) (fst ic) with
             | Some j => setitem_list j id' ids
             | None => Raise IndexError
             end)))
          (combine (List.seq (List.length done) (List.length children)) children)
          (splice_back items done)
    = Return (splice_back items (done ++ map VLong ks)).
Proof.
  induction children as [|c children IH]; intros ks done Hks Hlen.
  - destruct ks; [|discriminate]. cbn. now rewrite app_nil_r.
  - destruct ks as [|k ks]; [discriminate|]. cbn [map] in Hks. injection Hks as Hk Hks.
    cbn [List.length List.seq combine ofold fst snd map].
    unfold row_key in Hk. unfold getitem.
    destruct (dget "id" c) as [idv|]; [|discriminate]. cbn [obind].
    rewrite (long_key _ Hk). cbn [obind].
    cbn [List.length] in Hlen.
    destruct (nth_error (positions 0 items) (List.length done)) as [p|] eqn:Ep.
    + unfold setitem_list.
      pose proof (@splice_step items [] done (VLong k) p Ep) as Hs. cbn [app] in Hs.
      rewrite Hs. cbn [obind].
      rewrite <- (length_snoc done (VLong k)).
      rewrite IH with (ks := ks); [now rewrite <- app_assoc|exact Hks|].
      rewrite length_snoc. lia.
    + apply nth_error_None in Ep. rewrite positions_length in Ep. lia.
Qed.

Lemma splice_ids_spec items children ks :
  map row_key children = map Some ks ->
  (List.length children <= List.length (documents items))%nat ->
  splice_ids (positions 0 items) children (splice_back items [])
  = Return (splice_back items (map VLong ks)).
Proof. intros Hks Hlen. exact (@splice_loop items children ks [] Hks Hlen). Qed.

Lemma bulk_loop_length lib registry s b ty context l :
  forall st db st' db',
    for_each (bulk_item lib registry s b ty context) l st db = (Return st', db') ->
    List.length (snd st') = (List.length (snd st) + List.length l)%nat.
Proof.
  induction l as [|x l IH]; intros st db st' db' H; cbn [for_each] in H.
  - injection H as <- <-. cbn. lia.
  - apply bind_inv in H. destruct H as [st1 [db1 [Hx H]]].
    apply IH in H. rewrite H. unfold bulk_item in Hx.
    apply bind_inv in Hx. destruct Hx as [d [db2 [_ Hx]]].
    apply bind_inv in Hx. destruct Hx as [row [db3 [_ Hx]]].
    apply bind_inv in Hx. destruct Hx as [u [db4 [_ Hx]]].
    injection Hx as <- <-. cbn [snd List.length]. rewrite length_snoc. lia.
Qed.

(** A bulk sync that returns gives one row for each document. *)
Lemma bulk_sync_length lib registry fuel ty context sq db rows db' :
  seq context = Some sq ->
  _bulk_sync lib registry fuel ty context db = (Return rows, db') ->
  List.length rows = List.length sq.
Proof.
  intros Hs H. destruct fuel as [|f]; [discriminate|].
  rewrite (@bulk_sync_unfold lib registry f ty context sq db Hs) in H.
  apply bind_inv in H. destruct H as [[] [db0 [_ H]]].
  apply bind_inv in H. destruct H as [st [db1 [Hloop H]]].
  apply bind_inv in H. destruct H as [[] [db2 [_ H]]].
  injection H as <- <-. apply bulk_loop_length in Hloop. rewrite Hloop.
  unfold enumerate. rewrite length_combine, length_seq. cbn. lia.
Qed.

Lemma splice_back_length items : forall ids,
  List.length (splice_back items ids) = List.length items.
Proof.
  induction items as [|x items IH]; intros ids; [reflexivity|].
  cbn [splice_back]. destruct (is_integer x); [cbn; now rewrite IH|].
  destruct ids; cbn; now rewrite IH.
Qed.

Lemma splice_back_all_integers items : forall ks,
  List.length ks = List.length (documents items) ->
  forallb is_integer (splice_back items (map VLong ks)) = true.
Proof.
  induction items as [|x items IH]; intros ks Hlen; [reflexivity|].
  cbn [splice_back documents filter] in *. fold (documents items) in Hlen.
  destruct (is_integer x) eqn:Ei; cbn [negb] in Hlen.
  - cbn [forallb]. rewrite Ei. now apply IH.
  - destruct ks as [|k ks]; [discriminate|]. cbn [map forallb].
    cbn [List.length] in Hlen. rewrite IH by lia. reflexivity.
Qed.

(** ** The schema over a run of calls *)

Lemma schema_same_refl db : schema_same db db.
Proof. split; auto. Qed.

Lemma schema_same_trans a b c : schema_same a b -> schema_same b c -> schema_same a c.
Proof.
  intros [H1 H1'] [H2 H2']. split; [congruence|]. intros tn. now rewrite H2', H1'.
Qed.

Lemma columns_of_put tn t t' db cs tn' :
  dget tn (tables db) = Some t -> tfields t' = tfields t ->
  columns_of (mkDAL (dset tn t' (tables db)) (json_type_registry db) cs) tn'
  = columns_of db tn'.
Proof.
  intros Ht Hf. unfold columns_of. cbn [tables]. rewrite dget_dset.
  destruct (String.eqb tn' tn) eqn:E; [|reflexivity].
  apply String.eqb_eq in E. subst tn'. rewrite Ht. cbn. unfold row_columns. now rewrite Hf.
Qed.

Lemma schema_same_update_record tn k fs : keeps schema_same (update_record tn k fs).
Proof.
  intros db. unfold update_record, bind, log, get_table, put_table. cbn [tables].
  destruct (dget tn (tables db)) as [t|] eqn:Et; cbn [snd].
  - split; [reflexivity|]. intros tn'.
    now apply (@columns_of_put tn t (updated_table t k fs) db).
  - split; reflexivity.
Qed.

Lemma insert_into_tfields t fs t' : insert_into t fs = Return t' -> tfields t' = tfields t.
Proof.
  unfold insert_into. destruct (find _ _); [discriminate|].
  destruct (dget "id" fs) as [v|].
  - destruct (is_None v) eqn:En.
    + destruct v; try discriminate. now intros [= <-].
    + destruct v; try discriminate;
        (destruct (key_of _); [|discriminate]);
        (destruct (find_record _ _); [discriminate|]); now intros [= <-].
  - now intros [= <-].
Qed.

Lemma schema_same_insert_one tn u fs : keeps schema_same (insert_one tn u fs).
Proof.
  intros db. unfold insert_one, bind, lift, get_table, put_table.
  destruct (dget tn (tables db)) as [t|] eqn:Et; cbn [snd]; [|apply schema_same_refl].
  destruct (insert_into t fs) as [t'|e|] eqn:Ei; cbn [snd]; try apply schema_same_refl.
  split; [reflexivity|]. intros tn'.
  apply (@columns_of_put tn t t' db); [exact Et|]. now apply insert_into_tfields in Ei.
Qed.

Lemma schema_same_log c : keeps schema_same (log c).
Proof. intros db. split; reflexivity. Qed.

Lemma schema_same_insert tn fs : keeps schema_same (insert tn fs).
Proof.
  unfold insert. apply (@keeps_bind schema_same schema_same_trans);
    [apply schema_same_log|]. intros u. apply (schema_same_insert_one tn tt fs).
Qed.

Lemma schema_same_bulk_insert tn rows : keeps schema_same (bulk_insert tn rows).
Proof.
  unfold bulk_insert. apply (@keeps_bind schema_same schema_same_trans);
    [apply schema_same_log|]. intros u.
  apply keeps_for_each; [apply schema_same_refl|apply schema_same_trans|].
  intros acc x Hx. apply schema_same_insert_one.
Qed.

Lemma catalog_grows_refl db : catalog_grows db db.
Proof. split; [exists []; now rewrite app_nil_r|auto]. Qed.

Lemma catalog_grows_trans a b c : catalog_grows a b -> catalog_grows b c -> catalog_grows a c.
Proof.
  intros [[r1 H1] N1] [[r2 H2] N2]. split; [|auto].
  exists (r1 ++ r2). now rewrite H2, H1, app_assoc.
Qed.

Lemma schema_same_catalog_grows db db' : schema_same db db' -> catalog_grows db db'.
Proof.
  intros [H _]. split; [exists []; now rewrite app_nil_r|].
  unfold catalog_keys. now rewrite H.
Qed.

Lemma column_stays_refl ty f db : column_stays ty f db db.
Proof. intros H. exact H. Qed.

Lemma column_stays_trans ty f a b c :
  column_stays ty f a b -> column_stays ty f b c -> column_stays ty f a c.
Proof. unfold column_stays. auto. Qed.

Lemma has_column_columns_of db ty f :
  has_column db ty f <-> exists cols, columns_of db (table_name ty) = Some cols /\ In f cols.
Proof.
  unfold has_column, columns_of. split.
  - intros [t [Ht Hin]]. rewrite Ht. now exists (row_columns t).
  - intros [cols [Hc Hin]]. destruct (dget (table_name ty) (tables db)) as [t|];
      [|discriminate]. injection Hc as <-. now exists t.
Qed.

Lemma schema_same_column_stays ty f db db' : schema_same db db' -> column_stays ty f db db'.
Proof.
  intros [Hc Hcols] [Hcat Hcol]. split.
  - unfold catalog_has in *. now rewrite Hc.
  - apply has_column_columns_of. rewrite Hcols. now apply has_column_columns_of.
Qed.

Lemma keeps_weaken (R R' : DAL -> DAL -> Prop) (A : Type) (m : M A) :
  (forall db db', R db db' -> R' db db') -> keeps R m -> keeps R' m.
Proof. intros H Hk db. apply H, Hk. Qed.

Lemma extend_schema_cases registry ty discovery db :
  snd (extend_schema registry ty discovery db) = db
  \/ exists missing,
       discovery (known_fields ty db) = Return missing
       /\ infer_db_types missing <> []
       /\ match table_fields registry ty (with_catalog (catalog_rows ty missing) db) with
          | Return fs =>
              extend_schema registry ty discovery db
              = define_table (table_name ty) fs (with_catalog (catalog_rows ty missing) db)
          | _ =>
              snd (extend_schema registry ty discovery db)
              = with_catalog (catalog_rows ty missing) db
              /\ fst (extend_schema registry ty discovery db) <> Return tt
          end.
Proof.
  rewrite extend_schema_run.
  destruct (discovery (known_fields ty db)) as [missing|e|] eqn:Ed; [|now left|now left].
  destruct (infer_db_types missing) as [|p l] eqn:Ei; [now left|].
  right. exists missing. split; [reflexivity|]. split; [rewrite Ei; discriminate|].
  rewrite redefine_table_run.
  destruct (table_fields registry ty _); [reflexivity| |]; split; try reflexivity; discriminate.
Qed.

Lemma catalog_has_keys db n f :
  catalog_has db n f = true <-> In (n, f) (catalog_keys db).
Proof.
  unfold catalog_has, catalog_keys. rewrite existsb_exists, in_map_iff. split.
  - intros [r [Hin Hr]]. apply andb_true_iff in Hr. destruct Hr as [H1 H2].
    apply String.eqb_eq in H1, H2. exists r. now subst.
  - intros [r [Hr Hin]]. injection Hr as <- <-. exists r. split; [exact Hin|].
    now rewrite !String.eqb_refl.
Qed.

Lemma catalog_rows_keys ty missing :
  NoDup (dkeys missing) ->
  map (fun r => (r_type r, r_fieldname r)) (catalog_rows ty missing)
  = map (pair (name ty)) (dkeys missing).
Proof.
  intros Hnd. unfold catalog_rows. rewrite infer_db_types_map by exact Hnd.
  unfold dkeys. rewrite !map_map. reflexivity.
Qed.

Lemma catalog_keys_with_catalog rows db :
  catalog_keys (with_catalog rows db)
  = catalog_keys db ++ map (fun r => (r_type r, r_fieldname r)) rows.
Proof. unfold catalog_keys, with_catalog. cbn [json_type_registry]. apply map_app. Qed.

Lemma NoDup_map_pair (A B : Type) (a : A) (l : list B) :
  NoDup l -> NoDup (map (pair a) l).
Proof.
  induction 1 as [|x l Hx Hl IH]; cbn [map]; constructor; [|exact IH].
  intros Hin. apply in_map_iff in Hin. destruct Hin as [y [[= ->] Hy]]. contradiction.
Qed.

Lemma catalog_grows_with_catalog ty missing db :
  NoDup (dkeys missing) ->
  (forall f, In f (dkeys missing) -> dmem f (known_fields ty db) = false) ->
  catalog_grows db (with_catalog (catalog_rows ty missing) db).
Proof.
  intros Hnd Hnew. split; [now exists (catalog_rows ty missing)|].
  intros Hk. rewrite catalog_keys_with_catalog, catalog_rows_keys by exact Hnd.
  apply NoDup_app; [exact Hk| |].
  - now apply NoDup_map_pair.
  - intros [n f] Hin Hin'. apply in_map_iff in Hin'. destruct Hin' as [g [[= <- <-] Hg]].
    apply catalog_has_keys in Hin. apply Hnew in Hg.
    rewrite known_fields_mem in Hg. apply orb_false_iff in Hg. destruct Hg as [_ Hg].
    congruence.
Qed.

Lemma catalog_grows_extend_schema registry ty discovery :
  finds_new discovery -> keeps catalog_grows (extend_schema registry ty discovery).
Proof.
  intros Hfn db. destruct (extend_schema_cases registry ty discovery db) as [->|Hc];
    [apply catalog_grows_refl|].
  destruct Hc as [missing [Hd [_ Hc]]]. destruct (Hfn _ _ Hd) as [Hnd Hnew].
  pose proof (@catalog_grows_with_catalog ty missing db Hnd Hnew) as Hg.
  destruct (table_fields registry ty _) as [fs|e|].
  - rewrite Hc. exact Hg.
  - destruct Hc as [-> _]. exact Hg.
  - destruct Hc as [-> _]. exact Hg.
Qed.

Lemma catalog_has_with_catalog rows db n f :
  catalog_has db n f = true -> catalog_has (with_catalog rows db) n f = true.
Proof. intros H. now rewrite catalog_has_app, H. Qed.

(** The table [redefine_table] defines for a type has a column for every
    field of the catalog that the type does not declare. *)
Lemma table_fields_catalog_column registry ty db fs f :
  table_fields registry ty db = Return fs ->
  dmem f (fields_by_name ty) = false ->
  catalog_has db (name ty) f = true ->
  In f (map fst fs).
Proof.
  intros Hfs Hdecl Hcat. rewrite (table_fields_columns _ _ _ Hfs).
  pose proof (known_fields_get ty db f) as Hget.
  unfold dmem in Hdecl. destruct (dget f (fields_by_name ty)); [discriminate|].
  rewrite catalog_type_has in Hcat.
  destruct (catalog_type db (name ty) f) as [t|]; [|discriminate]. cbn [option_map] in Hget.
  apply In_dvalues in Hget.
  change f with (column_name (JSONField_new f t)) at 1. now apply in_map.
Qed.

Lemma column_stays_extend_schema registry ty f ty2 discovery :
  own_table ty f ty2 -> keeps (column_stays ty f) (extend_schema registry ty2 discovery).
Proof.
  intros Hown db. destruct (extend_schema_cases registry ty2 discovery db) as [->|Hc];
    [apply column_stays_refl|].
  destruct Hc as [missing [Hd [_ Hc]]].
  set (dbw := with_catalog (catalog_rows ty2 missing) db) in *.
  assert (Hw : column_stays ty f db dbw).
  { intros [Hcat Hcol]. split; [now apply catalog_has_with_catalog|exact Hcol]. }
  destruct (table_fields registry ty2 dbw) as [fs|e|] eqn:Efs.
  - rewrite Hc. intros Hpre. destruct (Hw Hpre) as [Hcat [t [Ht Hin]]].
    split; [exact Hcat|]. unfold define_table, has_column. cbn [snd tables].
    rewrite dget_dset. destruct (String.eqb (table_name ty) (table_name ty2)) eqn:E.
    + apply String.eqb_eq in E. destruct (Hown (eq_sym E)) as [Hname Hdecl].
      eexists. split; [reflexivity|]. unfold row_columns. cbn [tfields map fst]. right.
      apply (@table_fields_catalog_column registry ty2 dbw fs f Efs Hdecl).
      now rewrite Hname.
    + now exists t.
  - destruct Hc as [-> _]. exact Hw.
  - destruct Hc as [-> _]. exact Hw.
Qed.

(** Every sync appends to the catalog and keeps its keys distinct. *)
Lemma catalog_grows_engine lib registry fuel :
  (forall ty context, keeps catalog_grows (_sync lib registry fuel ty context)) /\
  (forall ty context, keeps catalog_grows (_bulk_sync lib registry fuel ty context)).
Proof.
  destruct (@keeps_engine catalog_grows catalog_grows_refl catalog_grows_trans
              lib registry (fun _ => True)) with (fuel := fuel) as [Hs Hb].
  - auto.
  - intros ty discovery _ Hfn. now apply catalog_grows_extend_schema.
  - intros. eapply keeps_weaken; [apply schema_same_catalog_grows|].
    apply schema_same_update_record.
  - intros. eapply keeps_weaken; [apply schema_same_catalog_grows|].
    apply schema_same_insert.
  - intros. eapply keeps_weaken; [apply schema_same_catalog_grows|].
    apply schema_same_bulk_insert.
  - split; auto.
Qed.

Section ColumnStays.
Variable lib : DateLib.
Variable registry : JSONRegistry.
Variable ty : JSONType.
Variable f : string.
Hypothesis registry_own_table :
  forall n ty2, JSONRegistry_getattr registry n = Return ty2 -> own_table ty f ty2.

Lemma column_stays_update_record ty2 k fs :
  keeps (column_stays ty f) (update_record (table_name ty2) k fs).
Proof.
  eapply keeps_weaken; [apply schema_same_column_stays|apply schema_same_update_record].
Qed.

Lemma column_stays_insert ty2 fs : keeps (column_stays ty f) (insert (table_name ty2) fs).
Proof.
  eapply keeps_weaken; [apply schema_same_column_stays|apply schema_same_insert].
Qed.

Lemma column_stays_bulk_insert ty2 rows :
  keeps (column_stays ty f) (bulk_insert (table_name ty2) rows).
Proof.
  eapply keeps_weaken; [apply schema_same_column_stays|apply schema_same_bulk_insert].
Qed.

Lemma column_stays_engine fuel :
  (forall ty2 context, own_table ty f ty2 ->
     keeps (column_stays ty f) (_sync lib registry fuel ty2 context)) /\
  (forall ty2 context, own_table ty f ty2 ->
     keeps (column_stays ty f) (_bulk_sync lib registry fuel ty2 context)).
Proof.
  apply (@keeps_engine (column_stays ty f) (@column_stays_refl ty f)
           (@column_stays_trans ty f) lib registry (own_table ty f)).
  - exact registry_own_table.
  - intros ty2 discovery Hown _. now apply column_stays_extend_schema.
  - intros. apply column_stays_update_record.
  - intros. apply column_stays_insert.
  - intros. apply column_stays_bulk_insert.
Qed.

(** What follows the schema extension in a sync and in a bulk sync. *)
Lemma column_stays_sync_rest fuel ty2 context :
  own_table ty f ty2 ->
  keeps (column_stays ty f)
    (row_dict <- _create_row_dict lib registry (_sync lib registry fuel)
                   (_bulk_sync lib registry fuel) ty2 context ;;
     write_row ty2 row_dict ;;;
     ret row_dict).
Proof.
  intros Hown.
  apply (@keeps_bind _ (@column_stays_trans ty f)).
  - apply (@keeps_create_row_dict (column_stays ty f) (@column_stays_refl ty f)
             (@column_stays_trans ty f) lib registry (own_table ty f) registry_own_table);
      intros; now apply column_stays_engine.
  - intros row_dict. apply (@keeps_bind _ (@column_stays_trans ty f)).
    + apply (@keeps_write_row (column_stays ty f) (@column_stays_refl ty f)
               (@column_stays_trans ty f) (own_table ty f)); auto; intros.
      * apply column_stays_update_record.
      * apply column_stays_insert.
    + intros u. apply keeps_ret, column_stays_refl.
Qed.

Lemma column_stays_bulk_sync_rest fuel ty2 context sq :
  own_table ty f ty2 ->
  keeps (column_stays ty f)
    (st <- for_each (bulk_item lib registry (_sync lib registry fuel)
                       (_bulk_sync lib registry fuel) ty2 context)
             (enumerate sq) ([], []) ;;
     flush ty2 (fst st) ;;;
     ret (snd st)).
Proof.
  intros Hown.
  apply (@keeps_bind _ (@column_stays_trans ty f)).
  - apply keeps_for_each; [apply column_stays_refl|apply column_stays_trans|].
    intros acc x Hx.
    apply (@keeps_bulk_item (column_stays ty f) (@column_stays_refl ty f)
             (@column_stays_trans ty f) lib registry (own_table ty f) registry_own_table);
      auto; intros; try apply column_stays_update_record; now apply column_stays_engine.
  - intros st. apply (@keeps_bind _ (@column_stays_trans ty f)).
    + apply (@keeps_flush (column_stays ty f) (@column_stays_refl ty f)
               (own_table ty f)); auto. intros. apply column_stays_bulk_insert.
    + intros u. apply keeps_ret, column_stays_refl.
Qed.

End ColumnStays.

(** A returning discovery over documents of which one has field [f] with a
    value finds [f], when [f] is not known and is not the id. *)
Lemma find_extra_types_seq_finds current_fields f o v :
  dget f (AttrDict_new o) = Some v -> is_None v = false -> f <> "id" ->
  dmem f current_fields = false ->
  forall sq acc missing,
    ofold (fun missing_fields obj =>
             obind (AttrDict_of_value obj)
                   (fun d => Return (_find_extra_types current_fields missing_fields d)))
          sq acc = Return missing ->
    dmem f acc = true \/ In (VDict o) sq ->
    dmem f missing = true.
Proof.
  intros Hf Hv Hid Hcf. induction sq as [|obj sq IH]; intros acc missing H Hor;
    cbn [ofold] in H.
  - injection H as <-. destruct Hor as [Hacc|[]]. exact Hacc.
  - destruct (AttrDict_of_value obj) as [d|e|] eqn:Ed; cbn [obind] in H; try discriminate.
    apply (IH _ _ H).
    assert (Hget : dget f (_find_extra_types current_fields acc d)
                   = record_kinds f d (dget f acc))
      by now apply find_extra_types_get.
    destruct Hor as [Hacc|[Hobj|Hin]].
    + left. unfold dmem in *. rewrite Hget. unfold record_kinds.
      destruct (dget f acc); [|discriminate].
      destruct (dget f d) as [w|]; [destruct (is_None w)|]; reflexivity.
    + left. subst obj. cbn in Ed. injection Ed as <-.
      unfold dmem. rewrite Hget. unfold record_kinds. now rewrite Hf, Hv.
    + now right.
Qed.

Lemma call_discovery_finds c f o v current_fields missing :
  In (VDict o) (call_documents c) ->
  dget f (AttrDict_new o) = Some v -> is_None v = false -> f <> "id" ->
  dmem f current_fields = false ->
  call_discovery c current_fields = Return missing ->
  dmem f missing = true.
Proof.
  intros Hin Hf Hv Hid Hcf Hd. destruct c as [ty obj partial|ty sq partial];
    cbn [call_documents call_discovery] in *.
  - destruct Hin as [[= <-]|[]]. unfold discovery_of_doc in Hd. injection Hd as <-.
    unfold dmem. rewrite find_extra_types_get by assumption.
    unfold record_kinds. now rewrite Hf, Hv.
  - unfold discovery_of_seq, find_extra_types_seq in Hd.
    eapply find_extra_types_seq_finds; eauto.
Qed.

Lemma call_discovery_finds_new c : finds_new (call_discovery c).
Proof. destruct c; [apply finds_new_doc|apply finds_new_seq]. Qed.

(** A schema extension that returns, for a discovery that finds [f], leaves
    [f] in the catalog and its column in the table. *)
Lemma extend_schema_adds_column registry ty discovery db missing f :
  finds_new discovery ->
  discovery (known_fields ty db) = Return missing ->
  dmem f missing = true ->
  fst (extend_schema registry ty discovery db) = Return tt ->
  catalog_has (snd (extend_schema registry ty discovery db)) (name ty) f = true
  /\ has_column (snd (extend_schema registry ty discovery db)) ty f.
Proof.
  intros Hfn Hd Hf. destruct (Hfn _ _ Hd) as [Hnd Hnew].
  rewrite extend_schema_run, Hd.
  destruct (infer_db_types missing) as [|p l] eqn:Ei.
  { rewrite infer_db_types_map in Ei by exact Hnd. destruct missing; discriminate. }
  rewrite redefine_table_run.
  set (dbw := with_catalog (catalog_rows ty missing) db).
  assert (Hcat : catalog_has dbw (name ty) f = true).
  { unfold dbw. rewrite catalog_has_app, catalog_rows_has by exact Hnd.
    rewrite Hf. apply orb_true_r. }
  destruct (table_fields registry ty dbw) as [fs|e|] eqn:Efs; try discriminate.
  intros _. unfold define_table. cbn [snd]. split; [exact Hcat|].
  unfold has_column. cbn [tables]. rewrite dget_dset_same. eexists. split; [reflexivity|].
  unfold row_columns. cbn [tfields map fst]. right.
  apply (@table_fields_catalog_column registry ty dbw fs f Efs); [|exact Hcat].
  assert (Hin : In f (dkeys missing)) by now apply dmem_In.
  apply Hnew in Hin. rewrite known_fields_mem in Hin. apply orb_false_iff in Hin. tauto.
Qed.

Lemma run_call_catalog_grows lib registry db c :
  catalog_grows db (run_call lib registry db c).
Proof.
  destruct c as [ty obj partial|ty sq partial]; cbn [run_call]; unfold sync, bulk_sync;
    apply catalog_grows_engine.
Qed.

Lemma run_calls_catalog_grows lib registry cs :
  forall db, catalog_grows db (run_calls lib registry cs db).
Proof.
  induction cs as [|c cs IH]; intros db; [apply catalog_grows_refl|].
  cbn [run_calls fold_left]. eapply catalog_grows_trans; [apply run_call_catalog_grows|].
  apply IH.
Qed.

Lemma run_call_column_stays lib registry ty f db c :
  (forall n ty2, JSONRegistry_getattr registry n = Return ty2 -> own_table ty f ty2) ->
  own_table ty f (call_type c) ->
  column_stays ty f db (run_call lib registry db c).
Proof.
  intros Hreg Hown. destruct c as [ty2 obj partial|ty2 sq partial];
    cbn [run_call call_type] in *; unfold sync, bulk_sync;
    now apply (@column_stays_engine lib registry ty f Hreg).
Qed.

Lemma run_calls_column_stays lib registry ty f cs :
  (forall n ty2, JSONRegistry_getattr registry n = Return ty2 -> own_table ty f ty2) ->
  (forall c, In c cs -> own_table ty f (call_type c)) ->
  forall db, column_stays ty f db (run_calls lib registry cs db).
Proof.
  intros Hreg. induction cs as [|c cs IH]; intros Hown db; [apply column_stays_refl|].
  change (run_calls lib registry (c :: cs) db)
    with (run_calls lib registry cs (run_call lib registry db c)).
  apply (@column_stays_trans ty f db (run_call lib registry db c)).
  - apply run_call_column_stays; [exact Hreg|]. apply Hown. now left.
  - exact (IH (fun c2 Hc2 => Hown c2 (or_intror Hc2)) (run_call lib registry db c)).
Qed.

(** The call that finds the field leaves it in the catalog, with its column. *)
Lemma run_call_adds_column lib registry c db f o v :
  In (VDict o) (call_documents c) ->
  dget f (AttrDict_new o) = Some v -> is_None v = false -> f <> "id" ->
  dmem f (known_fields (call_type c) db) = false ->
  fst (extend_schema registry (call_type c) (call_discovery c) db) = Return tt ->
  (forall n ty2, JSONRegistry_getattr registry n = Return ty2 ->
                 own_table (call_type c) f ty2) ->
  catalog_has (run_call lib registry db c) (name (call_type c)) f = true
  /\ has_column (run_call lib registry db c) (call_type c) f.
Proof.
  intros Hin Hf Hv Hid Hcf Hret Hreg.
  assert (Hown : own_table (call_type c) f (call_type c)).
  { intros _. split; [reflexivity|]. rewrite known_fields_mem in Hcf.
    apply orb_false_iff in Hcf. tauto. }
  assert (Hd : exists missing,
             call_discovery c (known_fields (call_type c) db) = Return missing).
  { rewrite extend_schema_run in Hret.
    destruct (call_discovery c (known_fields (call_type c) db)) as [m|e|];
      [now exists m|discriminate|discriminate]. }
  destruct Hd as [missing Hd].
  pose proof (@call_discovery_finds c f o v _ missing Hin Hf Hv Hid Hcf Hd) as Hfound.
  pose proof (@extend_schema_adds_column registry (call_type c) (call_discovery c) db
                missing f (call_discovery_finds_new c) Hd Hfound Hret) as Hadd.
  destruct (extend_schema registry (call_type c) (call_discovery c) db) as [o1 db2] eqn:He.
  cbn [fst snd] in Hret, Hadd. subst o1.
  destruct c as [ty obj partial|ty sq partial]; cbn [run_call call_type call_discovery] in *.
  - unfold sync.
    rewrite (@sync_unfold lib registry _ ty
               (Context_new None (name ty) (Some (AttrDict_new obj)) None partial)
               (AttrDict_new obj) db eq_refl).
    erewrite bind_Return by exact He.
    now apply (@column_stays_sync_rest lib registry ty f Hreg).
  - unfold bulk_sync.
    rewrite (@bulk_sync_unfold lib registry _ ty
               (Context_new None (name ty) None (Some sq) partial) sq db eq_refl).
    erewrite bind_Return by exact He.
    now apply (@column_stays_bulk_sync_rest lib registry ty f Hreg).
Qed.

Lemma catalog_one_entry db n f :
  NoDup (catalog_keys db) -> catalog_has db n f = true ->
  List.length (catalog_entries db n f) = 1%nat.
Proof.
  unfold catalog_keys, catalog_has, catalog_entries.
  induction (json_type_registry db) as [|r l IH]; cbn [map existsb filter];
    [discriminate|].
  intros Hnd Hex. inversion Hnd as [|k ks Hnotin Hnd']; subst.
  destruct (String.eqb (r_type r) n && String.eqb (r_fieldname r) f) eqn:Er.
  - cbn [List.length]. f_equal.
    destruct (filter _ l) as [|r' l'] eqn:Ef; [reflexivity|]. exfalso. apply Hnotin.
    assert (Hin : In r' (filter (fun r0 => String.eqb (r_type r0) n
                                           && String.eqb (r_fieldname r0) f) l))
      by (rewrite Ef; now left).
    apply filter_In in Hin. destruct Hin as [Hin Hr'].
    apply andb_true_iff in Er, Hr'. destruct Er as [E1 E2]. destruct Hr' as [E3 E4].
    apply String.eqb_eq in E1, E2, E3, E4. apply in_map_iff. exists r'. split; [|exact Hin].
    congruence.
  - cbn [orb] in Hex. now apply IH.
Qed.

(** C9, the claim as stated fails: the document [{"id": 1, "foo": None}]
    contains the field [foo], which [Person] has never seen; after its sync
    the table has no column [foo] and the catalog no entry for it. *)
Lemma null_field_gets_no_column :
  dget "foo" (AttrDict_new null_field_doc) = Some VNone
  /\ dmem "foo" (known_fields Person person_db) = false
  /\ fst (sync example_lib person_registry Person null_field_doc false person_db)
     = Return [("id", VInt 1); ("name", VNone); ("age", VNone)]
  /\ columns_of (run_calls example_lib person_registry [Sync Person null_field_doc false]
                   person_db) "Person"
     = Some ["id"; "name"; "age"]
  /\ catalog_entries (run_calls example_lib person_registry
                        [Sync Person null_field_doc false] person_db) "Person" "foo"
     = [].
Proof. repeat split; vm_compute; reflexivity. Qed.

(** C9, as amended. Over every run of [sync] and [bulk_sync] calls,
    whatever their outcomes, the catalog is only appended to and its
    (type, fieldname) keys stay distinct. When a call has a document with a
    field that is not known, is not the id and has a value other than
    [None], and the schema extension of the call returns, then after that
    call and any calls that follow the table of the type has a column for
    the field and the catalog has exactly one entry for it, however often
    the field is seen; this, provided the catalog had distinct keys and no
    type of the registry or of the later calls defines the same table under
    another name or with a declared field of that name. *)
Theorem schema_grows_one_entry_per_field :
  forall lib registry,
    (forall cs db, catalog_grows db (run_calls lib registry cs db))
    /\ (forall c post db f o v,
          let ty := call_type c in
          let db' := run_calls lib registry (c :: post) db in
          In (VDict o) (call_documents c) ->
          dget f (AttrDict_new o) = Some v -> is_None v = false -> f <> "id" ->
          dmem f (known_fields ty db) = false ->
          fst (extend_schema registry ty (call_discovery c) db) = Return tt ->
          (forall n ty2, JSONRegistry_getattr registry n = Return ty2 ->
                         own_table ty f ty2) ->
          (forall c2, In c2 post -> own_table ty f (call_type c2)) ->
          NoDup (catalog_keys db) ->
          has_column db' ty f
          /\ List.length (catalog_entries db' (name ty) f) = 1%nat).
Proof.
  intros lib registry. split; [intros cs db; apply run_calls_catalog_grows|].
  intros c post db f o v ty db' Hin Hf Hv Hid Hcf Hret Hreg Hpost Hnd.
  pose proof (@run_call_adds_column lib registry c db f o v Hin Hf Hv Hid Hcf Hret Hreg)
    as Hfirst.
  pose proof (@run_calls_column_stays lib registry ty f post Hreg Hpost
                (run_call lib registry db c) Hfirst) as [Hcat Hcol].
  split; [exact Hcol|].
  apply catalog_one_entry; [|exact Hcat].
  now apply (run_calls_catalog_grows lib registry (c :: post) db).
Qed.

Lemma schema_grows_one_entry_per_field_witness :
  has_column (run_calls example_lib person_registry person_run person_db) Person "nickname"
  /\ List.length (catalog_entries (run_calls example_lib person_registry person_run
                                     person_db) "Person" "nickname") = 1%nat.
Proof.
  apply (proj2 (schema_grows_one_entry_per_field example_lib person_registry)
           (Sync Person ann_doc false)
           [Sync Person ann_doc false;
            BulkSync Person [VDict cat_doc; VDict (("id", VInt 3) :: ann)] false]
           person_db "nickname" ann_doc (VUnicode "A")).
  - left. reflexivity.
  - vm_compute. reflexivity.
  - reflexivity.
  - discriminate.
  - vm_compute. reflexivity.
  - vm_compute. reflexivity.
  - intros n ty2. unfold JSONRegistry_getattr. cbn [person_registry types find name Person].
    destruct (String.eqb "Person" n); [|discriminate].
    intros [= <-] _. split; reflexivity.
  - intros c2 [<-|[<-|[]]] _; split; reflexivity.
  - vm_compute. constructor.
Defined.

(** * Further properties of the code *)

(** ** The regular expression of reference types *)

Lemma strip_prefix_spec p s rest :
  strip_prefix p s = Some rest <-> s = (p ++ rest)%string.
Proof.
  revert s. induction p as [|c p IH]; intros s; cbn [strip_prefix String.append].
  - split; [now intros [= ->]|now intros ->].
  - destruct s as [|c' s]; [split; discriminate|].
    destruct (Ascii.eqb c c') eqn:E.
    + apply Ascii.eqb_eq in E. subst c'. rewrite IH. split; [now intros ->|now intros [= ->]].
    + split; [discriminate|]. intros [= -> _]. now rewrite Ascii.eqb_refl in E.
Qed.

Lemma word_to_end_eq c s :
  word_to_end (String c s) =
  if is_word_char c then
    if ends s then Some (String c EmptyString)
    else option_map (String c) (word_to_end s)
  else None.
Proof.
  cbn [word_to_end]. destruct (is_word_char c); [|reflexivity].
  destruct s as [|[b0 b1 b2 b3 b4 b5 b6 b7] [|c'' s'']]; [reflexivity| |];
    destruct b0, b1, b2, b3, b4, b5, b6, b7; reflexivity.
Qed.

Lemma ends_spec s : ends s = true -> s = EmptyString \/ s = String "010"%char EmptyString.
Proof.
  destruct s as [|c [|c' s']]; cbn; auto; [|discriminate].
  intros H. apply Ascii.eqb_eq in H. subst. auto.
Qed.

Lemma is_word_cons c s :
  is_word (String c s) = is_word_char c && (match s with EmptyString => true | _ => is_word s end).
Proof. destruct s; cbn [is_word]; [now rewrite andb_true_r|reflexivity]. Qed.

Lemma word_to_end_inv s : forall w,
  word_to_end s = Some w ->
  is_word w = true /\ (s = w \/ s = (w ++ String "010"%char EmptyString)%string).
Proof.
  induction s as [|c s IH]; intros w H; [discriminate|].
  rewrite word_to_end_eq in H. destruct (is_word_char c) eqn:Ec; [|discriminate].
  destruct (ends s) eqn:Ee.
  - injection H as <-. split; [cbn; exact Ec|].
    apply ends_spec in Ee. destruct Ee as [-> | ->]; auto.
  - destruct (word_to_end s) as [w'|] eqn:Ew; [|discriminate]. injection H as <-.
    destruct (IH w' eq_refl) as [Hw' Hs]. split.
    + rewrite is_word_cons, Ec. destruct w'; [discriminate|exact Hw'].
    + destruct Hs as [-> | ->]; auto.
Qed.

Lemma word_to_end_word w :
  is_word w = true ->
  word_to_end w = Some w
  /\ word_to_end (w ++ String "010"%char EmptyString) = Some w.
Proof.
  induction w as [|c w IH]; [discriminate|]. intros H.
  rewrite is_word_cons in H. apply andb_true_iff in H. destruct H as [Hc Hw].
  cbn [String.append]. rewrite !word_to_end_eq, Hc.
  destruct w as [|b w'].
  - cbn. auto.
  - destruct (IH Hw) as [E1 E2].
    assert (Hb : is_word_char b = true).
    { rewrite is_word_cons in Hw. now apply andb_true_iff in Hw. }
    assert (Ee : ends (String b w') = false).
    { destruct w'; [|reflexivity]. cbn. destruct (Ascii.eqb b "010"%char) eqn:E; [|reflexivity].
      apply Ascii.eqb_eq in E. subst b. discriminate. }
    assert (Ee' : ends (String b w' ++ String "010"%char EmptyString) = false).
    { cbn [String.append]. destruct w'; reflexivity. }
    rewrite Ee, Ee', E1, E2. auto.
Qed.

(** X1. The types [re.match(r'^(reference|list:reference) (\w+)$', type)]
    matches are the strings [reference w] and [list:reference w] for a word
    [w] of letters, digits and underscores, and the same followed by one
    newline; the groups of the match are the kind and the word. *)
Theorem ref_match_spec :
  forall s kind w,
    ref_match s = Some (kind, w) <->
    (kind = "reference" \/ kind = "list:reference")
    /\ is_word w = true
    /\ (s = (kind ++ " " ++ w)%string
        \/ s = (kind ++ " " ++ w ++ String "010"%char EmptyString)%string).
Proof.
  intros s kind w. unfold ref_match. split.
  - destruct (strip_prefix "reference " s) as [rest|] eqn:E1.
    + apply strip_prefix_spec in E1. subst s.
      destruct (word_to_end rest) as [w'|] eqn:Ew; [|discriminate].
      intros [= <- <-]. apply word_to_end_inv in Ew. destruct Ew as [Hw Hs].
      split; [now left|]. split; [exact Hw|]. destruct Hs as [-> | ->]; auto.
    + destruct (strip_prefix "list:reference " s) as [rest|] eqn:E2; [|discriminate].
      apply strip_prefix_spec in E2. subst s.
      destruct (word_to_end rest) as [w'|] eqn:Ew; [|discriminate].
      intros [= <- <-]. apply word_to_end_inv in Ew. destruct Ew as [Hw Hs].
      split; [now right|]. split; [exact Hw|]. destruct Hs as [-> | ->]; auto.
  - intros [Hk [Hw Hs]]. destruct (word_to_end_word w Hw) as [E1 E2].
    destruct Hk as [-> | ->]; destruct Hs as [-> | ->]; cbn [strip_prefix String.append Ascii.eqb Bool.eqb];
      cbn [String.append] in E2; rewrite ?E1, ?E2; reflexivity.
Qed.

(** ** The known fields and the tables of the registry *)

Lemma table_fields_catalog_only registry ty db db' :
  json_type_registry db = json_type_registry db' ->
  table_fields registry ty db = table_fields registry ty db'.
Proof.
  intros H. unfold table_fields. now rewrite (known_fields_catalog_only ty db db' H).
Qed.

Lemma field_resolves registry field :
  (forall kind n, ref_match (type field) = Some (kind, n) ->
                  exists ref_type,
                    JSONRegistry_getitem registry n = Return (ItemType ref_type)) ->
  JSONField_field (Some registry) field = Return (column_name field, dal_type registry field).
Proof.
  intros H. unfold JSONField_field, dal_type.
  destruct (ref_match (type field)) as [[kind n]|]; [|reflexivity].
  destruct (H kind n eq_refl) as [ref_type ->]. reflexivity.
Qed.

Lemma collect_fields_resolve registry l :
  (forall field, In field l ->
     JSONField_field (Some registry) field = Return (column_name field, dal_type registry field)) ->
  forall acc,
    ofold (fun fs field =>
             obind (JSONField_field (Some registry) field) (fun f => Return (fs ++ [f])))
          l acc
    = Return (acc ++ map (fun field => (column_name field, dal_type registry field)) l).
Proof.
  induction l as [|x l IH]; intros H acc; cbn [ofold map].
  - now rewrite app_nil_r.
  - rewrite (H x (or_introl eq_refl)). cbn [obind]. rewrite IH.
    + now rewrite <- app_assoc.
    + intros field Hf. apply H. now right.
Qed.

Lemma table_fields_resolve registry ty db :
  (forall field kind n,
     In field (dvalues (known_fields ty db)) -> ref_match (type field) = Some (kind, n) ->
     exists ref_type, JSONRegistry_getitem registry n = Return (ItemType ref_type)) ->
  table_fields registry ty db = Return (dal_fields registry ty db).
Proof.
  intros H. unfold table_fields, dal_fields.
  rewrite collect_fields_resolve; [reflexivity|].
  intros field Hf. apply field_resolves. intros kind n. now apply H.
Qed.

Lemma redefine_tables_loop registry db0 tys :
  (forall ty, In ty tys -> table_fields registry ty db0 = Return (dal_fields registry ty db0)) ->
  forall db,
    json_type_registry db = json_type_registry db0 ->
    let r := for_each (fun (_ : unit) ty => JSONRegistry_redefine_table registry ty) tys tt db in
    fst r = Return tt
    /\ json_type_registry (snd r) = json_type_registry db0
    /\ calls (snd r)
       = calls db ++ map (fun ty => Cdefine_table (table_name ty) (dal_fields registry ty db0))
                         tys.
Proof.
  induction tys as [|ty tys IH]; intros H db Hcat; cbn [for_each map].
  - cbn. rewrite app_nil_r. auto.
  - assert (Hstep : JSONRegistry_redefine_table registry ty db
                    = define_table (table_name ty) (dal_fields registry ty db0) db).
    { rewrite redefine_table_run.
      now rewrite (@table_fields_catalog_only registry ty db db0 Hcat),
                  (H ty (or_introl eq_refl)). }
    cbv zeta. erewrite bind_Return by (rewrite Hstep; reflexivity).
    match goal with |- context [for_each _ tys tt ?d] => set (db1 := d) end.
    destruct (IH (fun ty' Hin => H ty' (or_intror Hin)) db1 Hcat) as [H1 [H2 H3]].
    cbv zeta in H1, H2, H3.
    split; [exact H1|]. split; [exact H2|]. rewrite H3. unfold db1. cbn [calls].
    now rewrite <- app_assoc.
Qed.

(** ** Syncs that change no schema *)

Lemma extend_schema_nothing_new registry ty d db :
  (forall f v, dget f d = Some v -> is_None v = false -> f <> "id" ->
               dmem f (known_fields ty db) = true) ->
  extend_schema registry ty (discovery_of_doc d) db = (Return tt, db).
Proof.
  intros H. rewrite extend_schema_run. unfold discovery_of_doc.
  now rewrite find_extra_types_nil.
Qed.

(** [_update_row], case by case. *)
Lemma update_row_cases ty row db :
  _update_row ty row db =
  match dget (table_name ty) (tables db) with
  | None => (Raise (KeyError (table_name ty)), db)
  | Some t =>
      match dget "id" row with
      | None => (Raise (KeyError "id"), db)
      | Some idv =>
          if is_None idv then (Return false, db)
          else match key_of idv with
               | None => (Beyond, db)
               | Some k =>
                   match find_record k (records t) with
                   | Some _ =>
                       (Return true,
                        after_update (table_name ty) t k (update_payload ty t row) db)
                   | None => (Return false, db)
                   end
               end
      end
  end.
Proof.
  destruct (dget (table_name ty) (tables db)) as [t|] eqn:Et.
  - destruct (dget "id" row) as [idv|] eqn:Eid.
    + destruct (is_None idv) eqn:En.
      * unfold _update_row, bind, get_table, lift, getitem. rewrite Et, Eid.
        rewrite table_call_cases, En. reflexivity.
      * destruct (key_of idv) as [k|] eqn:Ek.
        -- destruct (find_record k (records t)) as [r|] eqn:Ef.
           ++ now apply (@update_row_found ty row db t idv k r).
           ++ now apply (@update_row_absent ty row db t idv k).
        -- unfold _update_row, bind, get_table, lift, getitem. rewrite Et, Eid.
           rewrite table_call_cases, En, Ek. reflexivity.
    + unfold _update_row, bind, get_table, lift, getitem. now rewrite Et, Eid.
  - unfold _update_row, bind, get_table. now rewrite Et.
Qed.

Lemma insert_log tablename row db :
  calls (snd (insert tablename row db)) = calls db ++ [Cinsert tablename row].
Proof.
  unfold insert, bind, log, get_table, lift, put_table. cbn [tables].
  destruct (dget tablename (tables db)) as [t|]; [|reflexivity].
  destruct (insert_into t row); reflexivity.
Qed.

(** What [write_row] adds to the log, whatever its outcome: nothing, or
    the one call that writes the row. *)
Lemma write_row_log ty row db :
  calls (snd (write_row ty row db)) = calls db
  \/ exists w, writes_row ty row w /\ calls (snd (write_row ty row db)) = calls db ++ [w].
Proof.
  unfold write_row. rewrite bind_run, update_row_cases.
  destruct (dget (table_name ty) (tables db)) as [t|] eqn:Et; [|now left].
  destruct (dget "id" row) as [idv|] eqn:Eid; [|now left].
  destruct (is_None idv) eqn:En; cbn [fst snd].
  - right. exists (Cinsert (table_name ty) row). split; [now left|]. apply insert_log.
  - destruct (key_of idv) as [k|] eqn:Ek; [|now left].
    destruct (find_record k (records t)) as [r|]; cbn [fst snd].
    + right. eexists. split; [|reflexivity].
      right. exists k, t. split; [|reflexivity]. unfold row_key. now rewrite Eid.
    + right. exists (Cinsert (table_name ty) row). split; [now left|]. apply insert_log.
Qed.

Lemma schema_same_write_row ty row : keeps schema_same (write_row ty row).
Proof.
  apply (@keeps_write_row schema_same schema_same_refl schema_same_trans (fun _ => True));
    auto; intros.
  - apply schema_same_update_record.
  - apply schema_same_insert.
Qed.

(** ** The keys of the row *)

(** X5. Every key of the row [_create_row_dict] builds is a key of the
    document that names no declared field, copied as it is, or the column
    of a declared field; nothing else enters the row. *)
Theorem row_keys_come_from_document_or_fields :
  forall lib registry s b ty context d db row db',
    data context = Some d ->
    _create_row_dict lib registry s b ty context db = (Return row, db') ->
    forall c, In c (dkeys row) ->
      (dmem c d = true /\ dmem c (fields_by_name ty) = false)
      \/ exists field, In field (fields ty) /\ column_name field = c.
Proof.
  intros lib registry s b ty context d db row db' Hd H c.
  unfold _create_row_dict in H. rewrite Hd in H.
  apply bind_inv in H. destruct H as [row0 [db0 [Hpass Hset]]].
  set (P := fun r : AttrDict =>
              In c (dkeys r) ->
              (dmem c d = true /\ dmem c (fields_by_name ty) = false)
              \/ exists field, In field (fields ty) /\ column_name field = c).
  assert (H0 : P row0).
  { revert Hpass. apply (for_each_inv P).
    - intros acc x dbx acc' dbx' Hx Hacc Hstep.
      apply passthrough_inv in Hstep. destruct Hstep as [_ [->|[Hdecl [v [Hv [-> _]]]]]];
        [exact Hacc|].
      intros Hin. apply In_dkeys_dset in Hin. destruct Hin as [->|Hin]; [|now apply Hacc].
      left. split; [|exact Hdecl]. unfold dmem. now rewrite Hv.
    - intros []. }
  revert Hset. apply (for_each_inv P); [|exact H0].
  intros acc x dbx acc' dbx' Hx Hacc Hstep.
  apply set_field_inv in Hstep. destruct Hstep as [->|[v ->]]; [exact Hacc|].
  intros Hin. apply In_dkeys_dset in Hin. destruct Hin as [->|Hin]; [|now apply Hacc].
  right. now exists x.
Qed.

Lemma row_keys_come_from_document_or_fields_witness :
  (dmem "nickname" (AttrDict_new ann_doc) = true
   /\ dmem "nickname" (fields_by_name Person) = false)
  \/ exists field, In field (fields Person) /\ column_name field = "nickname".
Proof.
  apply (@row_keys_come_from_document_or_fields example_lib person_registry
           no_sync no_bulk_sync Person
           (Context_new None "Person" (Some (AttrDict_new ann_doc)) None false)
           (AttrDict_new ann_doc) person_db_ann ann_row person_db_ann).
  - reflexivity.
  - vm_compute. reflexivity.
  - vm_compute. right. left. reflexivity.
Defined.

(** A field that is set enters the row under its column. *)
Lemma set_field_sets lib registry s b context d row field db row' db' :
  compute field <> None \/ partial context = false \/ dmem (fieldname field) d = true ->
  set_field lib registry s b context d row field db = (Return row', db') ->
  exists v, row' = dset (column_name field) v row.
Proof.
  intros Hc H. unfold set_field in H.
  destruct (compute field) as [f|].
  { injection H as <- _. eauto. }
  assert (Hskip : partial context && negb (dmem (fieldname field) d) = false).
  { destruct Hc as [Hc|[-> | ->]]; [congruence|reflexivity|apply andb_false_r]. }
  rewrite Hskip in H.
  destruct (is_None _).
  { injection H as <- _. eauto. }
  apply bind_inv in H. destruct H as [v1 [db1 [_ H]]].
  apply bind_inv in H. destruct H as [v2 [db2 [_ H]]].
  injection H as <- _. eauto.
Qed.

Lemma set_field_keeps_keys lib registry s b context d row field db row' db' c :
  set_field lib registry s b context d row field db = (Return row', db') ->
  dmem c row = true -> dmem c row' = true.
Proof.
  intros H Hc. apply set_field_inv in H. destruct H as [->|[v ->]]; [exact Hc|].
  rewrite dmem_dset, Hc. apply orb_true_r.
Qed.

(** X6. In the row [_create_row_dict] builds, every declared field that is
    computed, or is in the document, has its column; when [partial] is false
    every declared field has. *)
Theorem row_has_column_of_every_field_set :
  forall lib registry s b ty context d db row db' field,
    data context = Some d ->
    _create_row_dict lib registry s b ty context db = (Return row, db') ->
    In field (fields ty) ->
    compute field <> None \/ partial context = false \/ dmem (fieldname field) d = true ->
    dmem (column_name field) row = true.
Proof.
  intros lib registry s b ty context d db row db' field Hd H Hin Hc.
  unfold _create_row_dict in H. rewrite Hd in H.
  apply bind_inv in H. destruct H as [row0 [db0 [_ Hset]]].
  destruct (in_split _ _ Hin) as [pre [post Hsplit]]. rewrite Hsplit in Hset.
  rewrite for_each_app in Hset.
  apply bind_inv in Hset. destruct Hset as [row1 [db1 [_ Hset]]].
  cbn [for_each] in Hset.
  apply bind_inv in Hset. destruct Hset as [row2 [db2 [Hstep Hpost]]].
  apply (set_field_sets _ _ _ _ _ _ _ _ _ Hc) in Hstep. destruct Hstep as [v ->].
  revert Hpost. apply (for_each_inv (fun r => dmem (column_name field) r = true)).
  - intros acc x dbx acc' dbx' _ Hacc Hx. eapply set_field_keeps_keys; eassumption.
  - rewrite dmem_dset, String.eqb_refl. reflexivity.
Qed.

Lemma row_has_column_of_every_field_set_witness :
  dmem "age" [("id", VInt 1); ("name", VUnicode "Bob"); ("age", VNone)] = true.
Proof.
  apply (@row_has_column_of_every_field_set example_lib person_registry
           no_sync no_bulk_sync Person
           (Context_new None "Person" (Some (AttrDict_new bob_partial)) None false)
           (AttrDict_new bob_partial) person_db_ann
           [("id", VInt 1); ("name", VUnicode "Bob"); ("age", VNone)] person_db_ann
           (JSONField_new "age" "integer")).
  - reflexivity.
  - vm_compute. reflexivity.
  - right. left. reflexivity.
  - right. left. reflexivity.
Defined.

(** ** A date that does not parse *)

Lemma set_field_unparsable lib registry s b context d row field v db :
  compute field = None ->
  str_in (type field) ["datetime"; "date"; "time"] = true ->
  dget (fieldname field) d = Some v ->
  parse_date lib field v = Raise ValueError ->
  set_field lib registry s b context d row field db = (Raise ValueError, db).
Proof.
  intros Hc Ht Hv Hp. unfold set_field, dmem. rewrite Hc, Hv, andb_false_r.
  assert (Hn : is_None v = false) by (destruct v; try reflexivity; discriminate).
  rewrite Hn. unfold convert_temporal. rewrite Ht, Hp. reflexivity.
Qed.

(** X7. When a date, time or datetime field of a document without nested
    documents holds a string the parser rejects with [ValueError], the sync
    returns no row and writes none: it ends in the state the schema
    extension left. *)
Theorem unparsable_date_writes_no_row :
  forall lib registry ty obj partial db dbe field v,
    let d := AttrDict_new obj in
    direct ty d = true ->
    extend_schema registry ty (discovery_of_doc d) db = (Return tt, dbe) ->
    In field (fields ty) -> compute field = None ->
    str_in (type field) ["datetime"; "date"; "time"] = true ->
    dget (fieldname field) d = Some v ->
    parse_date lib field v = Raise ValueError ->
    snd (sync lib registry ty obj partial db) = dbe
    /\ forall row, fst (sync lib registry ty obj partial db) <> Return row.
Proof.
  intros lib registry ty obj partial db dbe field v d Hdirect He Hin Hc Ht Hv Hp.
  set (context := Context_new None (name ty) (Some d) None partial).
  assert (Hrow : forall row, built_row lib registry ty context dbe <> Return row).
  { intros row Hb. unfold built_row in Hb.
    destruct (_create_row_dict lib registry no_sync no_bulk_sync ty context dbe)
      as [o db1] eqn:E.
    cbn [fst] in Hb. subst o. unfold _create_row_dict in E. cbn [context Context_new data] in E.
    apply bind_inv in E. destruct E as [row0 [db0 [_ Hset]]].
    destruct (in_split _ _ Hin) as [pre [post Hsplit]]. rewrite Hsplit in Hset.
    rewrite for_each_app in Hset.
    apply bind_inv in Hset. destruct Hset as [row1 [db2 [_ Hset]]].
    cbn [for_each] in Hset.
    apply bind_inv in Hset. destruct Hset as [row2 [db3 [Hstep _]]].
    rewrite (@set_field_unparsable lib registry _ _ _ d row1 field v db2 Hc Ht Hv Hp) in Hstep.
    discriminate. }
  assert (Hrun : sync lib registry ty obj partial db =
                 match built_row lib registry ty context dbe with
                 | Return row => (write_row ty row ;;; ret row) dbe
                 | Raise e => (Raise e, dbe)
                 | Beyond => (Beyond, dbe)
                 end).
  { unfold sync. fold d. fold context.
    rewrite (@sync_unfold lib registry _ ty context d db eq_refl).
    erewrite bind_Return by exact He.
    unfold bind at 1.
    rewrite (@create_row_dict_direct lib registry _ _ ty context d dbe Hdirect eq_refl).
    destruct (built_row lib registry ty context dbe); reflexivity. }
  rewrite Hrun.
  destruct (built_row lib registry ty context dbe) as [row|e|].
  - now elim (Hrow row).
  - split; [reflexivity|discriminate].
  - split; [reflexivity|discriminate].
Qed.

Lemma unparsable_date_writes_no_row_witness :
  snd (sync example_lib event_registry Event event_doc_bad_day false event_db) = event_db
  /\ forall row,
       fst (sync example_lib event_registry Event event_doc_bad_day false event_db)
       <> Return row.
Proof.
  apply (@unparsable_date_writes_no_row example_lib event_registry Event event_doc_bad_day
           false event_db event_db (JSONField_new "day" "date") (VUnicode "someday")).
  - reflexivity.
  - vm_compute. reflexivity.
  - left. reflexivity.
  - reflexivity.
  - reflexivity.
  - reflexivity.
  - reflexivity.
Defined.

(** ** The lookup of [_update_row] *)

(** X8. [_update_row] on a table that exists: a row without [id] raises
    [KeyError]; a row whose [id] is [None], or an integer the table does not
    store, gives [False]; in each case the storage is left as it is and no
    call is made. *)
Theorem update_row_leaves_storage_when_not_found :
  forall ty row db t,
    dget (table_name ty) (tables db) = Some t ->
    (dget "id" row = None -> _update_row ty row db = (Raise (KeyError "id"), db))
    /\ (forall idv,
          dget "id" row = Some idv ->
          is_None idv = true
          \/ (exists k, key_of idv = Some k /\ find_record k (records t) = None) ->
          _update_row ty row db = (Return false, db)).
Proof.
  intros ty row db t Ht. rewrite update_row_cases, Ht. split.
  - intros ->. reflexivity.
  - intros idv -> [-> | [k [Hk Hf]]]; [reflexivity|].
    assert (Hn : is_None idv = false) by (destruct idv; try reflexivity; discriminate).
    now rewrite Hn, Hk, Hf.
Qed.

Lemma update_row_leaves_storage_when_not_found_witness :
  _update_row Person [("name", VUnicode "Dan")] person_db_ann
  = (Raise (KeyError "id"), person_db_ann)
  /\ _update_row Person cat_row person_db_ann = (Return false, person_db_ann).
Proof.
  split.
  - apply (proj1 (@update_row_leaves_storage_when_not_found Person
                    [("name", VUnicode "Dan")] person_db_ann person_table_ann eq_refl)).
    reflexivity.
  - apply (proj2 (@update_row_leaves_storage_when_not_found Person cat_row person_db_ann
                    person_table_ann eq_refl) (VInt 2)).
    + reflexivity.
    + right. exists 2. split; reflexivity.
Defined.

(** ** Records are never lost *)

Lemma records_stay_refl db : records_stay db db.
Proof. intros tn t k Ht Hk. now exists t. Qed.

Lemma records_stay_trans a b c : records_stay a b -> records_stay b c -> records_stay a c.
Proof.
  intros H1 H2 tn t k Ht Hk. destruct (H1 tn t k Ht Hk) as [t1 [Ht1 Hk1]].
  exact (H2 tn t1 k Ht1 Hk1).
Qed.

Lemma records_stay_put tn t t' db cat cs :
  dget tn (tables db) = Some t ->
  (forall k, find_record k (records t) <> None -> find_record k (records t') <> None) ->
  records_stay db (mkDAL (dset tn t' (tables db)) cat cs).
Proof.
  intros Ht Hrec tn0 t0 k Ht0 Hk. cbn [tables]. rewrite dget_dset.
  destruct (String.eqb tn0 tn) eqn:E; [|now exists t0].
  apply String.eqb_eq in E. subst tn0. rewrite Ht in Ht0. injection Ht0 as <-.
  exists t'. split; [reflexivity|now apply Hrec].
Qed.

Lemma records_stay_tables db cat cs : records_stay db (mkDAL (tables db) cat cs).
Proof. intros tn t k Ht Hk. now exists t. Qed.

Lemma records_stay_define_table tn fs : keeps records_stay (define_table tn fs).
Proof.
  intros db. unfold define_table. cbn [snd].
  destruct (dget tn (tables db)) as [t|] eqn:Et.
  - now apply (@records_stay_put tn t).
  - intros tn0 t0 k Ht0 Hk. cbn [tables]. rewrite dget_dset.
    destruct (String.eqb tn0 tn) eqn:E; [|now exists t0].
    apply String.eqb_eq in E. subst tn0. congruence.
Qed.

Lemma records_stay_update_record tn k fs : keeps records_stay (update_record tn k fs).
Proof.
  intros db. unfold update_record, bind, log, get_table, put_table. cbn [tables].
  destruct (dget tn (tables db)) as [t|] eqn:Et; cbn [snd tables json_type_registry calls];
    [|apply records_stay_tables].
  apply (@records_stay_put tn t); [exact Et|].
  intros k' Hk'. unfold updated_table. cbn [records].
  intros Hn. apply find_record_set_record_None in Hn. contradiction.
Qed.

Lemma records_stay_insert_one tn u fs : keeps records_stay (insert_one tn u fs).
Proof.
  intros db. unfold insert_one, bind, lift, get_table, put_table.
  destruct (dget tn (tables db)) as [t|] eqn:Et; cbn [snd]; [|apply records_stay_refl].
  destruct (insert_into t fs) as [t'|e|] eqn:Ei; cbn [snd]; try apply records_stay_refl.
  apply (@records_stay_put tn t); [exact Et|].
  intros k Hk. unfold insert_into in Ei.
  destruct (find _ _); [discriminate|].
  assert (Happ : forall kr, find_record k (records t ++ [kr]) <> None).
  { intros kr. rewrite find_record_app. destruct (find_record k (records t)); congruence. }
  destruct (dget "id" fs) as [v|].
  - destruct v; try discriminate;
      try (injection Ei as <-; apply Happ);
      (destruct (key_of _); [|discriminate]);
      (destruct (find_record _ (records t)); [discriminate|]);
      injection Ei as <-; apply Happ.
  - injection Ei as <-. apply Happ.
Qed.

Lemma records_stay_log c : keeps records_stay (log c).
Proof. intros db. apply records_stay_tables. Qed.

Lemma records_stay_insert tn fs : keeps records_stay (insert tn fs).
Proof.
  unfold insert. apply (@keeps_bind records_stay records_stay_trans);
    [apply records_stay_log|]. intros u. apply (records_stay_insert_one tn tt fs).
Qed.

Lemma records_stay_bulk_insert tn rows : keeps records_stay (bulk_insert tn rows).
Proof.
  unfold bulk_insert. apply (@keeps_bind records_stay records_stay_trans);
    [apply records_stay_log|]. intros u.
  apply keeps_for_each; [apply records_stay_refl|apply records_stay_trans|].
  intros acc x Hx. apply records_stay_insert_one.
Qed.

Lemma records_stay_extend_schema registry ty discovery :
  keeps records_stay (extend_schema registry ty discovery).
Proof.
  intros db. destruct (extend_schema_cases registry ty discovery db) as [->|Hc];
    [apply records_stay_refl|].
  destruct Hc as [missing [_ [_ Hc]]].
  assert (Hw : records_stay db (with_catalog (catalog_rows ty missing) db))
    by apply records_stay_tables.
  destruct (table_fields registry ty _) as [fs|e|].
  - rewrite Hc. eapply records_stay_trans; [exact Hw|]. apply records_stay_define_table.
  - destruct Hc as [-> _]. exact Hw.
  - destruct Hc as [-> _]. exact Hw.
Qed.

Lemma records_stay_engine lib registry fuel :
  (forall ty context, keeps records_stay (_sync lib registry fuel ty context)) /\
  (forall ty context, keeps records_stay (_bulk_sync lib registry fuel ty context)).
Proof.
  destruct (@keeps_engine records_stay records_stay_refl records_stay_trans
              lib registry (fun _ => True)) with (fuel := fuel) as [Hs Hb].
  - auto.
  - intros. apply records_stay_extend_schema.
  - intros. apply records_stay_update_record.
  - intros. apply records_stay_insert.
  - intros. apply records_stay_bulk_insert.
  - split; auto.
Qed.

(** X10. No [sync] and no [bulk_sync] loses a record: over every run of
    calls, whatever they return or raise and however their documents nest,
    an id a table stores at the start is stored in that table at the end
    (a table that is defined again keeps its records, as the DAL's
    migration does). *)
Theorem sync_never_loses_a_record :
  forall lib registry cs db, records_stay db (run_calls lib registry cs db).
Proof.
  intros lib registry cs. induction cs as [|c cs IH]; intros db; [apply records_stay_refl|].
  change (run_calls lib registry (c :: cs) db)
    with (run_calls lib registry cs (run_call lib registry db c)).
  apply (@records_stay_trans db (run_call lib registry db c)); [|exact (IH _)].
  destruct c as [ty obj partial|ty sq partial]; cbn [run_call]; unfold sync, bulk_sync;
    apply records_stay_engine.
Qed.

Lemma sync_never_loses_a_record_witness :
  exists t',
    dget "Person" (tables (run_calls example_lib person_registry person_run person_db_ann))
    = Some t'
    /\ find_record 1 (records t') <> None.
Proof.
  apply (@sync_never_loses_a_record example_lib person_registry person_run person_db_ann
           "Person" person_table_ann 1).
  - vm_compute. reflexivity.
  - vm_compute. discriminate.
Defined.

(** ** Declaring types and looking them up *)

Lemma find_app (A : Type) (p : A -> bool) l1 l2 :
  find p (l1 ++ l2) = match find p l1 with Some x => Some x | None => find p l2 end.
Proof.
  induction l1 as [|x l1 IH]; [reflexivity|]. cbn [app find].
  destruct (p x); [reflexivity|exact IH].
Qed.

Lemma dget_fold_dset_last (V : Type) k (items : list (string * V)) : forall acc,
  dget k (fold_left (fun d kv => dset (fst kv) (snd kv) d) items acc) =
  match find (fun kv => String.eqb (fst kv) k) (rev items) with
  | Some kv => Some (snd kv)
  | None => dget k acc
  end.
Proof.
  induction items as [|[k0 v0] items IH]; intros acc; [reflexivity|].
  cbn [fold_left rev fst snd]. rewrite IH, find_app.
  destruct (find _ (rev items)); [reflexivity|]. cbn [find fst snd].
  rewrite dget_dset. rewrite (String.eqb_sym k0 k). now destruct (String.eqb k k0).
Qed.

(** X12. [JSONType.__getattr__] returns, of the declared fields of that
    name, the one declared last, and raises [AttributeError] when the type
    declares none. *)
Theorem type_getattr_returns_last_declared :
  forall ty n,
    JSONType_getattr ty n =
    match find (fun field => String.eqb (fieldname field) n) (rev (fields ty)) with
    | Some field => Return field
    | None => Raise (AttributeError n)
    end.
Proof.
  intros ty n. unfold JSONType_getattr, fields_by_name, dict_of.
  rewrite dget_fold_dset_last, <- map_rev.
  induction (rev (fields ty)) as [|f l IH]; [reflexivity|].
  cbn [map find fst snd]. destruct (String.eqb (fieldname f) n); [reflexivity|exact IH].
Qed.

(** ** The catalog is written before the table *)



(** ** A batch that fails *)

Lemma combine_seq_app (A : Type) (l1 l2 : list A) : forall start,
  combine (List.seq start (List.length (l1 ++ l2))) (l1 ++ l2)
  = combine (List.seq start (List.length l1)) l1
    ++ combine (List.seq (start + List.length l1) (List.length l2)) l2.
Proof.
  induction l1 as [|x l1 IH]; intros start.
  - cbn. now rewrite Nat.add_0_r.
  - cbn [List.length app List.seq combine]. rewrite IH.
    now rewrite Nat.add_succ_r.
Qed.

Lemma enumerate_app (A : Type) (l1 l2 : list A) :
  enumerate (l1 ++ l2)
  = enumerate l1 ++ combine (List.seq (List.length l1) (List.length l2)) l2.
Proof. unfold enumerate. apply (combine_seq_app l1 l2 0). Qed.



(** ** What the discovery finds *)

(** X15. [_find_extra_types], started with nothing found, finds exactly
    the keys of the document that are not known fields, are not [id] and
    hold a value other than [None]; for each it records the type of the
    value. *)
Theorem discovery_finds_exactly_the_new_fields :
  forall current_fields d f types,
    dget f (_find_extra_types current_fields [] d) = Some types <->
    dmem f current_fields = false /\ f <> "id"
    /\ exists v, dget f d = Some v /\ is_None v = false /\ types = [type_of v].
Proof.
  intros current_fields d f types.
  destruct (dmem f current_fields) eqn:Hcf.
  { rewrite find_extra_types_skips by now left.
    split; [discriminate|]. intros [H _]. discriminate. }
  destruct (String.eqb f "id") eqn:Eid.
  { apply String.eqb_eq in Eid. rewrite find_extra_types_skips by now right.
    split; [discriminate|]. intros [_ [H _]]. contradiction. }
  apply String.eqb_neq in Eid.
  rewrite find_extra_types_get by assumption. unfold record_kinds.
  destruct (dget f d) as [v|].
  - destruct (is_None v) eqn:En.
    + split; [discriminate|]. intros [_ [_ [w [[= <-] [Hw _]]]]]. congruence.
    + split.
      * intros [= <-]. split; [reflexivity|]. split; [exact Eid|]. now exists v.
      * intros [_ [_ [w [[= <-] [_ ->]]]]]. reflexivity.
  - split; [discriminate|]. intros [_ [_ [w [Hw _]]]]. discriminate.
Qed.

(** ** What the row holds *)

Lemma set_field_plain lib registry s b context d row field v db :
  compute field = None ->
  str_in (type field) ["datetime"; "date"; "time"] = false ->
  ref_match (type field) = None ->
  dget (fieldname field) d = Some v -> is_None v = false ->
  set_field lib registry s b context d row field db
  = (Return (dset (column_name field) v row), db).
Proof.
  intros Hc Ht Hm Hv Hn. unfold set_field, dmem. rewrite Hc, Hv, andb_false_r, Hn.
  unfold convert_temporal. rewrite Ht, Hm. reflexivity.
Qed.

(** X16. A declared field that is not computed, is no date or time and no
    reference, and has a value in the document, is entered in the row as it
    is, under the field's column name (no two fields sharing a column). *)
Theorem plain_field_is_stored_under_its_column :
  forall lib registry s b ty context d db row db' field v,
    data context = Some d ->
    _create_row_dict lib registry s b ty context db = (Return row, db') ->
    In field (fields ty) -> NoDup (map column_name (fields ty)) ->
    compute field = None ->
    str_in (type field) ["datetime"; "date"; "time"] = false ->
    ref_match (type field) = None ->
    dget (fieldname field) d = Some v -> is_None v = false ->
    dget (column_name field) row = Some v.
Proof.
  intros lib registry s b ty context d db row db' field v Hd H Hin Hnd Hc Ht Hm Hv Hn.
  unfold _create_row_dict in H. rewrite Hd in H.
  apply bind_inv in H. destruct H as [row0 [db0 [_ Hset]]].
  destruct (in_split _ _ Hin) as [pre [post Hsplit]]. rewrite Hsplit in Hset.
  rewrite for_each_app in Hset.
  apply bind_inv in Hset. destruct Hset as [row1 [db1 [_ Hset]]].
  cbn [for_each] in Hset.
  apply bind_inv in Hset. destruct Hset as [row2 [db2 [Hstep Hpost]]].
  rewrite (@set_field_plain lib registry s b context d row1 field v db1 Hc Ht Hm Hv Hn)
    in Hstep.
  injection Hstep as <- <-.
  erewrite later_fields_keep_column; [apply dget_dset_same| |exact Hpost].
  rewrite Hsplit, map_app in Hnd. cbn [map] in Hnd.
  apply NoDup_remove_2 in Hnd. intros Hp. apply Hnd, in_or_app. now right.
Qed.

Lemma plain_field_is_stored_under_its_column_witness :
  dget "name" ann_row = Some (VUnicode "Ann").
Proof.
  apply (@plain_field_is_stored_under_its_column example_lib person_registry
           no_sync no_bulk_sync Person
           (Context_new None "Person" (Some (AttrDict_new ann_doc)) None false)
           (AttrDict_new ann_doc) person_db_ann ann_row person_db_ann
           (JSONField_new "name" "string") (VUnicode "Ann")).
  - reflexivity.
  - vm_compute. reflexivity.
  - left. reflexivity.
  - repeat constructor; cbn; intuition discriminate.
  - reflexivity.
  - reflexivity.
  - reflexivity.
  - reflexivity.
  - reflexivity.
Defined.

Lemma passthrough_null ty d row x db f t :
  dget (table_name ty) (tables db) = Some t ->
  dget f d = Some VNone -> dmem f (fields_by_name ty) = false ->
  forall row' db',
    passthrough ty d row x db = (Return row', db') ->
    (x = f -> dget f row' = if str_in f (row_columns t) then Some VNone else dget f row)
    /\ (x <> f -> dget f row' = dget f row).
Proof.
  intros Ht Hf Hdecl row' db' H. split.
  - intros ->. unfold passthrough in H. rewrite Hdecl, Hf in H. cbn [is_None negb] in H.
    erewrite bind_Return in H by (apply get_table_Some; exact Ht).
    destruct (str_in f (row_columns t)); injection H as <- _;
      [apply dget_dset_same|reflexivity].
  - intros Hx. apply passthrough_inv in H.
    destruct H as [_ [->|[_ [v [_ [-> _]]]]]]; [reflexivity|].
    apply dget_dset_other. congruence.
Qed.

(** X17. A [None] under a key of the document that is no declared field
    and no column of one: the row gets the key, with [None], when the table
    has a column of that name, and does not get it otherwise. *)
Theorem null_is_copied_only_into_an_existing_column :
  forall lib registry s b ty context d db row db' f t,
    data context = Some d ->
    dget (table_name ty) (tables db) = Some t ->
    dget f d = Some VNone ->
    dmem f (fields_by_name ty) = false ->
    (forall field, In field (fields ty) -> column_name field <> f) ->
    _create_row_dict lib registry s b ty context db = (Return row, db') ->
    dget f row = if str_in f (row_columns t) then Some VNone else None.
Proof.
  intros lib registry s b ty context d db row db' f t Hd Ht Hf Hdecl Hcol H.
  unfold _create_row_dict in H. rewrite Hd in H.
  apply bind_inv in H. destruct H as [row0 [db0 [Hpass Hset]]].
  set (goal := if str_in f (row_columns t) then Some VNone else @None value).
  assert (Hstate : forall l acc dba r dbb,
             for_each (passthrough ty d) l acc dba = (Return r, dbb) -> dbb = dba).
  { induction l as [|x l IH]; intros acc dba r dbb Hl; cbn [for_each] in Hl.
    - now injection Hl as _ <-.
    - apply bind_inv in Hl. destruct Hl as [acc1 [dbc [Hx Hl]]].
      apply passthrough_inv in Hx. destruct Hx as [-> _]. now apply IH in Hl. }
  assert (Hin : In f (dkeys d)) by (apply dmem_In; unfold dmem; now rewrite Hf).
  destruct (in_split _ _ Hin) as [pre [post Hsplit]]. rewrite Hsplit in Hpass.
  rewrite for_each_app in Hpass.
  apply bind_inv in Hpass. destruct Hpass as [row1 [db1 [Hpre Hpass]]].
  pose proof (Hstate _ _ _ _ _ Hpre) as ->.
  cbn [for_each] in Hpass.
  apply bind_inv in Hpass. destruct Hpass as [row2 [db2 [Hstep Hpost]]].
  assert (H1 : dget f row1 = None \/ dget f row1 = goal).
  { revert Hpre. apply (for_each_inv_state
                          (fun r dbx => dbx = db /\ (dget f r = None \/ dget f r = goal))).
    - intros acc x dbx acc' dbx' _ [-> Hacc] Hx.
      pose proof Hx as Hx'. apply passthrough_inv in Hx'. destruct Hx' as [-> _].
      split; [reflexivity|].
      destruct (@passthrough_null ty d acc x db f t Ht Hf Hdecl _ _ Hx) as [He Hne].
      destruct (String.eqb x f) eqn:E.
      + apply String.eqb_eq in E. rewrite (He E). unfold goal.
        destruct (str_in f (row_columns t)); [now right|exact Hacc].
      + apply String.eqb_neq in E. now rewrite (Hne E).
    - auto. }
  assert (H2 : dget f row2 = goal /\ db2 = db).
  { pose proof Hstep as Hx'. apply passthrough_inv in Hx'. destruct Hx' as [-> _].
    split; [|reflexivity].
    destruct (@passthrough_null ty d row1 f db f t Ht Hf Hdecl _ _ Hstep) as [He _].
    rewrite (He eq_refl). unfold goal in *.
    destruct (str_in f (row_columns t)); [reflexivity|].
    destruct H1 as [H1|H1]; exact H1. }
  destruct H2 as [H2 ->].
  assert (H3 : dget f row0 = goal).
  { revert Hpost. apply (for_each_inv_state (fun r dbx => dbx = db /\ dget f r = goal)).
    - intros acc x dbx acc' dbx' _ [-> Hacc] Hx.
      pose proof Hx as Hx'. apply passthrough_inv in Hx'. destruct Hx' as [-> _].
      split; [reflexivity|].
      destruct (@passthrough_null ty d acc x db f t Ht Hf Hdecl _ _ Hx) as [He Hne].
      destruct (String.eqb x f) eqn:E.
      + apply String.eqb_eq in E. rewrite (He E). unfold goal in *.
        destruct (str_in f (row_columns t)); [reflexivity|exact Hacc].
      + apply String.eqb_neq in E. now rewrite (Hne E).
    - auto. }
  revert Hset. apply (for_each_inv (fun r => dget f r = goal)); [|exact H3].
  intros acc x dbx acc' dbx' Hx Hacc Hstep'.
  apply set_field_inv in Hstep'. destruct Hstep' as [->|[v ->]]; [exact Hacc|].
  rewrite dget_dset_other; [exact Hacc|]. intros E. now apply (Hcol x Hx).
Qed.

Lemma null_is_copied_only_into_an_existing_column_witness :
  dget "nickname" [("id", VInt 1); ("nickname", VNone); ("name", VNone); ("age", VNone)]
  = if str_in "nickname" (row_columns person_table_ann) then Some VNone else None.
Proof.
  apply (@null_is_copied_only_into_an_existing_column example_lib person_registry
           no_sync no_bulk_sync Person
           (Context_new None "Person"
              (Some (AttrDict_new [("id", VInt 1); ("nickname", VNone)])) None false)
           (AttrDict_new [("id", VInt 1); ("nickname", VNone)]) person_db_ann
           [("id", VInt 1); ("nickname", VNone); ("name", VNone); ("age", VNone)]
           person_db_ann "nickname" person_table_ann).
  - reflexivity.
  - vm_compute. reflexivity.
  - reflexivity.
  - reflexivity.
  - intros field [<-|[<-|[]]]; discriminate.
  - vm_compute. reflexivity.
Defined.

(** * Inference, references and the registry *)

(** ** The column type of a new field *)

Lemma find_extra_types_seq_discover current_fields objs :
  find_extra_types_seq current_fields (map VDict objs)
  = Return (discover current_fields (map AttrDict_new objs)).
Proof.
  unfold find_extra_types_seq, discover. generalize (@nil (string * list pytype)) as acc.
  induction objs as [|o objs IH]; intros acc; [reflexivity|].
  cbn [map ofold fold_left AttrDict_of_value obind]. apply IH.
Qed.

Lemma storage_type_of_types types :
  storage_type_of_kinds types = column_type_of_types types.
Proof.
  destruct types as [|t [|t' rest]]; [reflexivity| |]; destruct t; reflexivity.
Qed.

(** The column and the catalog entry [_redefine_with_missing_fields] gives
    a field that was found. *)
Lemma redefine_adds_typed_column registry ty missing db db1 f types :
  NoDup (dkeys missing) ->
  (forall g, In g (dkeys missing) -> dmem g (known_fields ty db) = false) ->
  dget f missing = Some types ->
  _redefine_with_missing_fields registry ty missing db = (Return tt, db1) ->
  catalog_type db1 (name ty) f = Some (infer_db_type types)
  /\ exists t1,
       dget (table_name ty) (tables db1) = Some t1
       /\ In (f, infer_db_type types) (tfields t1).
Proof.
  intros Hnd Hnew Hm H.
  assert (Hf : dmem f (known_fields ty db) = false).
  { apply Hnew. apply dmem_In. unfold dmem. now rewrite Hm. }
  unfold _redefine_with_missing_fields, JSONRegistry_add_fields_to_type in H.
  destruct (infer_db_types missing) as [|p l] eqn:Ei.
  { rewrite infer_db_types_map in Ei by exact Hnd. destruct missing; discriminate. }
  rewrite <- Ei in H. fold (catalog_rows ty missing) in H.
  set (rows := catalog_rows ty missing) in *.
  erewrite bind_Return in H
    by (change (registry_bulk_insert rows db) with (Return tt, with_catalog rows db);
        reflexivity).
  rewrite redefine_table_run in H.
  destruct (table_fields registry ty (with_catalog rows db)) as [fs|e|] eqn:Et;
    try discriminate.
  unfold define_table in H. injection H as <-.
  rewrite known_fields_mem in Hf. apply orb_false_iff in Hf. destruct Hf as [Hdecl Hcat].
  assert (Hct : catalog_type (with_catalog rows db) (name ty) f = Some (infer_db_type types)).
  { rewrite catalog_type_app by exact Hcat. unfold rows.
    rewrite catalog_rows_type by exact Hnd. now rewrite Hm. }
  split; [exact Hct|].
  eexists. cbn [tables]. rewrite dget_dset_same. split; [reflexivity|].
  cbn [tfields]. right.
  assert (Hk : dget f (known_fields ty (with_catalog rows db))
               = Some (JSONField_new f (infer_db_type types))).
  { rewrite known_fields_get. unfold dmem in Hdecl.
    destruct (dget f (fields_by_name ty)); [discriminate|]. now rewrite Hct. }
  apply In_dvalues in Hk.
  eapply table_fields_plain in Hk; [|exact Et|apply infer_db_type_plain].
  exact Hk.
Qed.




(** ** A reference field *)

Lemma write_row_null_id ty row db db' :
  dget "id" row = Some VNone ->
  write_row ty row db = (Return tt, db') ->
  calls db' = calls db ++ [Cinsert (table_name ty) row].
Proof.
  intros Hid H. unfold write_row in H. rewrite bind_run, update_row_cases, Hid in H.
  destruct (dget (table_name ty) (tables db)) as [t|]; [|discriminate].
  cbn [is_None fst snd] in H.
  pose proof (insert_log (table_name ty) row db) as Hl. rewrite H in Hl. exact Hl.
Qed.

(** A sync whose row has no [id] raises [KeyError] and does not write it. *)
Lemma sync_row_without_id lib registry f ty context d db dbe row db1 t :
  data context = Some d ->
  extend_schema registry ty (discovery_of_doc d) db = (Return tt, dbe) ->
  _create_row_dict lib registry (_sync lib registry f) (_bulk_sync lib registry f)
    ty context dbe = (Return row, db1) ->
  dget (table_name ty) (tables db1) = Some t ->
  dget "id" row = None ->
  _sync lib registry (S f) ty context db = (Raise (KeyError "id"), db1).
Proof.
  intros Hd He Hrow Ht Hid.
  rewrite (@sync_unfold lib registry f ty context d db Hd).
  erewrite bind_Return by exact He. erewrite bind_Return by exact Hrow.
  apply bind_Raise. unfold write_row. apply bind_Raise.
  now rewrite update_row_cases, Ht, Hid.
Qed.

(** A field that raises ends the construction of the row, and the sync. *)
Lemma sync_raises_at_field lib registry fuel ty context d pre field post
    db dbe row0 dba row1 db1 e db2 :
  data context = Some d ->
  fields ty = pre ++ field :: post ->
  extend_schema registry ty (discovery_of_doc d) db = (Return tt, dbe) ->
  for_each (passthrough ty d) (dkeys d) [] dbe = (Return row0, dba) ->
  for_each (set_field lib registry (_sync lib registry fuel) (_bulk_sync lib registry fuel)
              context d) pre row0 dba = (Return row1, db1) ->
  set_field lib registry (_sync lib registry fuel) (_bulk_sync lib registry fuel)
    context d row1 field db1 = (Raise e, db2) ->
  _sync lib registry (S fuel) ty context db = (Raise e, db2).
Proof.
  intros Hd Hf He Hpass Hpre Hstep.
  rewrite (@sync_unfold lib registry fuel ty context d db Hd).
  erewrite bind_Return by exact He. apply bind_Raise.
  unfold _create_row_dict. rewrite Hd. erewrite bind_Return by exact Hpass.
  rewrite Hf, for_each_app. erewrite bind_Return by exact Hpre.
  cbn [for_each]. now apply bind_Raise.
Qed.

Lemma reference_step_attribute lib registry s b context d row field n a o db :
  compute field = None ->
  ref_match (type field) = Some ("reference", n) ->
  JSONRegistry_getitem registry n = Return (ItemAttribute a) ->
  dget (fieldname field) d = Some (VDict o) ->
  set_field lib registry s b context d row field db = (Raise (AttributeError "_sync"), db).
Proof.
  intros Hc Hm Hr Hv. unfold set_field, dmem. rewrite Hc, Hv.
  rewrite andb_false_r. cbn [is_None]. cbv beta iota.
  rewrite convert_temporal_reference by (rewrite Hm; discriminate).
  rewrite Hm.
  unfold bind, lift, ret, resolve_reference. cbn [String.eqb Ascii.eqb Bool.eqb andb].
  unfold bind, lift, ret. rewrite Hr. reflexivity.
Qed.

Lemma reference_step_no_type lib registry s b context d row field n e v db :
  compute field = None ->
  ref_match (type field) = Some ("reference", n) ->
  JSONRegistry_getitem registry n = Raise e ->
  dget (fieldname field) d = Some v -> is_None v = false ->
  set_field lib registry s b context d row field db = (Raise e, db).
Proof.
  intros Hc Hm Hr Hv Hn. unfold set_field, dmem. rewrite Hc, Hv.
  rewrite andb_false_r, Hn. cbv beta iota.
  rewrite convert_temporal_reference by (rewrite Hm; discriminate).
  rewrite Hm.
  unfold bind, lift, ret, resolve_reference. cbn [String.eqb Ascii.eqb Bool.eqb andb].
  unfold bind, lift, ret. rewrite Hr. reflexivity.
Qed.




(** ** A list of references *)

Lemma extends_calls_bulk_item lib registry fuel ty context st io :
  keeps extends_calls
    (bulk_item lib registry (_sync lib registry fuel) (_bulk_sync lib registry fuel)
       ty context st io).
Proof.
  apply (@keeps_bulk_item extends_calls extends_calls_refl extends_calls_trans
           lib registry (fun _ => True)); auto;
    intros; try apply extends_calls_update_record; now apply extends_calls_engine.
Qed.

(** The rows of a batch whose [id] is [None] are all in the list that is
    bulk-inserted. *)
Lemma bulk_loop_null_ids lib registry s b ty context l :
  forall st db st' db',
    for_each (bulk_item lib registry s b ty context) l st db = (Return st', db') ->
    (forall r, In r (snd st) -> dget "id" r = Some VNone -> In r (fst st)) ->
    forall r, In r (snd st') -> dget "id" r = Some VNone -> In r (fst st').
Proof.
  induction l as [|x l IH]; intros st db st' db' H Hst; cbn [for_each] in H.
  - injection H as <- <-. exact Hst.
  - apply bind_inv in H. destruct H as [st1 [db1 [Hx H]]].
    apply (IH _ _ _ _ H). unfold bulk_item in Hx.
    apply bind_inv in Hx. destruct Hx as [d [db2 [_ Hx]]].
    apply bind_inv in Hx. destruct Hx as [row [db3 [_ Hx]]].
    apply bind_inv in Hx. destruct Hx as [u [db4 [Hu Hx]]].
    injection Hx as <- <-. cbn [fst snd]. intros r Hr Hid.
    apply in_app_or in Hr. destruct Hr as [Hr|[<-|[]]].
    + destruct u; [now apply Hst|]. apply in_or_app. left. now apply Hst.
    + rewrite update_row_cases, Hid in Hu.
      destruct (dget (table_name ty) (tables db3)); [|discriminate].
      cbn [is_None] in Hu. injection Hu as <- <-. apply in_or_app. right. now left.
Qed.

(** A bulk sync that returns a row whose [id] is [None] has bulk-inserted
    it, as the last call of the log. *)
Lemma bulk_sync_null_id lib registry fuel ty context sq db children db' c :
  seq context = Some sq ->
  _bulk_sync lib registry fuel ty context db = (Return children, db') ->
  In c children -> dget "id" c = Some VNone ->
  exists cs rows,
    calls db' = calls db ++ cs ++ [Cbulk_insert (table_name ty) rows] /\ In c rows.
Proof.
  intros Hs H Hin Hid. destruct fuel as [|f]; [discriminate|].
  rewrite (@bulk_sync_unfold lib registry f ty context sq db Hs) in H.
  apply bind_inv in H. destruct H as [[] [db0 [He H]]].
  apply bind_inv in H. destruct H as [st [db1 [Hloop H]]].
  apply bind_inv in H. destruct H as [[] [db2 [Hflush H]]].
  injection H as <- <-.
  assert (Hc : In c (fst st)).
  { apply (@bulk_loop_null_ids lib registry _ _ ty context _ _ _ _ _ Hloop);
      [intros r []|exact Hin|exact Hid]. }
  assert (exists c0, calls db0 = calls db ++ c0) as [c0 E0]
    by (eapply run_extends_calls; [|exact He]; apply extends_calls_extend_schema).
  assert (exists c1, calls db1 = calls db0 ++ c1) as [c1 E1].
  { eapply run_extends_calls; [|exact Hloop].
    apply keeps_for_each; [apply extends_calls_refl|apply extends_calls_trans|].
    intros acc x Hx. apply extends_calls_bulk_item. }
  unfold flush in Hflush. destruct (fst st) as [|row rows] eqn:Est; [destruct Hc|].
  exists (c0 ++ c1), (row :: rows). split; [|exact Hc].
  pose proof (bulk_insert_calls (table_name ty) (row :: rows) db1) as Hl.
  rewrite Hflush in Hl. cbn [snd] in Hl. rewrite Hl, E1, E0. now rewrite <- !app_assoc.
Qed.

(** The loop of [splice_ids] stops at the first child whose [id] is
    [None]. *)
Lemma splice_loop_null items pre c post :
  forall ks done,
    map row_key pre = map Some ks ->
    dget "id" c = Some VNone ->
    (List.length done + List.length pre < List.length (documents items))%nat ->
    ofold (fun ids (ic : nat * AttrDict) =>
             obind (getitem (snd ic) "id") (fun id =>
             obind (long id) (fun id' =>
             match nth_error (positions 0 items) (fst ic) with
             | Some j => setitem_list j id' ids
             | None => Raise IndexError
             end)))
          (combine (List.seq (List.length done) (List.length (pre ++ c :: post)))
             (pre ++ c :: post))
          (splice_back items done)
    = Raise TypeError.
Proof.
  induction pre as [|p pre IH]; intros ks done Hks Hid Hlen.
  - cbn [app List.length List.seq combine ofold fst snd]. unfold getitem.
    rewrite Hid. reflexivity.
  - destruct ks as [|k ks]; [discriminate|]. cbn [map] in Hks. injection Hks as Hk Hks.
    cbn [app List.length List.seq combine ofold fst snd].
    unfold row_key in Hk. unfold getitem.
    destruct (dget "id" p) as [idv|]; [|discriminate]. cbn [obind].
    rewrite (long_key _ Hk). cbn [obind].
    cbn [List.length] in Hlen.
    destruct (nth_error (positions 0 items) (List.length done)) as [j|] eqn:Ep.
    + unfold setitem_list.
      pose proof (@splice_step items [] done (VLong k) j Ep) as Hs. cbn [app] in Hs.
      rewrite Hs. cbn [obind].
      rewrite <- (length_snoc done (VLong k)).
      apply IH with (ks := ks); [exact Hks|exact Hid|].
      rewrite length_snoc. lia.
    + apply nth_error_None in Ep. rewrite positions_length in Ep. lia.
Qed.

(** The step of a [list:reference] field. *)
Lemma list_reference_step lib registry fuel context d row field n item v db :
  compute field = None ->
  ref_match (type field) = Some ("list:reference", n) ->
  JSONRegistry_getitem registry n = Return item ->
  dget (fieldname field) d = Some v -> is_None v = false ->
  set_field lib registry (_sync lib registry fuel) (_bulk_sync lib registry fuel)
    context d row field db
  = match documents (as_sequence v) with
    | [] => (Return (dset (column_name field) (VList (splice_back (as_sequence v) [])) row),
             db)
    | _ =>
        (ref_type <- lift (type_attribute item "_bulk_sync") ;;
         children <- _bulk_sync lib registry fuel ref_type
                       (list_context context ref_type (documents (as_sequence v))) ;;
         ids' <- lift (splice_ids (positions 0 (as_sequence v)) children
                         (splice_back (as_sequence v) [])) ;;
         ret (dset (column_name field) (VList ids') row)) db
    end.
Proof.
  intros Hc Hm Hr Hv Hn. unfold set_field, dmem. rewrite Hc, Hv, andb_false_r, Hn.
  cbv beta iota. rewrite convert_temporal_reference by (rewrite Hm; discriminate).
  rewrite Hm.
  unfold bind at 1, lift at 1. cbv beta iota.
  cbn [String.eqb Ascii.eqb Bool.eqb andb].
  unfold resolve_list_reference.
  unfold bind at 1 2, lift at 1 2. rewrite Hr, split_items_spec. cbv beta iota.
  destruct (documents (as_sequence v)) as [|doc docs] eqn:Ed; [reflexivity|].
  unfold list_context, bind, lift, ret.
  destruct (type_attribute item "_bulk_sync") as [ref_type|e|];
    [|reflexivity|reflexivity].
  destruct (_bulk_sync lib registry fuel ref_type _ db) as [[children|e|] db1];
    [|reflexivity|reflexivity].
  destruct (splice_ids _ _ _); reflexivity.
Qed.

Lemma list_reference_step_no_type lib registry s b context d row field n e v db :
  compute field = None ->
  ref_match (type field) = Some ("list:reference", n) ->
  JSONRegistry_getitem registry n = Raise e ->
  dget (fieldname field) d = Some v -> is_None v = false ->
  set_field lib registry s b context d row field db = (Raise e, db).
Proof.
  intros Hc Hm Hr Hv Hn. unfold set_field, dmem. rewrite Hc, Hv, andb_false_r, Hn.
  cbv beta iota. rewrite convert_temporal_reference by (rewrite Hm; discriminate).
  rewrite Hm.
  unfold bind at 1, lift at 1. cbv beta iota.
  cbn [String.eqb Ascii.eqb Bool.eqb andb].
  unfold resolve_list_reference.
  unfold bind, lift. rewrite Hr. reflexivity.
Qed.

(** A bulk sync in which the row of one document has no [id] raises
    [KeyError] at that document, in the state reached after the documents
    before it and the construction of that row. *)
Lemma bulk_sync_row_without_id lib registry f ty context pre o post db dbe st db1 rbad
    db2 t :
  seq context = Some (pre ++ VDict o :: post) ->
  extend_schema registry ty (discovery_of_seq (pre ++ VDict o :: post)) db
  = (Return tt, dbe) ->
  for_each (bulk_item lib registry (_sync lib registry f) (_bulk_sync lib registry f)
              ty context) (enumerate pre) ([], []) dbe = (Return st, db1) ->
  _create_row_dict lib registry (_sync lib registry f) (_bulk_sync lib registry f) ty
    (set_item context (Z.of_nat (List.length pre)) (AttrDict_new o)) db1
  = (Return rbad, db2) ->
  dget (table_name ty) (tables db2) = Some t ->
  dget "id" rbad = None ->
  _bulk_sync lib registry (S f) ty context db = (Raise (KeyError "id"), db2).
Proof.
  intros Hs He Hloop Hrow Ht Hid.
  rewrite (@bulk_sync_unfold lib registry f ty context _ db Hs).
  erewrite bind_Return by exact He.
  rewrite enumerate_app. apply bind_Raise. rewrite for_each_app.
  erewrite bind_Return by exact Hloop.
  cbn [List.length List.seq combine for_each].
  apply bind_Raise. unfold bulk_item. cbn [fst snd AttrDict_of_value].
  rewrite bind_lift_Return.
  erewrite bind_Return by exact Hrow.
  apply bind_Raise. now rewrite update_row_cases, Ht, Hid.
Qed.

(** Every row of a batch that returned has an [id]: [None] or a key. *)
Lemma bulk_loop_ids lib registry s b ty context l :
  forall st db st' db',
    for_each (bulk_item lib registry s b ty context) l st db = (Return st', db') ->
    (forall r, In r (snd st) -> dget "id" r = Some VNone \/ row_key r <> None) ->
    forall r, In r (snd st') -> dget "id" r = Some VNone \/ row_key r <> None.
Proof.
  induction l as [|x l IH]; intros st db st' db' H Hst; cbn [for_each] in H.
  - injection H as <- <-. exact Hst.
  - apply bind_inv in H. destruct H as [st1 [db1 [Hx H]]].
    apply (IH _ _ _ _ H). unfold bulk_item in Hx.
    apply bind_inv in Hx. destruct Hx as [d [db2 [_ Hx]]].
    apply bind_inv in Hx. destruct Hx as [row [db3 [_ Hx]]].
    apply bind_inv in Hx. destruct Hx as [u [db4 [Hu Hx]]].
    injection Hx as <- <-. cbn [fst snd]. intros r Hr.
    apply in_app_or in Hr. destruct Hr as [Hr|[<-|[]]]; [now apply Hst|].
    rewrite update_row_cases in Hu.
    destruct (dget (table_name ty) (tables db3)); [|discriminate].
    unfold row_key. destruct (dget "id" row) as [idv|]; [|discriminate].
    destruct (is_None idv) eqn:En.
    + left. destruct idv; try discriminate. reflexivity.
    + right. destruct (key_of idv); [discriminate|discriminate].
Qed.

Lemma bulk_sync_ids lib registry fuel ty context sq db children db' :
  seq context = Some sq ->
  _bulk_sync lib registry fuel ty context db = (Return children, db') ->
  forall r, In r children -> dget "id" r = Some VNone \/ row_key r <> None.
Proof.
  intros Hs H. destruct fuel as [|f]; [discriminate|].
  rewrite (@bulk_sync_unfold lib registry f ty context sq db Hs) in H.
  apply bind_inv in H. destruct H as [[] [db0 [He H]]].
  apply bind_inv in H. destruct H as [st [db1 [Hloop H]]].
  apply bind_inv in H. destruct H as [[] [db2 [Hflush H]]].
  injection H as <- <-.
  apply (@bulk_loop_ids lib registry _ _ ty context _ _ _ _ _ Hloop). intros r [].
Qed.

(** The first row of a list whose [id] is [None]. *)
Lemma first_null_id (children : list AttrDict) c :
  (forall r, In r children -> dget "id" r = Some VNone \/ row_key r <> None) ->
  In c children -> dget "id" c = Some VNone ->
  exists pre c' post ks,
    children = pre ++ c' :: post /\ map row_key pre = map Some ks
    /\ dget "id" c' = Some VNone.
Proof.
  induction children as [|r children IH]; intros Hall Hin Hid; [destruct Hin|].
  destruct (Hall r (or_introl eq_refl)) as [Hr|Hr].
  - exists [], r, children, []. auto.
  - destruct Hin as [->|Hin].
    + unfold row_key in Hr. rewrite Hid in Hr. now destruct Hr.
    + destruct IH as [pre [c' [post [ks [E [Hks Hc']]]]]];
        [intros r' Hr'; apply Hall; now right|exact Hin|exact Hid|].
      destruct (row_key r) as [k|] eqn:Ek; [|now destruct Hr].
      exists (r :: pre), c', post, (k :: ks). cbn [map app]. rewrite E, Ek, Hks. auto.
Qed.

(** C6, the claim as stated fails: the identifiers that the storage
    generates are never spliced back. On the specification's own example,
    [[5, {"name": "a"}, 7, {"name": "b"}]] under a [list:reference Bar]
    field, the bulk sync of the two documents raises [KeyError] at the
    first, which has no id, and nothing is written. With null ids in the
    two documents their rows are bulk-inserted, under the generated ids 1
    and 2, and the conversion of the first [None] then raises [TypeError];
    the [Foo] row is not written. *)
Lemma generated_identifiers_are_not_spliced_back :
  sync example_lib foo_registry Foo [("id", VInt 1); ("bars", VList bars_new)] false foo_db
  = (Raise (KeyError "id"), foo_db)
  /\ fst (sync example_lib foo_registry Foo foo_bars_null_doc false foo_db) = Raise TypeError
  /\ calls (snd (sync example_lib foo_registry Foo foo_bars_null_doc false foo_db))
     = calls foo_db ++ [Cbulk_insert "Bar" [[("id", VNone); ("name", VUnicode "a")];
                                            [("id", VNone); ("name", VUnicode "b")]]]
  /\ option_map records
       (dget "Bar" (tables (snd (sync example_lib foo_registry Foo foo_bars_null_doc false
                                   foo_db))))
     = Some [(1, [("id", VNone); ("name", VUnicode "a")]);
             (2, [("id", VNone); ("name", VUnicode "b")])]
  /\ option_map records
       (dget "Foo" (tables (snd (sync example_lib foo_registry Foo foo_bars_null_doc false
                                   foo_db))))
     = Some [].
Proof. repeat split; vm_compute; reflexivity. Qed.

(** C6, as amended. For a field of type [list:reference <OtherType>] with a
    value other than [None], [registry[OtherType]] is looked up first; when
    it raises, the field raises the same and nothing is written. A value
    that is no list or tuple counts as the list of that one value. When
    every item is an integer the column holds the items as they are and the
    storage is neither read nor written. Otherwise the items that are no
    integers are bulk-synced as one batch of the other type, in a child
    context that inherits [partial]; when [registry[OtherType]] is an
    attribute of the registry and no type, the field raises
    [AttributeError] and nothing is written. When the batch returns rows
    with integer ids, the column holds the list in which each document has
    given place to the [id] its row carries, as a [long], and each integer
    has kept its place: as many items as the input, all integers, in input
    order; the ids are read from the rows the batch returned, never from
    the storage. When the batch returns a row whose [id] is [None], that
    row has been bulk-inserted, in the last call of the log, and the field
    raises [TypeError]. When the batch raises, the field raises the same,
    in the state the batch reached; it raises [KeyError] at the first
    document whose row has no [id], in the state reached by the documents
    before it and the construction of that row, without the batch's
    insert. A field that raises while the parent's row is built makes the
    parent's sync raise the same, in the same state: the parent's row is
    not written. *)
Theorem list_reference_field_splices_ids :
  forall lib registry fuel context d row field n v,
    compute field = None ->
    ref_match (type field) = Some ("list:reference", n) ->
    dget (fieldname field) d = Some v -> is_None v = false ->
    let items := as_sequence v in
    let step := set_field lib registry (_sync lib registry fuel)
                  (_bulk_sync lib registry fuel) context d in
    (forall e db,
       JSONRegistry_getitem registry n = Raise e -> step row field db = (Raise e, db))
    /\ (forall item db,
          JSONRegistry_getitem registry n = Return item -> documents items = [] ->
          step row field db = (Return (dset (column_name field) (VList items) row), db))
    /\ (forall a db,
          JSONRegistry_getitem registry n = Return (ItemAttribute a) ->
          documents items <> [] ->
          step row field db = (Raise (AttributeError "_bulk_sync"), db))
    /\ (forall ref_type,
          JSONRegistry_getitem registry n = Return (ItemType ref_type) ->
          documents items <> [] ->
          let child_context := list_context context ref_type (documents items) in
          let batch := _bulk_sync lib registry fuel ref_type child_context in
          (forall db children db' ks,
             batch db = (Return children, db') ->
             map row_key children = map Some ks ->
             let ids := splice_back items (map VLong ks) in
             step row field db = (Return (dset (column_name field) (VList ids) row), db')
             /\ List.length ids = List.length items
             /\ forallb is_integer ids = true)
          /\ (forall db children db' c,
                batch db = (Return children, db') ->
                In c children -> dget "id" c = Some VNone ->
                step row field db = (Raise TypeError, db')
                /\ exists cs rows,
                     calls db' = calls db ++ cs ++ [Cbulk_insert (table_name ref_type) rows]
                     /\ In c rows)
          /\ (forall db e db',
                batch db = (Raise e, db') -> step row field db = (Raise e, db'))
          /\ (forall f pre o post db dbe st db1 rbad db2 t,
                fuel = S f ->
                documents items = pre ++ VDict o :: post ->
                extend_schema registry ref_type (discovery_of_seq (documents items)) db
                = (Return tt, dbe) ->
                for_each (bulk_item lib registry (_sync lib registry f)
                            (_bulk_sync lib registry f) ref_type child_context)
                  (enumerate pre) ([], []) dbe = (Return st, db1) ->
                _create_row_dict lib registry (_sync lib registry f)
                  (_bulk_sync lib registry f) ref_type
                  (set_item child_context (Z.of_nat (List.length pre)) (AttrDict_new o)) db1
                = (Return rbad, db2) ->
                dget (table_name ref_type) (tables db2) = Some t ->
                dget "id" rbad = None ->
                step row field db = (Raise (KeyError "id"), db2)))
    /\ (forall ty pre post db dbe row0 dba db1 e db2,
          data context = Some d ->
          fields ty = pre ++ field :: post ->
          extend_schema registry ty (discovery_of_doc d) db = (Return tt, dbe) ->
          for_each (passthrough ty d) (dkeys d) [] dbe = (Return row0, dba) ->
          for_each step pre row0 dba = (Return row, db1) ->
          step row field db1 = (Raise e, db2) ->
          _sync lib registry (S fuel) ty context db = (Raise e, db2)).
Proof.
  intros lib registry fuel context d row field n v Hc Hm Hv Hn items step.
  split; [|split; [|split; [|split]]].
  - intros e db Hr. unfold step.
    now apply (@list_reference_step_no_type lib registry _ _ context d row field n e v db).
  - intros item db Hr Hd. unfold step.
    rewrite (@list_reference_step lib registry fuel context d row field n item v db
               Hc Hm Hr Hv Hn).
    fold items. rewrite Hd. now rewrite splice_back_integers.
  - intros a db Hr Hd. unfold step.
    rewrite (@list_reference_step lib registry fuel context d row field n _ v db
               Hc Hm Hr Hv Hn).
    fold items. destruct (documents items); [congruence|reflexivity].
  - intros ref_type Hr Hd child_context batch.
    assert (Hstep : forall db,
               step row field db =
               (children <- batch ;;
                ids' <- lift (splice_ids (positions 0 items) children
                                (splice_back items [])) ;;
                ret (dset (column_name field) (VList ids') row)) db).
    { intros db. unfold step.
      rewrite (@list_reference_step lib registry fuel context d row field n _ v db
                 Hc Hm Hr Hv Hn).
      fold items. destruct (documents items) eqn:Ed; [congruence|]. reflexivity. }
    split; [|split; [|split]].
    + intros db children db' ks Hbulk Hks ids.
      assert (Hlen : List.length children = List.length (documents items))
        by (eapply bulk_sync_length; [|exact Hbulk]; reflexivity).
      split; [|split].
      * rewrite Hstep. erewrite bind_Return by exact Hbulk.
        unfold bind, lift, ret.
        rewrite (@splice_ids_spec items children ks Hks) by lia. reflexivity.
      * apply splice_back_length.
      * apply splice_back_all_integers.
        rewrite <- Hlen. apply (f_equal (@List.length _)) in Hks.
        rewrite !length_map in Hks. congruence.
    + intros db children db' c Hbulk Hin Hid. split.
      * assert (Hlen : List.length children = List.length (documents items))
          by (eapply bulk_sync_length; [|exact Hbulk]; reflexivity).
        destruct (@first_null_id children c) as [pre [c' [post [ks [E [Hks Hc']]]]]];
          [|exact Hin|exact Hid|].
        { eapply bulk_sync_ids; [|exact Hbulk]. reflexivity. }
        rewrite Hstep. erewrite bind_Return by exact Hbulk.
        assert (Hsplice : splice_ids (positions 0 items) children (splice_back items [])
                          = Raise TypeError).
        { rewrite E. apply (@splice_loop_null items pre c' post ks [] Hks Hc').
          rewrite <- Hlen, E, length_app. cbn. lia. }
        unfold bind, lift, ret. now rewrite Hsplice.
      * eapply bulk_sync_null_id; [|exact Hbulk|exact Hin|exact Hid]. reflexivity.
    + intros db e db' Hbulk. rewrite Hstep. now apply bind_Raise.
    + intros f pre o post db dbe st db1 rbad db2 t -> Hdocs He Hloop Hrow Ht Hid.
      rewrite Hstep. apply bind_Raise. unfold batch.
      apply (@bulk_sync_row_without_id lib registry f ref_type child_context pre o post
               db dbe st db1 rbad db2 t); try assumption.
      * unfold child_context, list_context. cbn. now rewrite Hdocs.
      * now rewrite <- Hdocs.
  - intros ty pre post db dbe row0 dba db1 e db2 Hd Hf He Hpass Hpre Hstep.
    now apply (@sync_raises_at_field lib registry fuel ty context d pre field post
                 db dbe row0 dba row db1 e db2).
Qed.

Lemma list_reference_field_splices_ids_witness :
  (set_field example_lib foo_registry (_sync example_lib foo_registry 3)
     (_bulk_sync example_lib foo_registry 3) foo_bars_context (AttrDict_new foo_bars_doc)
     [("id", VInt 1)] (JSONField_new "bars" "list:reference Bar") foo_db
   = (Return (dset "bars" (VList (splice_back bars (map VLong [11; 12]))) [("id", VInt 1)]),
      snd (_bulk_sync example_lib foo_registry 3 Bar
             (list_context foo_bars_context Bar (documents bars)) foo_db))
   /\ List.length (splice_back bars (map VLong [11; 12])) = List.length bars
   /\ forallb is_integer (splice_back bars (map VLong [11; 12])) = true)
  /\ (let context := Context_new None "Foo" (Some (AttrDict_new foo_bars_null_doc)) None
                       false in
      let c := [("id", VNone); ("name", VUnicode "b")] in
      let db' := snd (_bulk_sync example_lib foo_registry 3 Bar
                        (list_context context Bar (documents bars_null)) foo_db) in
      set_field example_lib foo_registry (_sync example_lib foo_registry 3)
        (_bulk_sync example_lib foo_registry 3) context (AttrDict_new foo_bars_null_doc)
        [("id", VInt 1)] (JSONField_new "bars" "list:reference Bar") foo_db
      = (Raise TypeError, db')
      /\ exists cs rows,
           calls db' = calls foo_db ++ cs ++ [Cbulk_insert (table_name Bar) rows]
           /\ In c rows).
Proof.
  split.
  - destruct (@list_reference_field_splices_ids example_lib foo_registry 3 foo_bars_context
                (AttrDict_new foo_bars_doc) [("id", VInt 1)]
                (JSONField_new "bars" "list:reference Bar") "Bar" (VList bars)
                eq_refl eq_refl eq_refl eq_refl) as [_ [_ [_ [H _]]]].
    assert (Hd : documents (as_sequence (VList bars)) <> []) by (vm_compute; discriminate).
    destruct (H Bar eq_refl Hd) as [H1 _].
    apply (H1 foo_db [[("id", VInt 11); ("name", VUnicode "a")];
                      [("id", VInt 12); ("name", VUnicode "b")]]).
    + vm_compute. reflexivity.
    + vm_compute. reflexivity.
  - intros context c db'.
    destruct (@list_reference_field_splices_ids example_lib foo_registry 3 context
                (AttrDict_new foo_bars_null_doc) [("id", VInt 1)]
                (JSONField_new "bars" "list:reference Bar") "Bar" (VList bars_null)
                eq_refl eq_refl eq_refl eq_refl) as [_ [_ [_ [H _]]]].
    assert (Hd : documents (as_sequence (VList bars_null)) <> [])
      by (vm_compute; discriminate).
    destruct (H Bar eq_refl Hd) as [_ [H2 _]].
    apply (H2 foo_db [[("id", VNone); ("name", VUnicode "a")];
                      [("id", VNone); ("name", VUnicode "b")]] db' c).
    + vm_compute. reflexivity.
    + right. left. reflexivity.
    + reflexivity.
Defined.

(** ** The registry *)

(** X2. Whenever [JSONRegistry.fields_by_name] returns, the dictionary it
    returns has distinct keys and holds, under each name, the declared field
    of that name when the type declares one, and otherwise a field of the
    name with the type of the first catalog entry of the type for it. *)
Theorem fields_by_name_declared_first :
  forall ty db fbn db',
    JSONRegistry_fields_by_name ty db = (Return fbn, db') ->
    NoDup (dkeys fbn)
    /\ forall f,
         dget f fbn =
         match dget f (fields_by_name ty) with
         | Some field => Some field
         | None => option_map (JSONField_new f) (catalog_type db (name ty) f)
         end.
Proof.
  intros ty db fbn db' H. rewrite fields_by_name_run in H. injection H as <- <-. split.
  - apply known_fields_NoDup.
  - apply known_fields_get.
Qed.

Lemma fields_by_name_declared_first_witness :
  NoDup (dkeys (known_fields Person person_db_ann))
  /\ forall f,
       dget f (known_fields Person person_db_ann) =
       match dget f (fields_by_name Person) with
       | Some field => Some field
       | None => option_map (JSONField_new f) (catalog_type person_db_ann (name Person) f)
       end.
Proof.
  apply (@fields_by_name_declared_first Person person_db_ann
           (known_fields Person person_db_ann) person_db_ann).
  reflexivity.
Defined.

(** X3. When every reference among the known fields is to a type of the
    registry ([registry[name]] is a type), [define_tables] returns after one
    [define_table] call for each type, in the order of the registry; the
    table of a type gets the columns of its known fields, a reference field
    with the table (not the name) of the type it refers to; the rows of the
    catalog are not written. *)
Theorem define_tables_defines_every_table :
  forall registry db,
    references_resolve registry db ->
    let r := JSONRegistry_redefine_tables registry db in
    fst r = Return tt
    /\ json_type_registry (snd r) = json_type_registry db
    /\ calls (snd r)
       = calls db ++ map (fun ty => Cdefine_table (table_name ty) (dal_fields registry ty db))
                         (types registry).
Proof.
  intros registry db H. unfold JSONRegistry_redefine_tables.
  apply redefine_tables_loop; [|reflexivity].
  intros ty Hin. apply table_fields_resolve. intros field kind n. now apply H.
Qed.

Lemma define_tables_defines_every_table_witness :
  fst (JSONRegistry_redefine_tables foo_registry empty_db) = Return tt
  /\ json_type_registry (snd (JSONRegistry_redefine_tables foo_registry empty_db))
     = json_type_registry empty_db
  /\ calls (snd (JSONRegistry_redefine_tables foo_registry empty_db))
     = calls empty_db
       ++ map (fun ty => Cdefine_table (table_name ty) (dal_fields foo_registry ty empty_db))
              (types foo_registry).
Proof.
  apply define_tables_defines_every_table.
  intros ty field kind n Hty Hf Hm.
  destruct Hty as [<-|[<-|[]]]; vm_compute in Hf.
  - destruct Hf as [<-|[<-|[]]]; vm_compute in Hm; injection Hm as _ <-;
      exists Bar; reflexivity.
  - destruct Hf as [<-|[]]. vm_compute in Hm. discriminate.
Defined.

(** X4. A document in which every key is a known field, is the id, or
    holds [None] has no new field: [_find_extra_types] finds nothing, and
    [_redefine_with_missing_fields] then returns without reading or writing
    the database, [add_fields_to_type] returning at once on no field. *)
Theorem no_new_field_no_schema_call :
  forall registry ty current_fields d db,
    (forall f v, dget f d = Some v -> is_None v = false -> f <> "id" ->
                 dmem f current_fields = true) ->
    _find_extra_types current_fields [] d = []
    /\ _redefine_with_missing_fields registry ty (_find_extra_types current_fields [] d) db
       = (Return tt, db).
Proof.
  intros registry ty current_fields d db H.
  rewrite (find_extra_types_nil current_fields d H). split; reflexivity.
Qed.

Lemma no_new_field_no_schema_call_witness :
  _find_extra_types (known_fields Person person_db) []
    (AttrDict_new [("id", VInt 1); ("name", VUnicode "Ann"); ("age", VNone)]) = []
  /\ _redefine_with_missing_fields person_registry Person
       (_find_extra_types (known_fields Person person_db) []
          (AttrDict_new [("id", VInt 1); ("name", VUnicode "Ann"); ("age", VNone)]))
       person_db
     = (Return tt, person_db).
Proof.
  apply no_new_field_no_schema_call.
  intros f v Hf Hn Hid.
  assert (Hin : In f (dkeys (AttrDict_new [("id", VInt 1); ("name", VUnicode "Ann");
                                           ("age", VNone)])))
    by (apply dmem_In; unfold dmem; now rewrite Hf).
  vm_compute in Hin.
  destruct Hin as [<-|[<-|[<-|[]]]]; [now elim Hid|reflexivity|].
  vm_compute in Hf. injection Hf as <-. discriminate.
Defined.


